(** * PolicyAgent core: cache, history, recognizer and dispatcher

  A shallow embedding of [src/core/Cache.ts], [src/core/State.ts],
  [src/core/Agent.ts] and [src/core/Processor.ts], followed by the
  properties of the dispatch / cache / history triad.

  Conventions of the embedding
  - a JavaScript string is the list of its UTF-16 code units;
  - [Date.now()] and [Math.random()] are inputs: the pure cache and
    history operations take the readings they consume as arguments, the
    dispatcher threads a clock and a random source through a small
    state-and-exception monad;
  - integers held in JS numbers (sizes, counters, millisecond stamps)
    are in [Z]; fractional numbers (hit rate, confidence) are in [Q],
    and the arithmetic of the confidence and of [parseInt] rounds to
    doubles as IEEE 754 does;
  - a JS [Map] is an association list in insertion order, because the
    eviction scan depends on the iteration order. *)

From Stdlib Require Import Ascii String.
From Stdlib Require Import List ZArith NArith QArith Qpower Bool Lia Lqa.
From Stdlib Require Import DecimalString.
Import ListNotations.

Local Open Scope Z_scope.

(* ================================================================== *)
(** * JavaScript values used by the core                               *)
(* ================================================================== *)

Module JS.

(** A string is its sequence of UTF-16 code units. *)
Definition jsstring := list N.

Definition jsstring_eq_dec : forall a b : jsstring, {a = b} + {a <> b} :=
  list_eq_dec N.eq_dec.

(** Strict equality [===] of two strings. *)
Fixpoint eqb (a b : jsstring) : bool :=
  match a, b with
  | [], [] => true
  | x :: a', y :: b' => (x =? y)%N && eqb a' b'
  | _, _ => false
  end.

(** Truthiness of a string: only the empty string is falsy. *)
Definition truthy (s : jsstring) : bool :=
  match s with [] => false | _ :: _ => true end.

(** Reading a source literal: the bytes of a Rocq string are decoded as
    UTF-8 and re-encoded as UTF-16 code units. *)
Fixpoint bytes_of (s : string) : list N :=
  match s with
  | EmptyString => []
  | String a r => N_of_ascii a :: bytes_of r
  end.

Definition cont (b : N) : N := N.land b 63.

Definition units_of_code_point (cp : N) : list N :=
  if (cp <? 65536)%N then [cp]
  else let c := (cp - 65536)%N in
       [(55296 + N.shiftr c 10)%N; (56320 + N.land c 1023)%N].

Fixpoint decode (bs : list N) : list N :=
  match bs with
  | [] => []
  | b :: r =>
    if (b <? 128)%N then b :: decode r
    else if (b <? 224)%N then
      match r with
      | b1 :: r1 => (N.shiftl (N.land b 31) 6 + cont b1)%N :: decode r1
      | _ => []
      end
    else if (b <? 240)%N then
      match r with
      | b1 :: b2 :: r2 =>
        (N.shiftl (N.land b 15) 12 + N.shiftl (cont b1) 6 + cont b2)%N
          :: decode r2
      | _ => []
      end
    else
      match r with
      | b1 :: b2 :: b3 :: r3 =>
        units_of_code_point
          (N.shiftl (N.land b 7) 18 + N.shiftl (cont b1) 12
           + N.shiftl (cont b2) 6 + cont b3)%N ++ decode r3
      | _ => []
      end
  end.

Definition lit (s : string) : jsstring := decode (bytes_of s).

(** [WhiteSpace] and [LineTerminator] code units: what [trim] strips and
    what the class [\s] matches. *)
Definition is_space (c : N) : bool :=
  ((9 <=? c) && (c <=? 13) || (c =? 32) || (c =? 160) || (c =? 5760)
   || (8192 <=? c) && (c <=? 8202) || (c =? 8232) || (c =? 8233)
   || (c =? 8239) || (c =? 8287) || (c =? 12288) || (c =? 65279))%N.

Fixpoint trimStart (s : jsstring) : jsstring :=
  match s with
  | c :: r => if is_space c then trimStart r else s
  | [] => []
  end.

(** [String.prototype.trim]. *)
Definition trim (s : jsstring) : jsstring :=
  rev (trimStart (rev (trimStart s))).

(** [toLowerCase] restricted to ASCII, used to run the model on ASCII
    and caseless (CJK) text; the recognizer is stated over any
    implementation of [String.prototype.toLowerCase]. *)
Definition ascii_lower (c : N) : N :=
  if ((65 <=? c) && (c <=? 90))%N then (c + 32)%N else c.

Definition ascii_toLowerCase (s : jsstring) : jsstring := map ascii_lower s.

(** Decimal rendering of an integer, as template literals print it. *)
Definition of_Z (z : Z) : jsstring :=
  lit (NilZero.string_of_int (Z.to_int z)).

(** [Array.prototype.slice(start, end)] with its relative (negative)
    indices; [None] stands for an omitted [end]. *)
Definition clamp (len rel : Z) : Z :=
  if rel <? 0 then Z.max (len + rel) 0 else Z.min rel len.

Definition slice {A} (start : Z) (end_ : option Z) (l : list A) : list A :=
  let len := Z.of_nat (length l) in
  let k := clamp len start in
  let final := match end_ with None => len | Some e => clamp len e end in
  firstn (Z.to_nat (final - k)) (skipn (Z.to_nat k) l).

(** A number that may be [Infinity] (the initial bound of a minimum scan). *)
Inductive bound := Fin (z : Z) | Infinity.

Definition lt_bound (z : Z) (b : bound) : bool :=
  match b with Fin y => z <? y | Infinity => true end.

Definition eq_bound (z : Z) (b : bound) : bool :=
  match b with Fin y => z =? y | Infinity => false end.

(** ** Doubles

    A double is the rational it denotes.  [a / b] rounded to the
    nearest integer, ties to the even one ([b] positive). *)
Definition round_half_even (a b : Z) : Z :=
  let q := a / b in
  let r := a mod b in
  if 2 * r <? b then q
  else if b <? 2 * r then q + 1
  else if Z.even q then q else q + 1.

(** The exponent of the binade of a positive rational [a / b]: the [e]
    with [2^52 <= (a / b) / 2^e < 2^53], and [-1074] below the normal
    range. *)
Definition binade (a b : Z) : Z :=
  let e0 := Z.log2 a - Z.log2 b - 52 in
  let below :=
    if 0 <=? e0 then a <? 2 ^ 52 * (b * 2 ^ e0)
    else a * 2 ^ (- e0) <? 2 ^ 52 * b in
  Z.max (if below then e0 - 1 else e0) (-1074).

(** Round to nearest, ties to even, with 53 significant bits.  (A
    result of [2^1024] or more stands for an overflow; the values
    rounded here stay far below.) *)
Definition round_positive (a b : Z) : Q :=
  let e := binade a b in
  if 0 <=? e then
    inject_Z (round_half_even a (b * 2 ^ e) * 2 ^ e)
  else
    Qmake (round_half_even (a * 2 ^ (- e)) b) (Z.to_pos (2 ^ (- e))).

Definition round_double (q : Q) : Q :=
  match Qnum q with
  | Z0 => 0%Q
  | Zpos a => round_positive (Zpos a) (Zpos (Qden q))
  | Zneg a => Qopp (round_positive (Zpos a) (Zpos (Qden q)))
  end.

(** The double written as a decimal literal, and [+] and [*] on
    doubles. *)
Definition literal (q : Q) : Q := round_double q.
Definition fadd (x y : Q) : Q := round_double (x + y).
Definition fmul (x y : Q) : Q := round_double (x * y).

(** The double nearest to a non-negative integer: the integer itself up
    to [2^53], [Infinity] from [2^1024] on. *)
Definition double_of_Z (n : Z) : bound :=
  if n <? 2 ^ 53 then Fin n
  else
    let e := Z.log2 n - 52 in
    let r := round_half_even n (2 ^ e) * 2 ^ e in
    if r <? 2 ^ 1024 then Fin r else Infinity.

End JS.

Import JS.

(* ================================================================== *)
(** * Cache.ts: SmartCache                                             *)
(* ================================================================== *)

Module SmartCache.
Section Cache.

(** [V] is the type of cached values.  [is_undefined v] holds when [v]
    is the JS value [undefined] (which [has] cannot tell from absence);
    [JSON_stringify] is the runtime's, [None] when it yields
    [undefined]. *)
Variable V : Type.
Variable is_undefined : V -> bool.
Variable JSON_stringify : V -> option jsstring.

Record CacheOptions := {
  maxSize : option Z;
  ttlMs : option Z;
  prefix : option jsstring
}.

Record RequiredCacheOptions := {
  r_maxSize : Z;
  r_ttlMs : Z;
  r_prefix : jsstring
}.

Record CacheEntry := {
  value : V;
  expiresAt : Z;
  accessCount : Z;
  lastAccessed : Z
}.

Record CacheStats := {
  size : Z;
  s_maxSize : Z;
  hitRate : Q;
  memoryUsage : Z
}.

(** The private [Map<K, CacheEntry<V>>], in insertion order. *)
Definition entries := list (jsstring * CacheEntry).

Record t := {
  cache : entries;
  options : RequiredCacheOptions;
  hitCount : Z;
  missCount : Z
}.

(** ** The [Map] operations the class uses *)

Fixpoint map_get (key : jsstring) (m : entries) : option CacheEntry :=
  match m with
  | [] => None
  | (k, e) :: r => if eqb k key then Some e else map_get key r
  end.

(** [Map.prototype.set]: an existing key keeps its position. *)
Fixpoint map_set (key : jsstring) (e : CacheEntry) (m : entries) : entries :=
  match m with
  | [] => [(key, e)]
  | (k, e0) :: r =>
    if eqb k key then (k, e) :: r else (k, e0) :: map_set key e r
  end.

Fixpoint map_delete (key : jsstring) (m : entries) : entries :=
  match m with
  | [] => []
  | (k, e) :: r => if eqb k key then r else (k, e) :: map_delete key r
  end.

Definition map_has (key : jsstring) (m : entries) : bool :=
  match map_get key m with Some _ => true | None => false end.

Definition map_size (m : entries) : Z := Z.of_nat (length m).

Definition keys (m : entries) : list jsstring := map fst m.

Definition with_cache (c : t) (m : entries) : t :=
  {| cache := m; options := options c;
     hitCount := hitCount c; missCount := missCount c |}.

(** ** constructor *)

Definition default (A : Type) (d : A) (o : option A) : A :=
  match o with Some a => a | None => d end.

Definition new (o : CacheOptions) : t :=
  {| cache := [];
     options := {| r_maxSize := default _ 100 (maxSize o);
                   r_ttlMs := default _ (5 * 60 * 1000) (ttlMs o);
                   r_prefix := default _ [] (prefix o) |};
     hitCount := 0;
     missCount := 0 |}.

(** ** evictLRU *)

(** The three locals of the scan: [lruKey], [lruAccessCount], [lruTime]. *)
Definition scan_state := (option jsstring * bound * bound)%type.

Definition scan_init : scan_state := (None, Infinity, Infinity).

(** One iteration of [for (const [key, entry] of this.cache)]. *)
Definition scan_step (acc : scan_state) (ke : jsstring * CacheEntry)
  : scan_state :=
  let '(lruKey, lruAccessCount, lruTime) := acc in
  let (key, entry) := ke in
  if lt_bound (accessCount entry) lruAccessCount then
    (Some key, Fin (accessCount entry), Fin (lastAccessed entry))
  else if eq_bound (accessCount entry) lruAccessCount then
    if lt_bound (lastAccessed entry) lruTime then
      (Some key, lruAccessCount, Fin (lastAccessed entry))
    else acc
  else acc.

Definition scan (m : entries) : scan_state := fold_left scan_step m scan_init.

Definition lruKey (m : entries) : option jsstring := fst (fst (scan m)).

(** [if (lruKey) this.cache.delete(lruKey)]: the test is on the
    truthiness of the key, so [null] and the empty string both skip
    the deletion. *)
Definition evictLRU (c : t) : t :=
  match lruKey (cache c) with
  | Some k => if truthy k then with_cache c (map_delete k (cache c)) else c
  | None => c
  end.

(** ** set / get / has / delete / clear

    [set] reads the clock twice ([expiresAt], then [lastAccessed]);
    [get] reads it once for the expiry test and once more when it
    refreshes [lastAccessed].  The readings are the first arguments. *)

Definition set (now1 now2 : Z) (key : jsstring) (v : V) (c : t) : t :=
  let c1 :=
    if map_size (cache c) >=? r_maxSize (options c) then evictLRU c else c in
  with_cache c1
    (map_set key
       {| value := v;
          expiresAt := now1 + r_ttlMs (options c);
          accessCount := 0;
          lastAccessed := now2 |}
       (cache c1)).

Definition get (now1 now2 : Z) (key : jsstring) (c : t) : option V * t :=
  match map_get key (cache c) with
  | None => (None, c)
  | Some entry =>
    if now1 >? expiresAt entry then
      (None, with_cache c (map_delete key (cache c)))
    else
      (Some (value entry),
       with_cache c
         (map_set key
            {| value := value entry;
               expiresAt := expiresAt entry;
               accessCount := accessCount entry + 1;
               lastAccessed := now2 |}
            (cache c)))
  end.

(** [this.get(key) !== undefined] *)
Definition has (now1 now2 : Z) (key : jsstring) (c : t) : bool * t :=
  let (r, c') := get now1 now2 key c in
  (match r with Some v => negb (is_undefined v) | None => false end, c').

Definition delete (key : jsstring) (c : t) : bool * t :=
  (map_has key (cache c), with_cache c (map_delete key (cache c))).

Definition clear (c : t) : t := with_cache c [].

(** ** getStats *)

Definition calculateHitRate (c : t) : Q :=
  let total := hitCount c + missCount c in
  if total >? 0 then (inject_Z (hitCount c) / inject_Z total)%Q else 0%Q.

(** [JSON.stringify(entry.value).length] is a [TypeError] when the
    value does not serialise; the estimate is then [None]. *)
Fixpoint estimate_from (bytes : Z) (m : entries) : option Z :=
  match m with
  | [] => Some bytes
  | (key, entry) :: r =>
    match JSON_stringify (value entry) with
    | Some js =>
      estimate_from
        (bytes + Z.of_nat (length key) * 2 + Z.of_nat (length js) * 2) r
    | None => None
    end
  end.

Definition estimateMemoryUsage (c : t) : option Z := estimate_from 0 (cache c).

Definition getStats (c : t) : option CacheStats :=
  let sz := map_size (cache c) in
  let mx := r_maxSize (options c) in
  let hr := calculateHitRate c in
  match estimateMemoryUsage c with
  | Some mem =>
    Some {| size := sz; s_maxSize := mx; hitRate := hr; memoryUsage := mem |}
  | None => None
  end.

(** ** Sequences of calls on one cache *)

Inductive call :=
| Set_ (now1 now2 : Z) (key : jsstring) (v : V)
| Get (now1 now2 : Z) (key : jsstring)
| Has (now1 now2 : Z) (key : jsstring)
| Delete (key : jsstring)
| Clear
| GetStats.

Definition step (c : t) (o : call) : t :=
  match o with
  | Set_ n1 n2 k v => set n1 n2 k v c
  | Get n1 n2 k => snd (get n1 n2 k c)
  | Has n1 n2 k => snd (has n1 n2 k c)
  | Delete k => snd (delete k c)
  | Clear => clear c
  | GetStats => c
  end.

Definition run (ops : list call) (c : t) : t := fold_left step ops c.

(** The key a call stores under, if it is a [set]. *)
Definition set_key (o : call) : option jsstring :=
  match o with Set_ _ _ k _ => Some k | _ => None end.

(** A run of [set] calls: the two clock readings, the key and the value
    of each. *)
Definition insertion := (Z * Z * jsstring * V)%type.

Definition inserted_key (i : insertion) : jsstring := snd (fst i).

Definition insert_call (i : insertion) : call :=
  Set_ (fst (fst (fst i))) (snd (fst (fst i))) (snd (fst i)) (snd i).

(** The order in which the scan prefers entries: fewer accesses first,
    then the older [lastAccessed]. *)
Definition precedes (e e' : CacheEntry) : Prop :=
  accessCount e <= accessCount e'
  /\ (accessCount e = accessCount e' -> lastAccessed e <= lastAccessed e').

(** What the three locals hold once the scan has gone through [p]. *)
Definition scanned (p : entries) (acc : scan_state) : Prop :=
  (p = [] /\ acc = scan_init)
  \/ exists k e,
      acc = (Some k, Fin (accessCount e), Fin (lastAccessed e))
      /\ In (k, e) p
      /\ forall k' e', In (k', e') p -> precedes e e'.

(** The state a cache is in when only non-empty keys were stored. *)
Definition well_keyed (c : t) : Prop :=
  NoDup (keys (cache c)) /\ forall k, In k (keys (cache c)) -> k <> [].

(** The entry [get] leaves behind after a successful read at [now2]. *)
Definition touched (now2 : Z) (e : CacheEntry) : CacheEntry :=
  {| value := value e;
     expiresAt := expiresAt e;
     accessCount := accessCount e + 1;
     lastAccessed := now2 |}.

(** The entry [set] stores. *)
Definition fresh (ttl now1 now2 : Z) (v : V) : CacheEntry :=
  {| value := v;
     expiresAt := now1 + ttl;
     accessCount := 0;
     lastAccessed := now2 |}.

(** The bound on the size that holds whatever [maxSize] is. *)
Definition within (c : t) : Prop :=
  map_size (cache c) <= Z.max 1 (r_maxSize (options c)).

(** [key], if stored, expires at [deadline]. *)
Definition expires_at (key : jsstring) (deadline : Z) (c : t) : Prop :=
  NoDup (keys (cache c))
  /\ forall e, map_get key (cache c) = Some e -> expiresAt e = deadline.

End Cache.
End SmartCache.

(* ================================================================== *)
(** * Agent.ts: the core type definitions                              *)
(* ================================================================== *)

Module Types.

Inductive ChannelType := slack | discord | telegram | whatsapp | imessage.

Inductive IntentType := analyze | review | pricing | export | help | unknown.

(** The string a [ChannelType] or an [IntentType] is at run time. *)
Definition channel_name (c : ChannelType) : jsstring :=
  match c with
  | slack => lit "slack"
  | discord => lit "discord"
  | telegram => lit "telegram"
  | whatsapp => lit "whatsapp"
  | imessage => lit "imessage"
  end.

Definition type_name (t : IntentType) : jsstring :=
  match t with
  | analyze => lit "analyze"
  | review => lit "review"
  | pricing => lit "pricing"
  | export => lit "export"
  | help => lit "help"
  | unknown => lit "unknown"
  end.

Definition IntentType_eq_dec : forall a b : IntentType, {a = b} + {a <> b}.
Proof. decide equality. Defined.

(** The values the recognizer stores in [params]. *)
Inductive jsvalue :=
| VString (s : jsstring)
| VNumber (n : Z)
| VInfinity.

(** A [Record<string, any>], in property-creation order. *)
Definition Params := list (jsstring * jsvalue).

Record Intent := {
  type : IntentType;
  params : Params;
  confidence : Q
}.

Record Artifact := {
  a_id : jsstring;
  a_type : jsstring;
  data : Params
}.

Record UserInfo := {
  u_id : jsstring;
  name : jsstring;
  roles : list jsstring
}.

Record ArtifactReference := {
  ar_id : jsstring;
  ar_type : jsstring;
  createdAt : Z
}.

Record AgentContext := {
  user : UserInfo;
  message : jsstring;
  channel : ChannelType;
  timestamp : Z;
  artifacts : list ArtifactReference
}.

(** Modelled from the spec: the declaration of [ProcessorResult] is not
    in the sources ([Processor.ts] and [Agent.ts] import it from each
    other).  Section 6 gives a handler's result as
    [{ artifact?: Artifact, ... }]; [State.ts] stores it in a
    [StateResult], whose two other fields are kept here as optional. *)
Record ProcessorResult := {
  artifact : option Artifact;
  success : option bool;
  error : option jsstring
}.

Definition StateResult := ProcessorResult.

Record ProcessingResult := {
  pr_success : bool;
  pr_artifact : option Artifact;
  fromCache : option bool;
  duration : Z;
  pr_error : option jsstring
}.

End Types.

Import Types.

(* ================================================================== *)
(** * State.ts: StateManager                                           *)
(* ================================================================== *)

Module StateManager.

Record StateEntry := {
  id : jsstring;
  intent : Intent;
  result : StateResult;
  timestamp : Z;
  duration : Z;
  metadata : option Params
}.

(** The argument of [record]: an entry without its [id].  The tests
    call it without a [timestamp], hence the option. *)
Record EntryInput := {
  i_intent : Intent;
  i_result : StateResult;
  i_timestamp : option Z;
  i_duration : Z;
  i_metadata : option Params
}.

Record StateSnapshot := {
  entries : list StateEntry;
  s_currentIndex : Z
}.

Record t := {
  history : list StateEntry;
  currentIndex : Z;
  maxHistorySize : Z
}.

Definition new : t :=
  {| history := []; currentIndex := -1; maxHistorySize := 100 |}.

Definition len (h : list StateEntry) : Z := Z.of_nat (length h).

Definition size (s : t) : Z := len (history s).

Definition getCurrent (s : t) : option StateEntry :=
  if (currentIndex s <? 0) || (currentIndex s >=? len (history s)) then None
  else nth_error (history s) (Z.to_nat (currentIndex s)).

(** [record id now entry]: [id] is what [generateId()] returned and
    [now] what [new Date()] would give if [entry] has no timestamp. *)
Definition record (id : jsstring) (now : Z) (entry : EntryInput) (s : t)
  : StateEntry * t :=
  let newEntry :=
    {| id := id;
       intent := i_intent entry;
       result := i_result entry;
       timestamp := match i_timestamp entry with Some d => d | None => now end;
       duration := i_duration entry;
       metadata := i_metadata entry |} in
  let h1 :=
    if currentIndex s <? len (history s) - 1
    then slice 0 (Some (currentIndex s + 1)) (history s)
    else history s in
  let h2 := h1 ++ [newEntry] in
  let i2 := len h2 - 1 in
  if len h2 >? maxHistorySize s then
    let h3 := slice (- maxHistorySize s) None h2 in
    (newEntry,
     {| history := h3; currentIndex := len h3 - 1;
        maxHistorySize := maxHistorySize s |})
  else
    (newEntry,
     {| history := h2; currentIndex := i2;
        maxHistorySize := maxHistorySize s |}).

Definition undo (s : t) : option StateEntry * t :=
  if currentIndex s <? 0 then (None, s)
  else
    let s' := {| history := history s; currentIndex := currentIndex s - 1;
                 maxHistorySize := maxHistorySize s |} in
    (getCurrent s', s').

Definition redo (s : t) : option StateEntry * t :=
  if currentIndex s >=? len (history s) - 1 then (None, s)
  else
    let s' := {| history := history s; currentIndex := currentIndex s + 1;
                 maxHistorySize := maxHistorySize s |} in
    (getCurrent s', s').

Definition getSnapshot (s : t) : StateSnapshot :=
  {| entries := history s; s_currentIndex := currentIndex s |}.

Definition restoreSnapshot (snapshot : StateSnapshot) (s : t) : t :=
  {| history := entries snapshot; currentIndex := s_currentIndex snapshot;
     maxHistorySize := maxHistorySize s |}.

Definition clear (s : t) : t :=
  {| history := []; currentIndex := -1; maxHistorySize := maxHistorySize s |}.

Definition searchByIntentType (ty : jsstring) (s : t) : list StateEntry :=
  filter (fun entry => eqb (type_name (type (intent entry))) ty) (history s).

Definition recent (n : Z) (s : t) : list StateEntry :=
  slice (- n) None (history s).

(** ** Runs of [record] and [undo] *)

(** The [k] calls of a run of [record]: the id each call draws, the
    date it would stamp, and its argument. *)
Definition recording := (jsstring * Z * EntryInput)%type.

Definition record_all (rs : list recording) (s : t) : t :=
  fold_left (fun s r => snd (record (fst (fst r)) (snd (fst r)) (snd r) s))
            rs s.

(** The entry a call of [record] builds. *)
Definition entry_of (r : recording) : StateEntry :=
  fst (record (fst (fst r)) (snd (fst r)) (snd r) new).

Fixpoint undo_n (m : nat) (s : t) : t :=
  match m with
  | O => s
  | S m' => undo_n m' (snd (undo s))
  end.

(** ** The operations that read or move the cursor without adding
    entries, and what they hand back *)

Inductive query :=
| Undo | Redo | GetCurrent | GetSnapshot
| SearchByIntentType (ty : jsstring) | Recent (n : Z).

Definition answer (q : query) (s : t) : list StateEntry * t :=
  match q with
  | Undo => let (r, s') := undo s in
            (match r with Some e => [e] | None => [] end, s')
  | Redo => let (r, s') := redo s in
            (match r with Some e => [e] | None => [] end, s')
  | GetCurrent => (match getCurrent s with Some e => [e] | None => [] end, s)
  | GetSnapshot => (entries (getSnapshot s), s)
  | SearchByIntentType ty => (searchByIntentType ty s, s)
  | Recent n => (recent n s, s)
  end.

(** Every entry handed back along a sequence of such operations. *)
Fixpoint answers (qs : list query) (s : t) : list StateEntry :=
  match qs with
  | [] => []
  | q :: r => let (es, s') := answer q s in es ++ answers r s'
  end.

End StateManager.

(* ================================================================== *)
(** * The regular expressions of Agent.ts                              *)
(* ================================================================== *)

Module RegExp.

(** The fragment of the pattern language the recognizer uses.
    Repetition is only ever applied to a character class. *)
Inductive node :=
| Start                       (* ^ *)
| Lit (s : jsstring)          (* a run of literal characters *)
| Class (p : N -> bool)       (* one character of a class *)
| Seq (a b : node)
| Alt (a b : node)            (* a|b *)
| Opt (a : node)              (* a?, greedy *)
| Star (p : N -> bool)        (* [class]*, greedy *)
| Plus (p : N -> bool)        (* [class]+, greedy *)
| Group (a : node).           (* (a), capture group 1 *)

Record t := {
  source : node;
  ignoreCase : bool
}.

(** Case folding under the [i] flag.  Without the [u] flag a character
    outside ASCII never folds onto an ASCII one, and the literal
    characters of the patterns below are ASCII or caseless, so folding
    ASCII letters is all the flag does to them. *)
Definition canonicalize (ic : bool) (c : N) : N :=
  if ic && (97 <=? c)%N && (c <=? 122)%N then (c - 32)%N else c.

Fixpoint strip (ic : bool) (l s : jsstring) : option jsstring :=
  match l, s with
  | [], _ => Some s
  | x :: l', c :: s' =>
    if (canonicalize ic x =? canonicalize ic c)%N then strip ic l' s' else None
  | _ :: _, [] => None
  end.

Section Matcher.

Variable R : Type.

(** A continuation receives the position reached, the input left and
    the text of group 1, if it has been captured. *)
Definition continuation := nat -> jsstring -> option jsstring -> option R.

(** Greedy repetition of a class: the longest run first, then shorter. *)
Fixpoint star (p : N -> bool) (pos : nat) (s : jsstring)
    (cap : option jsstring) (k : continuation) : option R :=
  match s with
  | c :: rest =>
    if p c then
      match star p (S pos) rest cap k with
      | Some r => Some r
      | None => k pos s cap
      end
    else k pos s cap
  | [] => k pos s cap
  end.

(** Backtracking match of [r] at position [pos], where [s] is the input
    from [pos] on. *)
Fixpoint run (ic : bool) (r : node) (pos : nat) (s : jsstring)
    (cap : option jsstring) (k : continuation) : option R :=
  match r with
  | Start => if (pos =? 0)%nat then k pos s cap else None
  | Lit l =>
    match strip ic l s with
    | Some rest => k (pos + length l)%nat rest cap
    | None => None
    end
  | Class p =>
    match s with
    | c :: rest => if p c then k (S pos) rest cap else None
    | [] => None
    end
  | Seq a b => run ic a pos s cap (fun pos' s' cap' => run ic b pos' s' cap' k)
  | Alt a b =>
    match run ic a pos s cap k with
    | Some x => Some x
    | None => run ic b pos s cap k
    end
  | Opt a =>
    match run ic a pos s cap k with
    | Some x => Some x
    | None => k pos s cap
    end
  | Star p => star p pos s cap k
  | Plus p =>
    match s with
    | c :: rest => if p c then star p (S pos) rest cap k else None
    | [] => None
    end
  | Group a =>
    run ic a pos s cap
        (fun pos' s' _ => k pos' s' (Some (firstn (pos' - pos) s)))
  end.

End Matcher.

(** The leftmost match: [Some cap] with the text of group 1 (if the
    pattern has one), or [None] when the pattern matches nowhere. *)
Fixpoint search (re : t) (pos : nat) (s : jsstring) : option (option jsstring) :=
  match run _ (ignoreCase re) (source re) pos s None
            (fun _ _ cap => Some cap) with
  | Some cap => Some cap
  | None =>
    match s with
    | [] => None
    | _ :: rest => search re (S pos) rest
    end
  end.

(** [RegExp.prototype.test] (no [g] or [y] flag: the search starts at 0). *)
Definition test (re : t) (s : jsstring) : bool :=
  match search re 0 s with Some _ => true | None => false end.

(** [String.prototype.match], reduced to group 1 of the result. *)
Definition match1 (s : jsstring) (re : t) : option jsstring :=
  match search re 0 s with Some cap => cap | None => None end.

Definition any_of (ws : list jsstring) : node :=
  match ws with
  | [] => Lit []
  | w :: r => fold_left (fun acc x => Alt acc (Lit x)) r (Lit w)
  end.

End RegExp.

(* ================================================================== *)
(** * Agent.ts: IntentRecognizerImpl                                   *)
(* ================================================================== *)

Module IntentRecognizer.
Import RegExp.

Definition re_i (n : node) : RegExp.t := {| source := n; ignoreCase := true |}.
Definition re (n : node) : RegExp.t := {| source := n; ignoreCase := false |}.

(** [private patterns: Record<IntentType, RegExp[]>], in declaration
    order, which is the order [Object.entries] walks. *)
Definition patterns : list (IntentType * list RegExp.t) :=

  [ (analyze,
     [ re_i (Seq Start (Lit (lit "/analyze")));
       re_i (any_of [lit "分析"; lit "检测"; lit "审查"]);
       re_i (any_of [lit "合规"; lit "政策"]);
       re_i (any_of [lit "看看"; lit "检查"]) ]);
    (review,
     [ re_i (Seq Start (Lit (lit "/review")));
       re_i (any_of [lit "评论"; lit "反馈"]);
       re_i (any_of [lit "待处理"; lit "待阅"]);
       re_i (any_of [lit "问题"; lit "意见"]) ]);
    (pricing,
     [ re_i (Seq Start (Lit (lit "/price")));
       re_i (any_of [lit "定价"; lit "价格"]);
       re_i (any_of [lit "成本"; lit "费用"]);
       re_i (Lit (lit "多少钱")) ]);
    (export,
     [ re_i (Seq Start (Lit (lit "/export")));
       re_i (any_of [lit "导出"; lit "下载"]);
       re_i (any_of [lit "生成"; lit "创建"]);
       re_i (any_of [lit "PDF"; lit "DOCX"; lit "PPTX"]) ]);
    (help,
     [ re_i (Seq Start (Lit (lit "/help")));
       re_i (any_of [lit "帮助"; lit "说明"]);
       re_i (any_of [lit "怎么用"; lit "如何"]) ]);
    (unknown, []) ].

Definition defaultIntent : IntentType := unknown.

(** ** extractParams *)

Definition colon (c : N) : bool := ((c =? 58) || (c =? 65306))%N.   (* [:：] *)
Definition quote (c : N) : bool := ((c =? 34) || (c =? 39))%N.      (* a double or a single quote *)
Definition digit (c : N) : bool := ((48 <=? c) && (c <=? 57))%N.    (* \d *)
Definition non (p : N -> bool) (c : N) : bool := negb (p c).

(** [/公司[:：]?\s*([^\s]+)/i] *)
Definition company_re : RegExp.t :=
  re_i (Seq (Lit (lit "公司"))
       (Seq (Opt (Class colon))
       (Seq (Star is_space) (Group (Plus (non is_space)))))).

(** The pattern for quoted content: a quote, group 1 of one or more
    characters that are not quotes, a quote. *)
Definition content_re : RegExp.t :=
  re (Seq (Class quote) (Seq (Group (Plus (non quote))) (Class quote))).

(** [/报告[:：]?\s*([^\s]+)/i] *)
Definition report_re : RegExp.t :=
  re_i (Seq (Lit (lit "报告"))
       (Seq (Opt (Class colon))
       (Seq (Star is_space) (Group (Plus (non is_space)))))).

(** [/(\d+)/] *)
Definition number_re : RegExp.t := re (Group (Plus digit)).

(** The integer a run of decimal digits denotes. *)
Definition decimal (digits : jsstring) : Z :=
  fold_left (fun acc c => acc * 10 + (Z.of_N c - 48)) digits 0.

(** [parseInt] of a run of decimal digits: the double nearest to the
    integer they denote (ties to even, as V8 converts decimal runs),
    which is that integer up to [2^53] and [Infinity] for a run that
    overflows. *)
Definition parseInt (digits : jsstring) : bound :=
  double_of_Z (decimal digits).

Definition number (b : bound) : jsvalue :=
  match b with Fin n => VNumber n | Infinity => VInfinity end.

Definition assign (key : string) (v : jsvalue) (params : Params) : Params :=
  params ++ [(lit key, v)].

Definition extractParams (message : jsstring) (ty : IntentType) : Params :=
  let params : Params := [] in
  match ty with
  | analyze =>
    let params :=
      match match1 message company_re with
      | Some g => assign "company" (VString g) params
      | None => params
      end in
    match match1 message content_re with
    | Some g => assign "content" (VString g) params
    | None => params
    end
  | review =>
    match match1 message report_re with
    | Some g => assign "reportId" (VString g) params
    | None => params
    end
  | pricing =>
    match match1 message number_re with
    | Some g => assign "amount" (number (parseInt g)) params
    | None => params
    end
  | export =>
    if test (re_i (Lit (lit "pdf"))) message
    then assign "format" (VString (lit "pdf")) params
    else if test (re_i (Lit (lit "docx"))) message
    then assign "format" (VString (lit "docx")) params
    else if test (re_i (Lit (lit "pptx"))) message
    then assign "format" (VString (lit "pptx")) params
    else params
  | _ => params
  end.

(** ** recognize *)

Definition matches_any (pats : list RegExp.t) (trimmed : jsstring) : bool :=
  existsb (fun pattern => test pattern trimmed) pats.

(** The two nested loops: the first type, in table order, one of whose
    patterns matches; the row of ['unknown'] is skipped. *)
Fixpoint first_match (table : list (IntentType * list RegExp.t))
    (trimmed : jsstring) : option IntentType :=
  match table with
  | [] => None
  | (ty, pats) :: rest =>
    match ty with
    | unknown => first_match rest trimmed
    | _ => if matches_any pats trimmed then Some ty
           else first_match rest trimmed
    end
  end.

(** A row none of whose patterns matches [trimmed]. *)
Definition silent (trimmed : jsstring) (row : IntentType * list RegExp.t) : Prop :=
  matches_any (snd row) trimmed = false.

Section Recognize.

(** [String.prototype.toLowerCase], for all of Unicode, is the
    runtime's. *)
Variable toLowerCase : jsstring -> jsstring.

(** [random] is the value [Math.random()] returns if it is called.
    The confidence [0.85 + Math.random() * 0.1] is computed on doubles:
    the two literals, the product and the sum are each rounded. *)
Definition recognize (random : Q) (message : jsstring) : Intent :=
  let trimmed := toLowerCase (trim message) in
  match first_match patterns trimmed with
  | Some ty =>
    {| type := ty;
       params := extractParams message ty;
       confidence := fadd (literal (85 # 100)) (fmul random (literal (1 # 10))) |}
  | None =>
    {| type := defaultIntent;
       params := [(lit "raw", VString message)];
       confidence := 1 # 2 |}
  end.

End Recognize.

End IntentRecognizer.

(* ================================================================== *)
(** * Agent.ts: PolicyAgent                                            *)
(* ================================================================== *)

Module Agent.

(** A thrown value (the reason of a rejected promise), as far as the
    [catch] of [handle] looks at it.  The [catch] evaluates
    [error instanceof Error ? error.message : String(error)]: for an
    [Error] that is its message, for another value what [String] makes
    of it, and for a value that cannot be described (an object without
    [toString], a [message] getter that throws) the evaluation throws
    in turn, the value [inner]. *)
Inductive thrown :=
| Error_ (message : jsstring)
| Value (text : jsstring)
| Opaque (inner : thrown).

Definition message_of (error : thrown) : jsstring + thrown :=
  match error with
  | Error_ message => inl message
  | Value text => inl text
  | Opaque inner => inr inner
  end.

(** What a call into a handler, a hook or the agent comes back with: a
    value, or a thrown one.  A call that never settles is not
    modelled. *)
Inductive outcome (A : Type) :=
| Returned (a : A)
| Threw (error : thrown).

Arguments Returned {A} a.
Arguments Threw {A} error.

(** A property of an options object: absent, or present with a value,
    which may be [undefined] ([maxCacheSize?: number] admits
    [{ maxCacheSize: undefined }]). *)
Inductive property (A : Type) :=
| Absent
| Present (v : option A).

Arguments Absent {A}.
Arguments Present {A} v.

(** [object.key] *)
Definition read {A} (p : property A) : option A :=
  match p with Present v => v | Absent => None end.

(** One key of [{ ...a, ...b }]: a key present in [b] wins, also when
    its value is [undefined]. *)
Definition over {A} (a b : property A) : property A :=
  match b with Present v => Present v | Absent => a end.

Record AgentOptions := {
  strictMode : property bool;
  maxCacheSize : property Z;
  enableHistory : property bool;
  defaultChannel : property ChannelType
}.

(** [{ ...a, ...b }] *)
Definition spread (a b : AgentOptions) : AgentOptions :=
  {| strictMode := over (strictMode a) (strictMode b);
     maxCacheSize := over (maxCacheSize a) (maxCacheSize b);
     enableHistory := over (enableHistory a) (enableHistory b);
     defaultChannel := over (defaultChannel a) (defaultChannel b) |}.

Definition no_options : AgentOptions :=
  {| strictMode := Absent; maxCacheSize := Absent;
     enableHistory := Absent; defaultChannel := Absent |}.

Definition default_options : AgentOptions :=
  {| strictMode := Present (Some false); maxCacheSize := Present (Some 100);
     enableHistory := Present (Some true);
     defaultChannel := Present (Some slack) |}.

(** The objects of one request that code outside the agent holds and
    can change: the result object the handler returned, the [params]
    object of the intent (the handler is handed it, and the default
    processors keep it as [artifact.data]) and the context.  The agent
    keeps references to the first two in the history entry, and reads
    [result.artifact] again after the post-hooks.  Each request is
    taken to have objects of its own: a handler returns a result object
    it has not handed out before, so what is done to the objects of one
    request leaves the entries and artifacts of earlier requests as
    they are. *)
Record Handled := {
  h_result : ProcessorResult;
  h_params : Params;
  h_ctx : AgentContext
}.

(** Processor.ts.  [execute now params ctx]: a handler is an arbitrary
    function of its arguments and of the clock, of which it is handed
    the reading at the time of the call.  When it returns, it hands
    back its result, and leaves the params and the context it was given
    in some state. *)
Record Processor := {
  p_type : jsstring;
  version : option jsstring;
  execute : Z -> Params -> AgentContext -> outcome Handled
}.

(** What [plugin.install(agent)] does: it is handed the agent, whose
    state it cannot read, and can call its configuration methods:
    [registerProcessor], [configure], and [use] for plugins of its own
    (whose installations are counted in); then it returns or throws. *)
Record Installation (P : Type) := {
  i_registered : list (IntentType * Processor);
  i_configured : list AgentOptions;
  i_plugins : list P;
  i_ending : option thrown
}.

Arguments i_registered {P} _.
Arguments i_configured {P} _.
Arguments i_plugins {P} _.
Arguments i_ending {P} _.

(** A pre-hook may throw, and may change the context it is given: it
    returns the context as it leaves it.  A post-hook is handed the
    context and the result object: it returns or throws, and either way
    leaves the objects of the request in some state.  Installers and
    hooks are taken not to start requests on the agent, and hooks not
    to reconfigure it. *)
#[warnings="-register-all"] Inductive Plugin := {
  install : Installation Plugin;
  onBeforeProcess : option (AgentContext -> outcome AgentContext);
  onAfterProcess : option (Handled -> outcome unit * Handled)
}.

(** The [Map<IntentType, Processor>] is only ever read with [get] and
    written with [set]: it is kept as a function.  [cache_sized] tells
    whether [this.cache.options.maxSize] is a number: the constructor
    passes [{ maxSize: this.options.maxCacheSize! }], and with
    [maxCacheSize: undefined] in the options that is
    [{ maxSize: undefined }], which the cache's own spread copies over
    its default. *)
Record PolicyAgent := {
  processors : IntentType -> option Processor;
  cache : SmartCache.t Artifact;
  cache_sized : bool;
  stateManager : StateManager.t;
  options : AgentOptions;
  plugins : list Plugin
}.

(** One handler invocation: the intent type and params it was called
    with, and how it came back. *)
Definition execution := (IntentType * Params * outcome Handled)%type.

(** The agent together with what its environment has been asked so far:
    how many times the clock and the random source were read, and which
    handler invocations took place. *)
Record World := {
  self : PolicyAgent;
  time_reads : nat;
  random_reads : nat;
  executions : list execution
}.

(** An [Artifact] is an object, never [undefined]. *)
Definition artifact_undefined (a : Artifact) : bool := false.

(** ** The default processors *)

Definition artifact_processor (ptype prefix atype : string) : Processor :=
  {| p_type := lit ptype;
     version := None;
     execute := fun now params ctx =>
       Returned
         {| h_result := {| artifact := Some {| a_id := lit prefix ++ of_Z now;
                                               a_type := lit atype;
                                               data := params |};
                           success := None;
                           error := None |};
            h_params := params;
            h_ctx := ctx |} |}.

Definition createComplianceProcessor : Processor :=
  artifact_processor "compliance" "compliance-" "compliance-report".
Definition createReviewProcessor : Processor :=
  artifact_processor "review" "review-" "review-comments".
Definition createPricingProcessor : Processor :=
  artifact_processor "pricing" "pricing-" "pricing-calculator".
Definition createExportProcessor : Processor :=
  artifact_processor "export" "export-" "file-export".

(** [Map.prototype.set] on the processor table. *)
Definition processors_set (ty : IntentType) (p : Processor)
    (m : IntentType -> option Processor) : IntentType -> option Processor :=
  fun ty' => if IntentType_eq_dec ty' ty then Some p else m ty'.

Definition initDefaultProcessors : IntentType -> option Processor :=
  processors_set export createExportProcessor
    (processors_set pricing createPricingProcessor
       (processors_set review createReviewProcessor
          (processors_set analyze createComplianceProcessor
             (fun _ => None)))).

(** [new PolicyAgent(options)].  For [maxCacheSize: undefined] the
    cache is built without a capacity: [cache_sized] is [false], and
    the [r_maxSize] of the record is not read. *)
Definition createAgent (o : AgentOptions) : PolicyAgent :=
  let opts := spread default_options o in
  {| processors := initDefaultProcessors;
     cache := SmartCache.new Artifact
                {| SmartCache.maxSize := read (maxCacheSize opts);
                   SmartCache.ttlMs := None;
                   SmartCache.prefix := None |};
     cache_sized := match read (maxCacheSize opts) with
                    | Some _ => true
                    | None => false
                    end;
     stateManager := StateManager.new;
     options := opts;
     plugins := [] |}.

Definition boot (o : AgentOptions) : World :=
  {| self := createAgent o; time_reads := 0; random_reads := 0;
     executions := [] |}.

(** ** Hooks, outside the monad *)

Fixpoint before (ps : list Plugin) (ctx : AgentContext) : outcome AgentContext :=
  match ps with
  | [] => Returned ctx
  | plugin :: rest =>
    match onBeforeProcess plugin with
    | None => before rest ctx
    | Some hook =>
      match hook ctx with
      | Returned ctx' => before rest ctx'
      | Threw e => Threw e
      end
    end
  end.

(** The post-hooks, each on the objects as the one before left them;
    a throw ends the loop, and what was changed until then stays
    changed. *)
Fixpoint after (ps : list Plugin) (h : Handled) : outcome unit * Handled :=
  match ps with
  | [] => (Returned tt, h)
  | plugin :: rest =>
    match onAfterProcess plugin with
    | None => after rest h
    | Some hook =>
      match hook h with
      | (Returned _, h') => after rest h'
      | (Threw e, h') => (Threw e, h')
      end
    end
  end.

(** ** The history entry and the objects it refers to

    [record] is handed the intent and the result object themselves, so
    the entry it stores shows what is done to them later in the call.
    [sync_last h] writes the state [h] of these objects into the entry
    recorded last, which is the last of the history. *)
Definition recorded_intent (intent : Intent) (h : Handled) : Intent :=
  {| type := type intent;
     params := h_params h;
     confidence := confidence intent |}.

Definition shared (h : Handled) (e : StateManager.StateEntry)
    : StateManager.StateEntry :=
  {| StateManager.id := StateManager.id e;
     StateManager.intent := recorded_intent (StateManager.intent e) h;
     StateManager.result := h_result h;
     StateManager.timestamp := StateManager.timestamp e;
     StateManager.duration := StateManager.duration e;
     StateManager.metadata := StateManager.metadata e |}.

Fixpoint map_last {A} (f : A -> A) (l : list A) : list A :=
  match l with
  | [] => []
  | [x] => [f x]
  | x :: r => x :: map_last f r
  end.

Definition sync_last (h : Handled) (s : StateManager.t) : StateManager.t :=
  {| StateManager.history := map_last (shared h) (StateManager.history s);
     StateManager.currentIndex := StateManager.currentIndex s;
     StateManager.maxHistorySize := StateManager.maxHistorySize s |}.

(** ** The agent's cache without a capacity

    With [options.maxSize] undefined the test
    [this.cache.size >= this.options.maxSize] of [set] is false
    whatever the size, and [set] stores without evicting. *)
Definition set_unsized (now1 now2 : Z) (key : jsstring) (a : Artifact)
    (c : SmartCache.t Artifact) : SmartCache.t Artifact :=
  SmartCache.with_cache Artifact c
    (SmartCache.map_set Artifact key
       (SmartCache.fresh Artifact
          (SmartCache.r_ttlMs (SmartCache.options Artifact c)) now1 now2 a)
       (SmartCache.cache Artifact c)).

Definition cache_store (sized : bool) (now1 now2 : Z) (key : jsstring)
    (a : Artifact) (c : SmartCache.t Artifact) : SmartCache.t Artifact :=
  if sized then SmartCache.set Artifact now1 now2 key a c
  else set_unsized now1 now2 key a c.

Section Dispatch.

(** The environment: the successive readings of [Date.now()] (and
    [new Date()]), the successive values of [Math.random()], and the
    library functions the core calls. *)
Variable clock : nat -> Z.
Variable random : nat -> Q.
Variable toLowerCase : jsstring -> jsstring.
Variable JSON_stringify : Params -> jsstring.
Variable base36 : Q -> jsstring.   (* r.toString(36).substr(2, 9) *)

(** ** The monad of [handle]: state and exceptions *)

Definition M (A : Type) : Type := World -> outcome A * World.

Definition ret {A} (a : A) : M A := fun w => (Returned a, w).

Definition bind {A B} (m : M A) (k : A -> M B) : M B :=
  fun w =>
    match m w with
    | (Returned a, w') => k a w'
    | (Threw e, w') => (Threw e, w')
    end.

Definition throw {A} (e : thrown) : M A := fun w => (Threw e, w).

(** [try { m } catch (error) { h error }] *)
Definition try_catch {A} (m : M A) (h : thrown -> M A) : M A :=
  fun w =>
    match m w with
    | (Returned a, w') => (Returned a, w')
    | (Threw e, w') => h e w'
    end.

Definition lift {A} (o : outcome A) : M A := fun w => (o, w).

Notation "x <- m ;; k" := (bind m (fun x => k))
  (at level 61, m at next level, right associativity).
Notation "m ;;; k" := (bind m (fun _ => k))
  (at level 61, right associativity).

Definition gets {A} (f : PolicyAgent -> A) : M A := fun w => (Returned (f (self w)), w).

Definition modify (f : PolicyAgent -> PolicyAgent) : M unit :=
  fun w =>
    (Returned tt,
     {| self := f (self w); time_reads := time_reads w;
        random_reads := random_reads w; executions := executions w |}).

(** [Date.now()] *)
Definition Date_now : M Z :=
  fun w =>
    (Returned (clock (time_reads w)),
     {| self := self w; time_reads := S (time_reads w);
        random_reads := random_reads w; executions := executions w |}).

(** [Math.random()] *)
Definition Math_random : M Q :=
  fun w =>
    (Returned (random (random_reads w)),
     {| self := self w; time_reads := time_reads w;
        random_reads := S (random_reads w); executions := executions w |}).

Definition log_execution (x : execution) : M unit :=
  fun w =>
    (Returned tt,
     {| self := self w; time_reads := time_reads w;
        random_reads := random_reads w;
        executions := executions w ++ [x] |}).

Definition with_cache (c : SmartCache.t Artifact) (a : PolicyAgent) : PolicyAgent :=
  {| processors := processors a; cache := c; cache_sized := cache_sized a;
     stateManager := stateManager a;
     options := options a; plugins := plugins a |}.

Definition with_stateManager (s : StateManager.t) (a : PolicyAgent) : PolicyAgent :=
  {| processors := processors a; cache := cache a;
     cache_sized := cache_sized a; stateManager := s;
     options := options a; plugins := plugins a |}.

(** ** The collaborators, in the monad.  A cache call draws the two
    clock readings it may consume, [recognize] the random number it may
    consume, and [record] the date it would stamp an entry with; the
    clock and the random source are arbitrary, so a reading drawn and
    not used costs no behaviour. *)

Definition cache_has (key : jsstring) : M bool :=
  now1 <- Date_now ;; now2 <- Date_now ;;
  c <- gets cache ;;
  let (r, c') := SmartCache.has Artifact artifact_undefined now1 now2 key c in
  modify (with_cache c') ;;; ret r.

Definition cache_get (key : jsstring) : M (option Artifact) :=
  now1 <- Date_now ;; now2 <- Date_now ;;
  c <- gets cache ;;
  let (r, c') := SmartCache.get Artifact now1 now2 key c in
  modify (with_cache c') ;;; ret r.

Definition cache_set (key : jsstring) (a : Artifact) : M unit :=
  now1 <- Date_now ;; now2 <- Date_now ;;
  c <- gets cache ;;
  sized <- gets cache_sized ;;
  modify (with_cache (cache_store sized now1 now2 key a c)).

Definition recognize (message : jsstring) : M Intent :=
  r <- Math_random ;;
  ret (IntentRecognizer.recognize toLowerCase r message).

(** [StateManager.generateId] *)
Definition generateId : M jsstring :=
  now <- Date_now ;; r <- Math_random ;;
  ret (of_Z now ++ lit "-" ++ base36 r).

Definition state_record (entry : StateManager.EntryInput) : M StateManager.StateEntry :=
  id <- generateId ;;
  now <- Date_now ;;
  s <- gets stateManager ;;
  let (e, s') := StateManager.record id now entry s in
  modify (with_stateManager s') ;;; ret e.

Definition call_execute (processor : Processor) (intent : Intent)
    (ctx : AgentContext) : M Handled :=
  now <- Date_now ;;
  let o := execute processor now (params intent) ctx in
  log_execution (type intent, params intent, o) ;;;
  lift o.

Definition run_before (ctx : AgentContext) : M AgentContext :=
  ps <- gets plugins ;; lift (before ps ctx).

(** The post-hooks; [recorded] tells whether this call has recorded an
    entry, which then follows what the hooks do to the objects. *)
Definition run_after (recorded : bool) (h : Handled) : M Handled :=
  ps <- gets plugins ;;
  let (o, h') := after ps h in
  (if recorded
   then modify (fun a => with_stateManager (sync_last h' (stateManager a)) a)
   else ret tt) ;;;
  match o with
  | Returned _ => ret h'
  | Threw e => throw e
  end.

(** ** handle *)

Definition generateCacheKey (intent : Intent) (ctx : AgentContext) : jsstring :=
  channel_name (channel ctx) ++ lit ":" ++ type_name (type intent)
    ++ lit ":" ++ JSON_stringify (params intent).

Definition is_true (o : option bool) : bool :=
  match o with Some true => true | _ => false end.

(** [this.options.enableHistory], as a condition. *)
Definition history_on (a : PolicyAgent) : bool :=
  is_true (read (enableHistory (options a))).

Definition not_found_message (ty : IntentType) : jsstring :=
  lit "未找到处理器: " ++ type_name ty.

(** Steps 5 to 8 and the final result. *)
Definition process (startTime : Z) (processor : Processor) (intent : Intent)
    (cacheKey : jsstring) (ctx : AgentContext) : M ProcessingResult :=
  h <- call_execute processor intent ctx ;;
  enabled <- gets history_on ;;
  (if enabled then
     stamp <- Date_now ;;
     now <- Date_now ;;
     state_record
       {| StateManager.i_intent := recorded_intent intent h;
          StateManager.i_result := h_result h;
          StateManager.i_timestamp := Some stamp;
          StateManager.i_duration := now - startTime;
          StateManager.i_metadata := None |} ;;;
     ret tt
   else ret tt) ;;;
  h' <- run_after enabled h ;;
  match artifact (h_result h') with
  | Some a => cache_set cacheKey a
  | None => ret tt
  end ;;;
  now <- Date_now ;;
  ret {| pr_success := true;
         pr_artifact := artifact (h_result h');
         fromCache := Some false;
         duration := now - startTime;
         pr_error := None |}.

Definition failure (elapsed : Z) (error : jsstring) : ProcessingResult :=
  {| pr_success := false;
     pr_artifact := None;
     fromCache := None;
     duration := elapsed;
     pr_error := Some error |}.

(** The body of the [try] block. *)
Definition dispatch (startTime : Z) (ctx : AgentContext) : M ProcessingResult :=
  ctx <- run_before ctx ;;
  intent <- recognize (message ctx) ;;
  let cacheKey := generateCacheKey intent ctx in
  hit <- cache_has cacheKey ;;
  if hit then
    cached <- cache_get cacheKey ;;
    now <- Date_now ;;
    ret {| pr_success := true;
           pr_artifact := cached;
           fromCache := Some true;
           duration := now - startTime;
           pr_error := None |}
  else
    processor <- gets (fun a => processors a (type intent)) ;;
    match processor with
    | None =>
      now <- Date_now ;;
      ret (failure (now - startTime) (not_found_message (type intent)))
    | Some processor => process startTime processor intent cacheKey ctx
    end.

(** The [catch] builds [{ success, error, duration }] in this order:
    the message first, then the clock; when the message cannot be
    evaluated, what that throws leaves [handle]. *)
Definition handle (ctx : AgentContext) : M ProcessingResult :=
  startTime <- Date_now ;;
  try_catch (dispatch startTime ctx)
    (fun error =>
       match message_of error with
       | inl message =>
         now <- Date_now ;;
         ret (failure (now - startTime) message)
       | inr inner => throw inner
       end).

(** ** The readings of one call of [handle]

    [handle] started in world [w] reads the clock at [time_reads w] for
    [startTime]; the names below fix which later reading each step
    consumes, for the statements about single calls. *)

Definition at_ (w : World) (i : nat) : Z := clock (i + time_reads w).

(** The intent and the cache key of a call whose pre-hooks leave [ctx1]. *)
Definition intent_of (w : World) (ctx1 : AgentContext) : Intent :=
  IntentRecognizer.recognize toLowerCase (random (random_reads w)) (message ctx1).

Definition key_of (w : World) (ctx1 : AgentContext) : jsstring :=
  generateCacheKey (intent_of w ctx1) ctx1.

(** Step 3: the test [this.cache.has(cacheKey)] and the cache it leaves. *)
Definition lookup (w : World) (ctx1 : AgentContext) : bool * SmartCache.t Artifact :=
  SmartCache.has Artifact artifact_undefined (at_ w 1) (at_ w 2)
    (key_of w ctx1) (cache (self w)).

(** Step 5: how the handler comes back. *)
Definition handler_outcome (w : World) (processor : Processor)
    (ctx1 : AgentContext) : outcome Handled :=
  execute processor (at_ w 3) (params (intent_of w ctx1)) ctx1.

(** Step 6: the entry handed to [record] when the objects of the
    request are in state [h], the history the call leaves when the
    handler left them in state [h] and the post-hooks in state [h'],
    and the number of clock reads made once the step is over. *)
Definition history_input (w : World) (ctx1 : AgentContext) (h : Handled)
    : StateManager.EntryInput :=
  {| StateManager.i_intent := recorded_intent (intent_of w ctx1) h;
     StateManager.i_result := h_result h;
     StateManager.i_timestamp := Some (at_ w 4);
     StateManager.i_duration := at_ w 5 - at_ w 0;
     StateManager.i_metadata := None |}.

Definition history_enabled (w : World) : bool := history_on (self w).

Definition history_step (w : World) (ctx1 : AgentContext) (h h' : Handled)
    : StateManager.t :=
  if history_enabled w then
    sync_last h'
      (snd (StateManager.record
              (of_Z (at_ w 6) ++ lit "-" ++ base36 (random (S (random_reads w))))
              (at_ w 7) (history_input w ctx1 h) (stateManager (self w))))
  else stateManager (self w).

Definition reads_after_history (w : World) : nat :=
  if history_enabled w then 8%nat else 4%nat.

Definition draws_after_history (w : World) : nat :=
  if history_enabled w then 2%nat else 1%nat.

(** Step 8: the cache after the artifact the result object then
    holds, if any, is stored. *)
Definition store (w : World) (ctx1 : AgentContext) (h' : Handled)
    : SmartCache.t Artifact * nat :=
  let m := reads_after_history w in
  match artifact (h_result h') with
  | Some a =>
    (cache_store (cache_sized (self w)) (at_ w m) (at_ w (S m))
       (key_of w ctx1) a (snd (lookup w ctx1)),
     S (S m))
  | None => (snd (lookup w ctx1), m)
  end.

(** The world [w] after [reads] more clock reads, [draws] more random
    draws and the handler invocations [xs], with agent [a]. *)
Definition world (a : PolicyAgent) (reads draws : nat) (xs : list execution)
    (w : World) : World :=
  {| self := a;
     time_reads := reads + time_reads w;
     random_reads := draws + random_reads w;
     executions := executions w ++ xs |}.

(** What the [catch] makes of a thrown value when the call has read the
    clock [n] times: a failure, after one more reading, or a throw. *)
Definition caught (w : World) (a : PolicyAgent) (n draws : nat)
    (xs : list execution) (error : thrown)
    : outcome ProcessingResult * World :=
  match message_of error with
  | inl message =>
    (Returned (failure (at_ w n - at_ w 0) message), world a (S n) draws xs w)
  | inr inner => (Threw inner, world a n draws xs w)
  end.

(** Two consecutive calls of [handle] read the clock at most seventeen
    times; [within_ttl w ttl] says that all these readings, counted from
    the start of the first call in world [w], lie within [ttl] of the
    first one. *)
Definition within_ttl (w : World) (ttl : Z) : Prop :=
  forall i, (i <= 16)%nat -> at_ w 0 <= at_ w i <= at_ w 0 + ttl.

(** Every key in the cache was made from a channel, a type that has a
    processor, and some serialised params. *)
Definition keyed_by_registered (a : PolicyAgent) : Prop :=
  forall k,
    In k (SmartCache.keys Artifact (SmartCache.cache Artifact (cache a))) ->
    exists ch ty js,
      k = channel_name ch ++ lit ":" ++ type_name ty ++ lit ":" ++ js
      /\ processors a ty <> None.

(** ** The rest of the public API *)

Definition registerProcessor (ty : IntentType) (processor : Processor) : M unit :=
  modify (fun a =>
    {| processors := processors_set ty processor (processors a);
       cache := cache a; cache_sized := cache_sized a;
       stateManager := stateManager a;
       options := options a; plugins := plugins a |}).

(** [plugin.install(this); this.plugins.push(plugin)]: when [install]
    throws, [use] throws and the plugin is not pushed; what [install]
    did before stays done. *)
Definition use (plugin : Plugin) : M unit :=
  let i := install plugin in
  modify (fun a =>
    {| processors :=
         fold_left (fun m tp => processors_set (fst tp) (snd tp) m)
                   (i_registered i) (processors a);
       cache := cache a;
       cache_sized := cache_sized a;
       stateManager := stateManager a;
       options := fold_left spread (i_configured i) (options a);
       plugins := plugins a ++ i_plugins i |}) ;;;
  match i_ending i with
  | Some e => throw e
  | None =>
    modify (fun a =>
      {| processors := processors a; cache := cache a;
         cache_sized := cache_sized a;
         stateManager := stateManager a; options := options a;
         plugins := plugins a ++ [plugin] |})
  end.

Definition configure (o : AgentOptions) : M unit :=
  modify (fun a =>
    {| processors := processors a; cache := cache a;
       cache_sized := cache_sized a;
       stateManager := stateManager a; options := spread (options a) o;
       plugins := plugins a |}).

(** The builders: [execute()] makes a context around a canonical
    message and hands it to [handle]. *)
Definition builder_execute (message : jsstring) : M ProcessingResult :=
  now <- Date_now ;;
  handle {| user := {| u_id := lit "default"; name := lit "User"; roles := [] |};
            message := message;
            channel := slack;
            timestamp := now;
            artifacts := [] |}.

Inductive ExportFormat := pdf | docx | pptx.

Definition format_name (f : ExportFormat) : jsstring :=
  match f with pdf => lit "pdf" | docx => lit "docx" | pptx => lit "pptx" end.

Definition AnalyzeBuilder_execute (content : jsstring) : M ProcessingResult :=
  builder_execute (lit "/analyze " ++ content).
Definition ReviewBuilder_execute (reportId : jsstring) : M ProcessingResult :=
  builder_execute (lit "/review " ++ reportId).
Definition PricingBuilder_execute : M ProcessingResult :=
  builder_execute (lit "/price").
Definition ExportBuilder_execute (format : ExportFormat) : M ProcessingResult :=
  builder_execute (lit "/export " ++ format_name format).

(** ** Sequences of calls on one agent, one after the other *)

Inductive api_call :=
| Handle (ctx : AgentContext)
| RegisterProcessor (ty : IntentType) (processor : Processor)
| Use (plugin : Plugin)
| Configure (o : AgentOptions)
| Analyze (content : jsstring)
| Review (reportId : jsstring)
| Price
| Export (format : ExportFormat).

Definition perform (w : World) (c : api_call) : World :=
  match c with
  | Handle ctx => snd (handle ctx w)
  | RegisterProcessor ty p => snd (registerProcessor ty p w)
  | Use plugin => snd (use plugin w)
  | Configure o => snd (configure o w)
  | Analyze content => snd (AnalyzeBuilder_execute content w)
  | Review reportId => snd (ReviewBuilder_execute reportId w)
  | Price => snd (PricingBuilder_execute w)
  | Export f => snd (ExportBuilder_execute f w)
  end.

Definition perform_all (cs : list api_call) (w : World) : World :=
  fold_left perform cs w.

End Dispatch.

End Agent.

(* ================================================================== *)
(** * Further notions used to state properties of the cache            *)
(* ================================================================== *)

Module CacheViews.
Section Views.

Variable V : Type.

(** The same entries with other deadlines: [f key deadline] is the new
    [expiresAt] of the entry stored under [key]. *)
Definition reschedule (f : jsstring -> Z -> Z) (m : SmartCache.entries V)
    : SmartCache.entries V :=
  map (fun ke =>
         (fst ke,
          {| SmartCache.value := SmartCache.value V (snd ke);
             SmartCache.expiresAt := f (fst ke) (SmartCache.expiresAt V (snd ke));
             SmartCache.accessCount := SmartCache.accessCount V (snd ke);
             SmartCache.lastAccessed := SmartCache.lastAccessed V (snd ke) |}))
      m.

(** A stored value [JSON.stringify] turns into a string. *)
Definition serialisable (JSON_stringify : V -> option jsstring)
    (ke : jsstring * SmartCache.CacheEntry V) : Prop :=
  JSON_stringify (SmartCache.value V (snd ke)) <> None.

End Views.
End CacheViews.

(* ================================================================== *)
(** * Sequences of calls on one StateManager                           *)
(* ================================================================== *)

Module HistoryRuns.

Inductive call :=
| Record_ (id : jsstring) (now : Z) (entry : StateManager.EntryInput)
| Undo
| Redo
| Clear
| RestoreSnapshot (snapshot : StateManager.StateSnapshot).

Definition step (s : StateManager.t) (c : call) : StateManager.t :=
  match c with
  | Record_ id now entry => snd (StateManager.record id now entry s)
  | Undo => snd (StateManager.undo s)
  | Redo => snd (StateManager.redo s)
  | Clear => StateManager.clear s
  | RestoreSnapshot snapshot => StateManager.restoreSnapshot snapshot s
  end.

Definition run (cs : list call) (s : StateManager.t) : StateManager.t :=
  fold_left step cs s.

Definition restores (c : call) : bool :=
  match c with RestoreSnapshot _ => true | _ => false end.

Definition moves_cursor_only (c : call) : bool :=
  match c with Undo | Redo => true | _ => false end.

(** The cursor is on an entry or just before the first one, and the
    history is within its cap. *)
Definition in_range (s : StateManager.t) : Prop :=
  -1 <= StateManager.currentIndex s <= StateManager.len (StateManager.history s) - 1
  /\ StateManager.len (StateManager.history s) <= 100
  /\ StateManager.maxHistorySize s = 100.

End HistoryRuns.

(* ================================================================== *)
(** * Processor.ts: ProcessorRegistry                                  *)
(* ================================================================== *)

Module ProcessorRegistry.

(** The private [Map<string, Processor>], in insertion order. *)
Definition t := list (jsstring * Agent.Processor).

Definition new : t := [].

Fixpoint map_get (key : jsstring) (m : t) : option Agent.Processor :=
  match m with
  | [] => None
  | (k, p) :: r => if eqb k key then Some p else map_get key r
  end.

Fixpoint map_set (key : jsstring) (p : Agent.Processor) (m : t) : t :=
  match m with
  | [] => [(key, p)]
  | (k, p0) :: r =>
    if eqb k key then (k, p) :: r else (k, p0) :: map_set key p r
  end.

(** [version || 'latest']: an absent version and the empty string both
    give ['latest']. *)
Definition or_latest (version : option jsstring) : jsstring :=
  match version with
  | Some v => if truthy v then v else lit "latest"
  | None => lit "latest"
  end.

(** The template [type@version]. *)
Definition key (type : jsstring) (version : option jsstring) : jsstring :=
  type ++ lit "@" ++ or_latest version.

Definition register (processor : Agent.Processor) (m : t) : t :=
  map_set (key (Agent.p_type processor) (Agent.version processor)) processor m.

Definition get (type : jsstring) (version : option jsstring) (m : t)
    : option Agent.Processor :=
  map_get (key type version) m.

Definition getAll (m : t) : list Agent.Processor := map snd m.

Definition has (type : jsstring) (version : option jsstring) (m : t) : bool :=
  match map_get (key type version) m with Some _ => true | None => false end.

(** A type name without the separator [@]. *)
Definition plain (type : jsstring) : Prop := existsb (N.eqb 64) type = false.

End ProcessorRegistry.

(* ================================================================== *)
(** * Concrete inputs                                                  *)
(* ================================================================== *)

Module Samples.

Definition k1 : jsstring := Eval vm_compute in lit "k1".
Definition k2 : jsstring := Eval vm_compute in lit "k2".
Definition k3 : jsstring := Eval vm_compute in lit "k3".
Definition k4 : jsstring := Eval vm_compute in lit "k4".

(** A cache of integers, none of which is [undefined]. *)
Definition never_undefined (v : Z) : bool := false.

Definition four_insertions : list (SmartCache.insertion Z) :=
  [(0, 0, k1, 1); (1, 1, k2, 2); (2, 2, k3, 3); (3, 3, k4, 4)].

Definition capacity (n : Z) : SmartCache.CacheOptions :=
  {| SmartCache.maxSize := Some n;
     SmartCache.ttlMs := Some 1000;
     SmartCache.prefix := None |}.

(** A stand-in for [JSON.stringify] on integers. *)
Definition show (v : Z) : option jsstring := Some (of_Z v).

Definition two_sets : list (SmartCache.call Z) :=
  [SmartCache.Set_ Z 0 0 k1 1; SmartCache.Set_ Z 1 1 k2 2].

Definition three_sets : list (SmartCache.call Z) :=
  [SmartCache.Set_ Z 0 0 k1 1; SmartCache.Set_ Z 1 1 k2 2;
   SmartCache.Set_ Z 2 2 k3 3].

Definition ok_result : StateResult :=
  {| artifact := None; success := Some true; error := None |}.

Definition entry_input (ty : IntentType) (d : Z) : StateManager.EntryInput :=
  {| StateManager.i_intent :=
       {| type := ty; params := []; confidence := 9 # 10 |};
     StateManager.i_result := ok_result;
     StateManager.i_timestamp := None;
     StateManager.i_duration := d;
     StateManager.i_metadata := None |}.

Definition rec1 : StateManager.recording := (lit "id-1", 1, entry_input analyze 100).
Definition rec2 : StateManager.recording := (lit "id-2", 2, entry_input review 100).
Definition rec3 : StateManager.recording := (lit "id-3", 3, entry_input pricing 100).

Definition three_records : list HistoryRuns.call :=
  [HistoryRuns.Record_ (lit "id-1") 1 (entry_input analyze 100);
   HistoryRuns.Record_ (lit "id-2") 2 (entry_input review 100);
   HistoryRuns.Undo;
   HistoryRuns.Record_ (lit "id-3") 3 (entry_input pricing 100)].

Definition review_message : jsstring := lit "  /Review report-123 ".

(** ** An environment for concrete runs of the dispatcher *)

Definition clock (n : nat) : Z := 1000 + Z.of_nat n.

Definition random (n : nat) : Q := 1 # 2.

Definition base36 (r : Q) : jsstring := lit "k3j9x2m1q".

(** A stand-in for [JSON.stringify] on params. *)
Definition render (p : Params) : jsstring :=
  flat_map (fun kv =>
              fst kv ++ lit "="
                ++ match snd kv with
                   | VString s => s
                   | VNumber n => of_Z n
                   | VInfinity => lit "null"
                   end ++ lit ";") p.

Definition context (msg : string) : AgentContext :=
  {| user := {| u_id := lit "test"; name := lit "Test"; roles := [] |};
     message := lit msg;
     channel := slack;
     timestamp := 0;
     artifacts := [] |}.

Definition handle (ctx : AgentContext) :=
  Agent.handle clock random ascii_toLowerCase render base36 ctx.

Definition default_agent : Agent.World := Agent.boot Agent.no_options.

(** What the compliance processor returns when called at reading 1003
    with no params. *)
Definition report : Artifact :=
  {| a_id := lit "compliance-1003";
     a_type := lit "compliance-report";
     data := [] |}.

Definition report_result : ProcessorResult :=
  {| artifact := Some report; success := None; error := None |}.

(** The objects of the first ['/analyze x'] request when the compliance
    processor returns. *)
Definition report_handled : Agent.Handled :=
  {| Agent.h_result := report_result;
     Agent.h_params := [];
     Agent.h_ctx := context "/analyze x" |}.

(** The cache entry the first ['/analyze x'] call on a default agent
    leaves. *)
Definition cached_report : SmartCache.CacheEntry Artifact :=
  {| SmartCache.value := report;
     SmartCache.expiresAt := 301008;
     SmartCache.accessCount := 0;
     SmartCache.lastAccessed := 1009 |}.

(** What the first ['/analyze x'] call on a default agent returns: the
    call reads the clock eleven times, from 1000 to 1010. *)
Definition fresh_report : ProcessingResult :=
  {| pr_success := true;
     pr_artifact := Some report;
     fromCache := Some false;
     duration := 10;
     pr_error := None |}.

(** [{ maxCacheSize: undefined }] *)
Definition unsized_options : Agent.AgentOptions :=
  {| Agent.strictMode := Agent.Absent;
     Agent.maxCacheSize := Agent.Present None;
     Agent.enableHistory := Agent.Absent;
     Agent.defaultChannel := Agent.Absent |}.

(** An [install] that does nothing. *)
Definition quiet_install : Agent.Installation Agent.Plugin :=
  {| Agent.i_registered := []; Agent.i_configured := [];
     Agent.i_plugins := []; Agent.i_ending := None |}.

(** A plugin whose post-hook throws [new Error('boom')]. *)
Definition failing_plugin : Agent.Plugin :=
  {| Agent.install := quiet_install;
     Agent.onBeforeProcess := None;
     Agent.onAfterProcess :=
       Some (fun h => (Agent.Threw (Agent.Error_ (lit "boom")), h)) |}.

(** A plugin whose post-hook deletes [result.artifact]. *)
Definition erasing_plugin : Agent.Plugin :=
  {| Agent.install := quiet_install;
     Agent.onBeforeProcess := None;
     Agent.onAfterProcess :=
       Some (fun h =>
               (Agent.Returned tt,
                {| Agent.h_result :=
                     {| artifact := None;
                        success := success (Agent.h_result h);
                        error := error (Agent.h_result h) |};
                   Agent.h_params := Agent.h_params h;
                   Agent.h_ctx := Agent.h_ctx h |})) |}.

(** A processor that throws [Object.create(null)], a value [String]
    cannot convert: the conversion throws a [TypeError]. *)
Definition opaque_processor : Agent.Processor :=
  {| Agent.p_type := lit "compliance";
     Agent.version := None;
     Agent.execute := fun _ _ _ =>
       Agent.Threw
         (Agent.Opaque
            (Agent.Error_ (lit "Cannot convert object to primitive value"))) |}.

Definition guarded_agent : Agent.World :=
  snd (Agent.use failing_plugin default_agent).

End Samples.

(* ================================================================== *)
(** * Rounding to doubles                                             *)
(* ================================================================== *)

Module DoubleFacts.
Local Open Scope Z_scope.

(** ** Rounding to the nearest integer *)

Lemma rhe_mono N D N' D' :
  0 < D -> 0 < D' -> N * D' <= N' * D ->
  round_half_even N D <= round_half_even N' D'.
Proof.
  intros HD HD' H. unfold round_half_even. cbv zeta.
  pose proof (Z.div_mod N D ltac:(lia)) as E.
  pose proof (Z.mod_pos_bound N D HD) as B.
  pose proof (Z.div_mod N' D' ltac:(lia)) as E'.
  pose proof (Z.mod_pos_bound N' D' HD') as B'.
  set (q := N / D) in *. set (r := N mod D) in *.
  set (q' := N' / D') in *. set (r' := N' mod D') in *.
  assert (Hq : q <= q').
  { destruct (Z.le_gt_cases q q') as [Hle | Hgt]; [exact Hle | exfalso].
    assert (H1 : D * D' * (q' + 1) <= D * D' * q)
      by (apply Z.mul_le_mono_nonneg_l; nia).
    assert (H2 : N * D' = D * D' * q + r * D') by (rewrite E; ring).
    assert (H3 : N' * D = D * D' * q' + r' * D) by (rewrite E'; ring).
    nia. }
  destruct (Z.eq_dec q q') as [Heq | Hne].
  - assert (Hr : r * D' <= r' * D).
    { assert (H2 : N * D' = D * D' * q + r * D') by (rewrite E; ring).
      assert (H3 : N' * D = D * D' * q' + r' * D) by (rewrite E'; ring).
      rewrite <- Heq in H3. lia. }
    rewrite <- Heq.
    destruct (Z.ltb_spec (2 * r) D); destruct (Z.ltb_spec (2 * r') D');
      destruct (Z.ltb_spec D (2 * r)); destruct (Z.ltb_spec D' (2 * r'));
      destruct (Z.even q); try lia; nia.
  - destruct (2 * r <? D); destruct (2 * r' <? D'); destruct (D <? 2 * r);
      destruct (D' <? 2 * r'); destruct (Z.even q); destruct (Z.even q'); lia.
Qed.

Lemma rhe_exact k : round_half_even k 1 = k.
Proof.
  unfold round_half_even. rewrite Z.div_1_r, Z.mod_1_r. reflexivity.
Qed.


(** ** Binades *)

Local Open Scope Q_scope.

(** Powers of two and embedded integers as atoms of the arithmetic. *)
Ltac atoms :=
  repeat match goal with
  | |- context [Qpower ?q ?z] =>
    let P := fresh "P" in set (P := Qpower q z) in *; clearbody P
  | H : context [Qpower ?q ?z] |- _ =>
    let P := fresh "P" in set (P := Qpower q z) in *; clearbody P
  | |- context [inject_Z ?z] =>
    let P := fresh "Z" in set (P := inject_Z z) in *; clearbody P
  | H : context [inject_Z ?z] |- _ =>
    let P := fresh "Z" in set (P := inject_Z z) in *; clearbody P
  end.

Lemma pow2_pos z : 0 < 2 ^ z.
Proof. apply Qpower_0_lt. reflexivity. Qed.

Lemma pow2_plus n m : 2 ^ (n + m) == 2 ^ n * 2 ^ m.
Proof. apply Qpower_plus. discriminate. Qed.

Lemma pow2_inject n : (0 <= n)%Z -> inject_Z (2 ^ n) == 2 ^ n.
Proof. intros H. apply (Zpower_Qpower 2 n H). Qed.

Lemma pow2_le n m : (n <= m)%Z -> 2 ^ n <= 2 ^ m.
Proof. intros H. apply Qpower_le_compat_l; [exact H | discriminate]. Qed.

Lemma pow2_succ n : 2 ^ (1 + n) == 2 * 2 ^ n.
Proof. rewrite pow2_plus. reflexivity. Qed.

Lemma log2_bounds a :
  (0 < a)%Z -> 2 ^ Z.log2 a <= inject_Z a /\ inject_Z a < 2 * 2 ^ Z.log2 a.
Proof.
  intros Ha. destruct (Z.log2_spec a Ha) as [H1 H2].
  pose proof (Z.log2_nonneg a) as H0.
  rewrite <- pow2_succ, <- !pow2_inject by lia.
  rewrite <- Zle_Qle, <- Zlt_Qlt. split; [exact H1 |].
  replace (1 + Z.log2 a)%Z with (Z.succ (Z.log2 a)) by lia. exact H2.
Qed.

Lemma binade_spec a b :
  (0 < a)%Z -> (0 < b)%Z ->
  (-1074 <= binade a b)%Z
  /\ inject_Z a < 2 ^ (53 + binade a b) * inject_Z b
  /\ ((-1074 < binade a b)%Z ->
      2 ^ (52 + binade a b) * inject_Z b <= inject_Z a).
Proof.
  intros Ha Hb. unfold binade. cbv zeta.
  set (la := Z.log2 a). set (lb := Z.log2 b). set (e0 := (la - lb - 52)%Z).
  destruct (log2_bounds a Ha) as [HA1 HA2]. fold la in HA1, HA2.
  destruct (log2_bounds b Hb) as [HB1 HB2]. fold lb in HB1, HB2.
  pose proof (pow2_pos la) as HL. pose proof (pow2_pos lb) as HM.
  pose proof (pow2_pos (la - lb)) as HT.
  assert (HTM : 2 ^ (la - lb) * 2 ^ lb == 2 ^ la).
  { rewrite <- pow2_plus. replace (la - lb + lb)%Z with la by lia. reflexivity. }
  set (below := if (0 <=? e0)%Z then (a <? 2 ^ 52 * (b * 2 ^ e0))%Z
                else (a * 2 ^ (- e0) <? 2 ^ 52 * b)%Z).
  assert (Hbelow : if below then inject_Z a < 2 ^ (la - lb) * inject_Z b
                   else 2 ^ (la - lb) * inject_Z b <= inject_Z a).
  { unfold below. destruct (Z.leb_spec 0 e0) as [He | He].
    - assert (HT2 : 2 ^ (la - lb) == 2 ^ 52 * 2 ^ e0).
      { rewrite <- pow2_plus. replace (52 + e0)%Z with (la - lb)%Z by lia.
        reflexivity. }
      pose proof (pow2_inject e0 He) as HE.
      destruct (Z.ltb_spec a (2 ^ 52 * (b * 2 ^ e0))) as [Hlt | Hge].
      + rewrite Zlt_Qlt, !inject_Z_mult, HE in Hlt. rewrite HT2.
        change (inject_Z (2 ^ 52)) with (2 ^ 52) in Hlt.
        atoms; nra.
      + rewrite Zle_Qle, !inject_Z_mult, HE in Hge. rewrite HT2.
        change (inject_Z (2 ^ 52)) with (2 ^ 52) in Hge.
        atoms; nra.
    - assert (HT2 : 2 ^ (la - lb) * 2 ^ (- e0) == 2 ^ 52).
      { rewrite <- pow2_plus. replace (la - lb + - e0)%Z with 52%Z by lia.
        reflexivity. }
      pose proof (pow2_inject (- e0) ltac:(lia)) as HE.
      pose proof (pow2_pos (- e0)) as HP.
      destruct (Z.ltb_spec (a * 2 ^ (- e0)) (2 ^ 52 * b)) as [Hlt | Hge].
      + rewrite Zlt_Qlt, !inject_Z_mult, HE in Hlt.
        change (inject_Z (2 ^ 52)) with (2 ^ 52) in Hlt.
        atoms; nra.
      + rewrite Zle_Qle, !inject_Z_mult, HE in Hge.
        change (inject_Z (2 ^ 52)) with (2 ^ 52) in Hge.
        atoms; nra. }
  assert (Hcore : exists e',
             (if below then (e0 - 1)%Z else e0) = e'
             /\ inject_Z a < 2 ^ (53 + e') * inject_Z b
             /\ 2 ^ (52 + e') * inject_Z b <= inject_Z a).
  { assert (Hb0 : 0 < inject_Z b) by (rewrite (Zlt_Qlt 0 b) in Hb; exact Hb).
    destruct below; eexists; (split; [reflexivity |]).
    - replace (53 + (e0 - 1))%Z with (la - lb)%Z by lia.
      split; [exact Hbelow |].
      assert (H2 : 2 * 2 ^ (52 + (e0 - 1)) == 2 ^ (la - lb)).
      { rewrite <- pow2_succ. replace (1 + (52 + (e0 - 1)))%Z with (la - lb)%Z by lia.
        reflexivity. }
      pose proof (pow2_pos (52 + (e0 - 1))) as HP. atoms; nra.
    - replace (52 + e0)%Z with (la - lb)%Z by lia.
      split; [| exact Hbelow].
      assert (H2 : 2 ^ (53 + e0) == 2 * 2 ^ (la - lb)).
      { rewrite <- pow2_succ. replace (1 + (la - lb))%Z with (53 + e0)%Z by lia.
        reflexivity. }
      atoms; nra. }
  destruct Hcore as (e' & -> & Hup & Hlow).
  split; [lia |].
  assert (Hb0 : 0 < inject_Z b) by (rewrite (Zlt_Qlt 0 b) in Hb; exact Hb).
  destruct (Z.max_spec e' (-1074)) as [[Hlt ->] | [Hge ->]].
  - split; [| lia].
    pose proof (pow2_le (53 + e') (53 + -1074) ltac:(lia)) as Hle. atoms; nra.
  - split; [exact Hup | intros _; exact Hlow].
Qed.


(** [round_positive a b] is the integer nearest to [(a / b) / 2^e],
    times [2^e], for the binade [e] of [a / b]. *)
Lemma round_positive_spec a b :
  (0 < a)%Z -> (0 < b)%Z ->
  exists N D,
    (0 < D)%Z
    /\ round_positive a b == inject_Z (round_half_even N D) * 2 ^ binade a b
    /\ inject_Z N * (inject_Z b * 2 ^ binade a b) == inject_Z a * inject_Z D.
Proof.
  intros Ha Hb. unfold round_positive. cbv zeta.
  set (e := binade a b).
  destruct (Z.leb_spec 0 e) as [He | He].
  - exists a, (b * 2 ^ e)%Z.
    pose proof (pow2_inject e He) as HE.
    split; [apply Z.mul_pos_pos; [exact Hb | apply Z.pow_pos_nonneg; lia] |].
    split; rewrite !inject_Z_mult, HE; reflexivity.
  - exists (a * 2 ^ (- e))%Z, b.
    pose proof (pow2_inject (- e) ltac:(lia)) as HE.
    assert (Hpos : (0 < 2 ^ (- e))%Z) by (apply Z.pow_pos_nonneg; lia).
    assert (Hinv : 2 ^ (- e) * 2 ^ e == 1).
    { rewrite <- pow2_plus. replace (- e + e)%Z with 0%Z by lia. reflexivity. }
    split; [exact Hb |]. split.
    + rewrite Qmake_Qdiv. rewrite Z2Pos.id by exact Hpos. rewrite HE.
      unfold Qdiv. rewrite <- (Qpower_opp 2 (- e)), Z.opp_involutive.
      reflexivity.
    + rewrite inject_Z_mult, HE.
      transitivity (inject_Z a * inject_Z b * (2 ^ (- e) * 2 ^ e));
        [ring | rewrite Hinv; ring].
Qed.

Lemma rhe_le N D k :
  (0 < D)%Z -> (N <= k * D)%Z -> (round_half_even N D <= k)%Z.
Proof.
  intros HD H. rewrite <- (rhe_exact k).
  apply rhe_mono; [exact HD | lia | lia].
Qed.

Lemma rhe_ge N D k :
  (0 < D)%Z -> (k * D <= N)%Z -> (k <= round_half_even N D)%Z.
Proof.
  intros HD H. rewrite <- (rhe_exact k) at 1.
  apply rhe_mono; [lia | exact HD | lia].
Qed.

Lemma scaled_le N D A X K :
  0 < X -> 0 < D -> N * X == A * D -> A <= K * X -> N <= K * D.
Proof.
  intros HX HD HN HA.
  assert (H1 : N * X <= K * D * X) by nra.
  nra.
Qed.

Lemma scaled_ge N D A X K :
  0 < X -> 0 < D -> N * X == A * D -> K * X <= A -> K * D <= N.
Proof.
  intros HX HD HN HA.
  assert (H1 : K * D * X <= N * X) by nra.
  nra.
Qed.

Lemma scaled_swap p q x y :
  0 < x -> 0 < y -> p <= q -> p * x * y <= q * y * x.
Proof.
  intros Hx Hy H.
  assert (H1 : p * (x * y) <= q * (x * y))
    by (apply Qmult_le_compat_r; [exact H | nra]).
  nra.
Qed.

Lemma scaled_mono N D N' D' A B C E P :
  0 < B -> 0 < E -> 0 < P -> 0 < D -> 0 < D' ->
  N * (B * P) == A * D -> N' * (E * P) == C * D' ->
  A * E <= C * B ->
  N * D' <= N' * D.
Proof.
  intros HB HE HP HD HD' HN HN' H.
  assert (HY : 0 < B * E * P) by (apply Qmult_lt_0_compat; [nra | exact HP]).
  assert (H1 : N * D' * (B * E * P) == A * E * (D * D')).
  { transitivity (N * (B * P) * (E * D')); [ring | rewrite HN; ring]. }
  assert (H2 : N' * D * (B * E * P) == C * B * (D * D')).
  { transitivity (N' * (E * P) * (B * D)); [ring | rewrite HN'; ring]. }
  assert (H3 : A * E * (D * D') <= C * B * (D * D')).
  { apply Qmult_le_compat_r; [exact H | nra]. }
  assert (H4 : N * D' * (B * E * P) <= N' * D * (B * E * P)).
  { rewrite H1, H2. exact H3. }
  set (Y := B * E * P) in *. clearbody Y. nra.
Qed.

Lemma round_positive_mono a b c d :
  (0 < a)%Z -> (0 < b)%Z -> (0 < c)%Z -> (0 < d)%Z ->
  (a * d <= c * b)%Z ->
  round_positive a b <= round_positive c d.
Proof.
  intros Ha Hb Hc Hd H.
  destruct (binade_spec a b Ha Hb) as (Hmin1 & Hup1 & Hlow1).
  destruct (binade_spec c d Hc Hd) as (Hmin2 & Hup2 & Hlow2).
  destruct (round_positive_spec a b Ha Hb) as (N & D & HD & -> & HN).
  destruct (round_positive_spec c d Hc Hd) as (N' & D' & HD' & -> & HN').
  set (e1 := binade a b) in *. set (e2 := binade c d) in *.
  assert (HB : 0 < inject_Z b) by (rewrite (Zlt_Qlt 0 b) in Hb; exact Hb).
  assert (HDd : 0 < inject_Z d) by (rewrite (Zlt_Qlt 0 d) in Hd; exact Hd).
  assert (HqD : 0 < inject_Z D) by (rewrite (Zlt_Qlt 0 D) in HD; exact HD).
  assert (HqD' : 0 < inject_Z D') by (rewrite (Zlt_Qlt 0 D') in HD'; exact HD').
  assert (Hq : inject_Z a * inject_Z d <= inject_Z c * inject_Z b)
    by (rewrite <- !inject_Z_mult, <- Zle_Qle; exact H).
  pose proof (pow2_pos e1) as HP1. pose proof (pow2_pos e2) as HP2.
  assert (HX1 : 0 < inject_Z b * 2 ^ e1) by (apply Qmult_lt_0_compat; assumption).
  assert (HX2 : 0 < inject_Z d * 2 ^ e2) by (apply Qmult_lt_0_compat; assumption).
  assert (H53 : forall e, 2 ^ (53 + e) == inject_Z (2 ^ 53) * 2 ^ e)
    by (intros e; rewrite pow2_plus; reflexivity).
  assert (H52 : forall e, 2 ^ (52 + e) == inject_Z (2 ^ 52) * 2 ^ e)
    by (intros e; rewrite pow2_plus; reflexivity).
  destruct (Z.lt_trichotomy e1 e2) as [Hlt | [Heq | Hgt]].
  - (* [a / b] rounds to at most [2^(53 + e1)], and [c / d] to at least
       [2^(52 + e2)] *)
    assert (H1 : (round_half_even N D <= 2 ^ 53)%Z).
    { apply rhe_le; [exact HD |]. rewrite Zle_Qle, inject_Z_mult.
      apply (scaled_le _ _ (inject_Z a) (inject_Z b * 2 ^ e1));
        [exact HX1 | exact HqD | exact HN |].
      rewrite (H53 e1) in Hup1. clear - Hup1. atoms; nra. }
    assert (H2 : (2 ^ 52 <= round_half_even N' D')%Z).
    { apply rhe_ge; [exact HD' |]. rewrite Zle_Qle, inject_Z_mult.
      apply (scaled_ge _ _ (inject_Z c) (inject_Z d * 2 ^ e2));
        [exact HX2 | exact HqD' | exact HN' |].
      specialize (Hlow2 ltac:(lia)). rewrite (H52 e2) in Hlow2.
      clear - Hlow2. atoms; nra. }
    rewrite Zle_Qle in H1, H2.
    pose proof (pow2_le (53 + e1) (52 + e2) ltac:(lia)) as Hle.
    rewrite (H53 e1), (H52 e2) in Hle.
    apply Qle_trans with (inject_Z (2 ^ 53) * 2 ^ e1);
      [apply Qmult_le_compat_r; [exact H1 | apply Qlt_le_weak; exact HP1] |].
    apply Qle_trans with (inject_Z (2 ^ 52) * 2 ^ e2); [exact Hle |].
    apply Qmult_le_compat_r; [exact H2 | apply Qlt_le_weak; exact HP2].
  - rewrite <- Heq in *.
    assert (Hr : (round_half_even N D <= round_half_even N' D')%Z).
    { apply rhe_mono; [exact HD | exact HD' |].
      rewrite Zle_Qle, !inject_Z_mult.
      apply (scaled_mono _ _ _ _ (inject_Z a) (inject_Z b) (inject_Z c)
               (inject_Z d) (2 ^ e1)); assumption. }
    rewrite Zle_Qle in Hr.
    apply Qmult_le_compat_r; [exact Hr | apply Qlt_le_weak; exact HP1].
  - exfalso. specialize (Hlow1 ltac:(lia)).
    pose proof (pow2_le (53 + e2) (52 + e1) ltac:(lia)) as Hle.
    assert (H1 : inject_Z a * inject_Z d < 2 ^ (52 + e1) * inject_Z b * inject_Z d).
    { apply Qle_lt_trans with (inject_Z c * inject_Z b); [exact Hq |].
      apply Qlt_le_trans with (2 ^ (53 + e2) * inject_Z d * inject_Z b).
      - apply Qmult_lt_compat_r; [exact HB | exact Hup2].
      - apply scaled_swap; [exact HDd | exact HB | exact Hle]. }
    assert (H2 : 2 ^ (52 + e1) * inject_Z b * inject_Z d
                 <= inject_Z a * inject_Z d).
    { apply Qmult_le_compat_r; [exact Hlow1 | apply Qlt_le_weak; exact HDd]. }
    apply (Qlt_irrefl (inject_Z a * inject_Z d)).
    apply Qlt_le_trans with (2 ^ (52 + e1) * inject_Z b * inject_Z d);
      assumption.
Qed.

Lemma round_positive_nonneg a b :
  (0 < a)%Z -> (0 < b)%Z -> 0 <= round_positive a b.
Proof.
  intros Ha Hb.
  destruct (round_positive_spec a b Ha Hb) as (N & D & HD & -> & HN).
  pose proof (pow2_pos (binade a b)) as HP.
  assert (HA : 0 < inject_Z a) by (rewrite (Zlt_Qlt 0 a) in Ha; exact Ha).
  assert (HB : 0 < inject_Z b) by (rewrite (Zlt_Qlt 0 b) in Hb; exact Hb).
  assert (HqD : 0 < inject_Z D) by (rewrite (Zlt_Qlt 0 D) in HD; exact HD).
  assert (HX : 0 < inject_Z b * 2 ^ binade a b)
    by (apply Qmult_lt_0_compat; assumption).
  assert (H0 : (0 <= round_half_even N D)%Z).
  { apply rhe_ge; [exact HD |]. rewrite Zle_Qle, inject_Z_mult.
    apply (scaled_ge _ _ (inject_Z a) (inject_Z b * 2 ^ binade a b));
      [exact HX | exact HqD | exact HN |].
    change (inject_Z 0) with 0. rewrite Qmult_0_l.
    apply Qlt_le_weak. exact HA. }
  rewrite Zle_Qle in H0.
  apply Qmult_le_0_compat; [exact H0 | apply Qlt_le_weak; exact HP].
Qed.

(** ** Rounding is monotone *)

Lemma round_double_mono x y :
  0 <= x -> x <= y -> round_double x <= round_double y.
Proof.
  destruct x as [xn xd], y as [yn yd]. unfold round_double, Qle.
  cbn [Qnum Qden]. intros H0 H.
  destruct xn as [| a | a]; [| | lia].
  - destruct yn as [| c | c]; [apply Qle_refl | | lia].
    apply round_positive_nonneg; reflexivity.
  - destruct yn as [| c | c]; [lia | | lia].
    apply round_positive_mono; try reflexivity. exact H.
Qed.

End DoubleFacts.

(* ================================================================== *)
(** * Properties of the cache                                          *)
(* ================================================================== *)

Module CacheFacts.
Import SmartCache.

Section Facts.

Variable V : Type.
Variable is_undefined : V -> bool.
Variable JSON_stringify : V -> option jsstring.

Abbreviation entries := (entries V).
Abbreviation CacheEntry := (CacheEntry V).
Abbreviation cache_t := (SmartCache.t V).
Abbreviation call := (call V).
Abbreviation run := (run V is_undefined).
Abbreviation step := (step V is_undefined).

Implicit Types (m : entries) (c : cache_t) (k key : jsstring) (e : CacheEntry).

(** ** The association list as a [Map] *)

Lemma eqb_eq k : forall k', eqb k k' = true <-> k = k'.
Proof.
  induction k as [| x k IH]; intros [| y k']; cbn [eqb];
    try (split; [discriminate | congruence]); try tauto.
  rewrite andb_true_iff, N.eqb_eq, IH. split; [intros [-> ->] | intros [= -> ->]]; auto.
Qed.

Lemma eqb_refl k : eqb k k = true.
Proof. apply eqb_eq. reflexivity. Qed.

Lemma eqb_neq k k' : eqb k k' = false <-> k <> k'.
Proof.
  rewrite <- eqb_eq. destruct (eqb k k'); split; congruence.
Qed.

Lemma map_get_In key m e : map_get V key m = Some e -> In (key, e) m.
Proof.
  induction m as [| [k0 e0] r IH]; cbn [map_get]; [discriminate |].
  destruct (eqb k0 key) eqn:E.
  - apply eqb_eq in E. intros [= ->]. subst. left. reflexivity.
  - intros H. right. auto.
Qed.

Lemma map_get_None key m : map_get V key m = None <-> ~ In key (keys V m).
Proof.
  induction m as [| [k0 e0] r IH]; cbn [map_get keys map fst In].
  - tauto.
  - destruct (eqb k0 key) eqn:E.
    + apply eqb_eq in E. split; [discriminate | tauto].
    + apply eqb_neq in E. unfold keys in IH. tauto.
Qed.

Lemma In_map_get key e m :
  NoDup (keys V m) -> In (key, e) m -> map_get V key m = Some e.
Proof.
  induction m as [| [k0 e0] r IH]; cbn [map_get keys map fst In]; [tauto |].
  intros Hnd [H | H].
  - injection H as -> ->. rewrite eqb_refl. reflexivity.
  - inversion Hnd as [| ? ? Hnot Hnd']; subst.
    destruct (eqb k0 key) eqn:E.
    + apply eqb_eq in E. subst. exfalso. apply Hnot.
      change key with (fst (key, e)). apply in_map. exact H.
    + apply IH; assumption.
Qed.

Lemma map_get_set_same key e m : map_get V key (map_set V key e m) = Some e.
Proof.
  induction m as [| [k0 e0] r IH]; cbn [map_set map_get].
  - rewrite eqb_refl. reflexivity.
  - destruct (eqb k0 key) eqn:E; cbn [map_get]; rewrite E; auto.
Qed.

Lemma map_get_set_other key k e m :
  k <> key -> map_get V key (map_set V k e m) = map_get V key m.
Proof.
  intros Hne.
  induction m as [| [k0 e0] r IH]; cbn [map_set map_get].
  - rewrite (proj2 (eqb_neq k key) Hne). reflexivity.
  - destruct (eqb k0 k) eqn:E; cbn [map_get].
    + apply eqb_eq in E. subst k0.
      rewrite (proj2 (eqb_neq k key) Hne). reflexivity.
    + rewrite IH. reflexivity.
Qed.

Lemma map_get_delete_other key k m :
  k <> key -> map_get V key (map_delete V k m) = map_get V key m.
Proof.
  intros Hne.
  induction m as [| [k0 e0] r IH]; cbn [map_delete map_get]; [reflexivity |].
  destruct (eqb k0 k) eqn:E; cbn [map_get].
  - apply eqb_eq in E. subst k0.
    rewrite (proj2 (eqb_neq k key) Hne). reflexivity.
  - rewrite IH. reflexivity.
Qed.

Lemma keys_delete_incl k m x :
  In x (keys V (map_delete V k m)) -> In x (keys V m).
Proof.
  induction m as [| [k0 e0] r IH]; cbn [map_delete keys map fst In]; [tauto |].
  destruct (eqb k0 k); cbn [keys map fst In]; unfold keys in *; tauto.
Qed.

Lemma NoDup_delete k m : NoDup (keys V m) -> NoDup (keys V (map_delete V k m)).
Proof.
  induction m as [| [k0 e0] r IH]; cbn [map_delete keys map fst]; [auto |].
  intros Hnd. inversion Hnd as [| ? ? Hnot Hnd']; subst.
  destruct (eqb k0 k); [exact Hnd' |].
  cbn [keys map fst]. constructor; [| apply IH; exact Hnd'].
  intros Hin. apply Hnot. eapply keys_delete_incl. exact Hin.
Qed.

Lemma map_get_delete_same key m :
  NoDup (keys V m) -> map_get V key (map_delete V key m) = None.
Proof.
  induction m as [| [k0 e0] r IH]; cbn [map_delete keys map fst]; [reflexivity |].
  intros Hnd. inversion Hnd as [| ? ? Hnot Hnd']; subst.
  destruct (eqb k0 key) eqn:E.
  - apply eqb_eq in E. subst. apply map_get_None. exact Hnot.
  - cbn [map_get]. rewrite E. apply IH. exact Hnd'.
Qed.

Lemma length_delete_present key m :
  In key (keys V m) -> length m = S (length (map_delete V key m)).
Proof.
  induction m as [| [k0 e0] r IH]; cbn [map_delete keys map fst In length];
    [tauto |].
  destruct (eqb k0 key) eqn:E; [reflexivity |].
  apply eqb_neq in E. intros [H | H]; [congruence |].
  cbn [length]. f_equal. apply IH. exact H.
Qed.

Lemma length_delete_le key m : (length (map_delete V key m) <= length m)%nat.
Proof.
  induction m as [| [k0 e0] r IH]; cbn [map_delete length]; [lia |].
  destruct (eqb k0 key); cbn [length]; lia.
Qed.

Lemma keys_set_present key e m :
  In key (keys V m) -> keys V (map_set V key e m) = keys V m.
Proof.
  induction m as [| [k0 e0] r IH]; cbn [map_set keys map fst In]; [tauto |].
  destruct (eqb k0 key) eqn:E; [reflexivity |].
  apply eqb_neq in E. intros [H | H]; [congruence |].
  cbn [keys map fst]. f_equal. apply IH. exact H.
Qed.

Lemma keys_set_absent key e m :
  ~ In key (keys V m) -> keys V (map_set V key e m) = keys V m ++ [key].
Proof.
  induction m as [| [k0 e0] r IH]; cbn [map_set keys map fst In app];
    [reflexivity |].
  intros Hn. destruct (eqb k0 key) eqn:E.
  - apply eqb_eq in E. tauto.
  - cbn [keys map fst]. f_equal. apply IH. tauto.
Qed.

Lemma keys_set key e m x :
  In x (keys V (map_set V key e m)) <-> x = key \/ In x (keys V m).
Proof.
  destruct (in_dec jsstring_eq_dec key (keys V m)) as [H | H].
  - rewrite keys_set_present by exact H. split; [tauto |].
    intros [-> | Hx]; assumption.
  - rewrite keys_set_absent by exact H. rewrite in_app_iff. cbn [In].
    split; intros [Hx | Hx]; auto; destruct Hx as [<- | []]; auto.
Qed.

Lemma NoDup_set key e m : NoDup (keys V m) -> NoDup (keys V (map_set V key e m)).
Proof.
  intros Hnd. destruct (in_dec jsstring_eq_dec key (keys V m)) as [H | H].
  - rewrite keys_set_present by exact H. exact Hnd.
  - rewrite keys_set_absent by exact H.
    apply NoDup_app; [exact Hnd | repeat constructor; intros [] |].
    intros x Hx [<- | []]. contradiction.
Qed.

Lemma length_set key e m :
  length (map_set V key e m)
  = if in_dec jsstring_eq_dec key (keys V m) then length m else S (length m).
Proof.
  destruct (in_dec _ _ _) as [H | H].
  - rewrite <- (length_map fst), <- (length_map fst m).
    fold (keys V (map_set V key e m)) (keys V m).
    rewrite keys_set_present by exact H. reflexivity.
  - rewrite <- (length_map fst), <- (length_map fst m).
    fold (keys V (map_set V key e m)) (keys V m).
    rewrite keys_set_absent by exact H. rewrite length_app. cbn. lia.
Qed.


Lemma keys_delete_other key k m :
  k <> key -> In key (keys V m) -> In key (keys V (map_delete V k m)).
Proof.
  intros Hne Hin. destruct (map_get V key m) eqn:E.
  - rewrite <- (map_get_delete_other key k m Hne) in E.
    apply map_get_In in E. change key with (fst (key, c)).
    apply in_map. exact E.
  - apply map_get_None in E. contradiction.
Qed.

Lemma In_keys k e m : In (k, e) m -> In k (keys V m).
Proof. intros H. change k with (fst (k, e)). apply in_map. exact H. Qed.

(** ** The eviction scan *)

Lemma scan_step_scanned p acc ke :
  scanned V p acc -> scanned V (p ++ [ke]) (scan_step V acc ke).
Proof.
  destruct ke as [key entry]. intros [[-> ->] | (k & e & -> & Hin & Hmin)].
  - right. exists key, entry. cbn. split; [reflexivity |].
    split; [auto |]. intros k' e' [[= <- <-] | []]. unfold precedes. lia.
  - right. cbn [scan_step lt_bound eq_bound].
    destruct (accessCount V entry <? accessCount V e) eqn:Hlt.
    + apply Z.ltb_lt in Hlt. exists key, entry.
      split; [reflexivity |]. split; [apply in_or_app; right; left; reflexivity |].
      intros k' e' H. apply in_app_or in H. destruct H as [H | [[= <- <-] | []]].
      * specialize (Hmin _ _ H). unfold precedes in *. lia.
      * unfold precedes. lia.
    + apply Z.ltb_ge in Hlt.
      destruct (accessCount V entry =? accessCount V e) eqn:Heq.
      * apply Z.eqb_eq in Heq.
        destruct (lastAccessed V entry <? lastAccessed V e) eqn:Hold.
        -- apply Z.ltb_lt in Hold. exists key, entry. rewrite <- Heq.
           split; [reflexivity |].
           split; [apply in_or_app; right; left; reflexivity |].
           intros k' e' H. apply in_app_or in H.
           destruct H as [H | [[= <- <-] | []]].
           ++ specialize (Hmin _ _ H). unfold precedes in *. lia.
           ++ unfold precedes. lia.
        -- apply Z.ltb_ge in Hold. exists k, e.
           split; [reflexivity |]. split; [apply in_or_app; left; exact Hin |].
           intros k' e' H. apply in_app_or in H.
           destruct H as [H | [[= <- <-] | []]]; [eauto |].
           unfold precedes. lia.
      * apply Z.eqb_neq in Heq. exists k, e.
        split; [reflexivity |]. split; [apply in_or_app; left; exact Hin |].
        intros k' e' H. apply in_app_or in H.
        destruct H as [H | [[= <- <-] | []]]; [eauto |].
        unfold precedes. lia.
Qed.

Lemma fold_scanned m : forall p acc,
  scanned V p acc -> scanned V (p ++ m) (fold_left (scan_step V) m acc).
Proof.
  induction m as [| ke m IH]; intros p acc H; cbn [fold_left].
  - rewrite app_nil_r. exact H.
  - replace (p ++ ke :: m) with ((p ++ [ke]) ++ m)
      by (rewrite <- app_assoc; reflexivity).
    apply IH. apply scan_step_scanned. exact H.
Qed.

(** On a non-empty map the scan selects a stored key whose entry
    precedes every other. *)
Lemma lruKey_least m :
  m <> [] ->
  exists k e, lruKey V m = Some k /\ In (k, e) m
              /\ forall k' e', In (k', e') m -> precedes V e e'.
Proof.
  intros Hne.
  destruct (fold_scanned m [] scan_init) as [[H _] | (k & e & Hs & Hin & Hmin)].
  - left. split; reflexivity.
  - cbn [app] in H. contradiction.
  - exists k, e. unfold lruKey, scan. rewrite Hs. cbn [app] in *. auto.
Qed.

Lemma lruKey_empty : lruKey V [] = None.
Proof. reflexivity. Qed.

(** [evictLRU] removes the selected key, unless that key is falsy. *)
Lemma evictLRU_cases c :
  evictLRU V c = c
  \/ exists k e, lruKey V (cache V c) = Some k /\ truthy k = true
       /\ In (k, e) (cache V c)
       /\ (forall k' e', In (k', e') (cache V c) -> precedes V e e')
       /\ evictLRU V c = with_cache V c (map_delete V k (cache V c)).
Proof.
  unfold evictLRU. destruct (cache V c) as [| ke r] eqn:Em; [left; reflexivity |].
  destruct (lruKey_least (ke :: r)) as (k & e & Hk & Hin & Hmin); [discriminate |].
  rewrite Hk. destruct (truthy k) eqn:Ht; [| left; reflexivity].
  right. exists k, e. auto.
Qed.

Lemma evictLRU_removes_one c :
  cache V c <> [] -> (forall k, In k (keys V (cache V c)) -> k <> []) ->
  exists k e, In (k, e) (cache V c)
    /\ (forall k' e', In (k', e') (cache V c) -> precedes V e e')
    /\ evictLRU V c = with_cache V c (map_delete V k (cache V c))
    /\ length (cache V c) = S (length (map_delete V k (cache V c))).
Proof.
  intros Hne Hkeys.
  destruct (lruKey_least (cache V c) Hne) as (k & e & Hk & Hin & Hmin).
  exists k, e. split; [exact Hin |]. split; [exact Hmin |].
  assert (Hkk : In k (keys V (cache V c))) by (eapply In_keys; eauto).
  split.
  - unfold evictLRU. rewrite Hk.
    destruct k as [| x k]; [exfalso; apply (Hkeys [] Hkk); reflexivity |].
    reflexivity.
  - apply length_delete_present. exact Hkk.
Qed.


(** ** The three outcomes of [get] *)

Lemma get_cases now1 now2 key c :
  (map_get V key (cache V c) = None /\ get V now1 now2 key c = (None, c))
  \/ (exists e, map_get V key (cache V c) = Some e /\ now1 > expiresAt V e
        /\ get V now1 now2 key c
           = (None, with_cache V c (map_delete V key (cache V c))))
  \/ (exists e, map_get V key (cache V c) = Some e /\ now1 <= expiresAt V e
        /\ get V now1 now2 key c
           = (Some (value V e),
              with_cache V c (map_set V key (touched V now2 e) (cache V c)))).
Proof.
  unfold get. destruct (map_get V key (cache V c)) as [e |] eqn:E.
  - right. destruct (now1 >? expiresAt V e) eqn:Hx.
    + left. exists e. rewrite Z.gtb_ltb in Hx. apply Z.ltb_lt in Hx.
      split; [reflexivity |]. split; [lia | reflexivity].
    + right. exists e. rewrite Z.gtb_ltb in Hx. apply Z.ltb_ge in Hx.
      split; [reflexivity |]. split; [lia | reflexivity].
  - left. split; reflexivity.
Qed.

Lemma has_state now1 now2 key c :
  snd (has V is_undefined now1 now2 key c) = snd (get V now1 now2 key c).
Proof. unfold has. destruct (get V now1 now2 key c). reflexivity. Qed.

(** ** Fields no operation writes *)

Lemma step_constant c o :
  options V (step c o) = options V c
  /\ hitCount V (step c o) = hitCount V c
  /\ missCount V (step c o) = missCount V c.
Proof.
  destruct o as [n1 n2 k v | n1 n2 k | n1 n2 k | k | |]; cbn [step].
  - unfold set. destruct (_ >=? _); [| repeat split].
    unfold evictLRU. destruct (lruKey V (cache V c)) as [k0 |]; [| repeat split].
    destruct (truthy k0); repeat split.
  - destruct (get_cases n1 n2 k c) as [[_ ->] | [(e & _ & _ & ->) | (e & _ & _ & ->)]];
      repeat split.
  - rewrite has_state.
    destruct (get_cases n1 n2 k c) as [[_ ->] | [(e & _ & _ & ->) | (e & _ & _ & ->)]];
      repeat split.
  - repeat split.
  - repeat split.
  - repeat split.
Qed.

Lemma run_constant ops : forall c,
  options V (run ops c) = options V c
  /\ hitCount V (run ops c) = hitCount V c
  /\ missCount V (run ops c) = missCount V c.
Proof.
  induction ops as [| o ops IH]; intros c; [repeat split |].
  cbn [SmartCache.run fold_left].
  destruct (IH (step c o)) as (H1 & H2 & H3).
  destruct (step_constant c o) as (G1 & G2 & G3).
  unfold SmartCache.run in *. rewrite H1, H2, H3. auto.
Qed.


(** ** Capacity *)

Lemma well_keyed_delete k c :
  well_keyed V c -> well_keyed V (with_cache V c (map_delete V k (cache V c))).
Proof.
  intros [Hnd Hne]. split; cbn [cache with_cache].
  - apply NoDup_delete. exact Hnd.
  - intros x Hx. apply Hne. eapply keys_delete_incl. exact Hx.
Qed.

Lemma well_keyed_set key e c :
  key <> [] -> well_keyed V c ->
  well_keyed V (with_cache V c (map_set V key e (cache V c))).
Proof.
  intros Hk [Hnd Hne]. split; cbn [cache with_cache].
  - apply NoDup_set. exact Hnd.
  - intros x Hx. apply keys_set in Hx. destruct Hx as [-> | Hx]; auto.
Qed.

Lemma well_keyed_touch key e e' c :
  map_get V key (cache V c) = Some e -> well_keyed V c ->
  well_keyed V (with_cache V c (map_set V key e' (cache V c))).
Proof.
  intros Hg [Hnd Hne].
  assert (Hin : In key (keys V (cache V c)))
    by (eapply In_keys; apply map_get_In; exact Hg).
  split; cbn [cache with_cache]; rewrite keys_set_present by exact Hin; assumption.
Qed.

Lemma well_keyed_evict c : well_keyed V c -> well_keyed V (evictLRU V c).
Proof.
  intros H. destruct (evictLRU_cases c) as [-> | (k & e & _ & _ & _ & _ & ->)];
    [exact H | apply well_keyed_delete; exact H].
Qed.

Lemma size_evict c :
  well_keyed V c -> cache V c <> [] ->
  map_size V (cache V (evictLRU V c)) = map_size V (cache V c) - 1.
Proof.
  intros [_ Hne] Hc.
  destruct (evictLRU_removes_one c Hc Hne) as (k & e & _ & _ & -> & Hl).
  unfold map_size. cbn [cache with_cache]. lia.
Qed.

Lemma size_set_le key e m :
  map_size V (map_set V key e m) <= map_size V m + 1.
Proof.
  unfold map_size. rewrite length_set. destruct (in_dec _ _ _); lia.
Qed.

Lemma set_within now1 now2 key v c :
  key <> [] -> well_keyed V c -> within V c ->
  well_keyed V (set V now1 now2 key v c) /\ within V (set V now1 now2 key v c).
Proof.
  intros Hk Hw Hb. unfold set, within in *.
  destruct (map_size V (cache V c) >=? r_maxSize (options V c)) eqn:Hfull.
  - split; [apply well_keyed_set; [exact Hk | apply well_keyed_evict; exact Hw] |].
    cbn [cache with_cache options].
    assert (Ho : options V (evictLRU V c) = options V c).
    { unfold evictLRU. destruct (lruKey V (cache V c)) as [k0 |]; [| reflexivity].
      destruct (truthy k0); reflexivity. }
    rewrite Ho.
    pose proof (size_set_le key (fresh V (r_ttlMs (options V c)) now1 now2 v)
                  (cache V (evictLRU V c))) as Hs.
    unfold fresh in Hs.
    destruct (cache V c) as [| ke r] eqn:Ec.
    + unfold evictLRU in *. rewrite Ec in *. cbn [lruKey scan fold_left fst scan_init] in *.
      rewrite Ec in *. cbn [map_size length Z.of_nat] in *. lia.
    + assert (Hne : cache V c <> []) by (rewrite Ec; discriminate).
      pose proof (size_evict c Hw Hne) as He. rewrite Ec in He. lia.
  - split; [apply well_keyed_set; assumption |].
    cbn [cache with_cache options].
    pose proof (size_set_le key (fresh V (r_ttlMs (options V c)) now1 now2 v)
                  (cache V c)) as Hs.
    unfold fresh in Hs. rewrite Z.geb_leb in Hfull. apply Z.leb_gt in Hfull. lia.
Qed.

Lemma get_within now1 now2 key c :
  well_keyed V c -> within V c ->
  well_keyed V (snd (get V now1 now2 key c))
  /\ within V (snd (get V now1 now2 key c)).
Proof.
  intros Hw Hb. unfold within in *.
  destruct (get_cases now1 now2 key c)
    as [[_ ->] | [(e & He & _ & ->) | (e & He & _ & ->)]]; cbn [snd].
  - auto.
  - split; [apply well_keyed_delete; exact Hw |].
    cbn [cache with_cache options]. unfold map_size in *.
    pose proof (length_delete_le key (cache V c)). lia.
  - split; [eapply well_keyed_touch; eauto |].
    cbn [cache with_cache options]. unfold map_size in *.
    rewrite length_set. destruct (in_dec _ _ _) as [_ | Hn]; [exact Hb |].
    exfalso. apply Hn. eapply In_keys. apply map_get_In. exact He.
Qed.

Lemma step_within c o :
  set_key V o <> Some [] -> well_keyed V c -> within V c ->
  well_keyed V (step c o) /\ within V (step c o).
Proof.
  destruct o as [n1 n2 k v | n1 n2 k | n1 n2 k | k | |]; cbn [step set_key];
    intros Hk Hw Hb.
  - apply set_within; [intros -> ; apply Hk; reflexivity | assumption | assumption].
  - apply get_within; assumption.
  - rewrite has_state. apply get_within; assumption.
  - cbn [delete snd]. split; [apply well_keyed_delete; exact Hw |].
    unfold within, map_size in *. cbn [cache with_cache options].
    pose proof (length_delete_le k (cache V c)). lia.
  - unfold clear. split.
    + split; cbn [cache with_cache keys map]; [constructor | intros x []].
    + unfold within, map_size. cbn [cache with_cache options length]. lia.
  - auto.
Qed.

Lemma run_within ops : forall c,
  Forall (fun o => set_key V o <> Some []) ops -> well_keyed V c -> within V c ->
  well_keyed V (run ops c) /\ within V (run ops c).
Proof.
  induction ops as [| o ops IH]; intros c Hall Hw Hb; [auto |].
  inversion Hall as [| ? ? Ho Hall']; subst.
  cbn [SmartCache.run fold_left].
  destruct (step_within c o Ho Hw Hb) as [Hw' Hb'].
  apply (IH _ Hall' Hw' Hb').
Qed.

Lemma new_well_keyed o : well_keyed V (new V o) /\ within V (new V o).
Proof.
  split; [split; cbn; [constructor | intros x []] |].
  unfold within, map_size. cbn [new cache length Z.of_nat]. lia.
Qed.


Lemma evict_options c : options V (evictLRU V c) = options V c.
Proof.
  unfold evictLRU. destruct (lruKey V (cache V c)) as [k0 |]; [| reflexivity].
  destruct (truthy k0); reflexivity.
Qed.

Lemma evict_keys_incl c x :
  In x (keys V (cache V (evictLRU V c))) -> In x (keys V (cache V c)).
Proof.
  destruct (evictLRU_cases c) as [-> | (k & e & _ & _ & _ & _ & ->)]; [auto |].
  cbn [cache with_cache]. apply keys_delete_incl.
Qed.

(** What [set] does to a cache that holds [maxSize] entries or more. *)
Lemma set_when_full now1 now2 key v c :
  well_keyed V c -> cache V c <> [] ->
  r_maxSize (options V c) <= map_size V (cache V c) ->
  exists k e,
    In (k, e) (cache V c)
    /\ (forall k' e', In (k', e') (cache V c) -> precedes V e e')
    /\ cache V (set V now1 now2 key v c)
       = map_set V key (fresh V (r_ttlMs (options V c)) now1 now2 v)
           (map_delete V k (cache V c))
    /\ map_size V (map_delete V k (cache V c)) = map_size V (cache V c) - 1.
Proof.
  intros [Hnd Hne] Hc Hfull.
  destruct (evictLRU_removes_one c Hc Hne) as (k & e & Hin & Hmin & Hev & Hl).
  exists k, e. split; [exact Hin |]. split; [exact Hmin |].
  unfold set. rewrite (proj2 (Z.geb_le _ _)) by lia.
  rewrite Hev. cbn [cache with_cache]. split; [reflexivity |].
  unfold map_size. lia.
Qed.

(** Storing a key the cache does not hold. *)
Lemma set_absent_size now1 now2 key v c :
  well_keyed V c -> 1 <= r_maxSize (options V c) ->
  ~ In key (keys V (cache V c)) ->
  map_size V (cache V c) <= r_maxSize (options V c) ->
  map_size V (cache V (set V now1 now2 key v c))
  = Z.min (map_size V (cache V c) + 1) (r_maxSize (options V c)).
Proof.
  intros Hw Hmax Habs Hsz.
  destruct (map_size V (cache V c) >=? r_maxSize (options V c)) eqn:Hfull.
  - rewrite Z.geb_leb in Hfull. apply Z.leb_le in Hfull.
    assert (Hc : cache V c <> []).
    { intros E. rewrite E in Hfull. cbn in Hfull. lia. }
    destruct (set_when_full now1 now2 key v c Hw Hc Hfull)
      as (k & e & _ & _ & -> & Hl).
    unfold map_size in *. rewrite length_set.
    destruct (in_dec _ _ _) as [Hin | _]; [| lia].
    exfalso. apply Habs. eapply keys_delete_incl. exact Hin.
  - unfold set. rewrite Hfull. cbn [cache with_cache].
    rewrite Z.geb_leb in Hfull. apply Z.leb_gt in Hfull.
    unfold map_size in *. rewrite length_set.
    destruct (in_dec _ _ _) as [Hin | _]; [contradiction | lia].
Qed.

Lemma set_keys_incl now1 now2 key v c x :
  In x (keys V (cache V (set V now1 now2 key v c))) ->
  x = key \/ In x (keys V (cache V c)).
Proof.
  unfold set. cbn [cache with_cache]. intros H. apply keys_set in H.
  destruct H as [-> | H]; [auto | right].
  destruct (_ >=? _); [apply evict_keys_incl |]; exact H.
Qed.

Lemma set_options now1 now2 key v c :
  options V (set V now1 now2 key v c) = options V c.
Proof. exact (proj1 (step_constant c (Set_ V now1 now2 key v))). Qed.

Lemma insert_distinct (ins : list (insertion V)) : forall c,
  well_keyed V c -> 1 <= r_maxSize (options V c) ->
  map_size V (cache V c) <= r_maxSize (options V c) ->
  NoDup (map (inserted_key V) ins) ->
  (forall k, In k (map (inserted_key V) ins) ->
             k <> [] /\ ~ In k (keys V (cache V c))) ->
  map_size V (cache V (run (map (insert_call V) ins) c))
  = Z.min (map_size V (cache V c) + Z.of_nat (length ins))
          (r_maxSize (options V c)).
Proof.
  unfold SmartCache.run.
  induction ins as [| i ins IH]; intros c Hw Hmax Hsz Hnd Hfresh.
  - cbn [map fold_left length Z.of_nat]. lia.
  - destruct i as [[[n1 n2] key] v].
    cbn [map fold_left insert_call inserted_key fst snd SmartCache.step] in *.
    set (c' := set V n1 n2 key v c).
    inversion Hnd as [| ? ? Hnotin Hnd']; subst.
    destruct (Hfresh key (or_introl eq_refl)) as [Hk Habs].
    assert (Hw' : well_keyed V c').
    { apply set_within; [exact Hk | exact Hw |].
      unfold within. lia. }
    assert (Ho : options V c' = options V c) by apply set_options.
    assert (Hs' : map_size V (cache V c')
                  = Z.min (map_size V (cache V c) + 1) (r_maxSize (options V c)))
      by (apply set_absent_size; assumption).
    rewrite IH; try assumption.
    + rewrite Ho, Hs'. cbn [length]. lia.
    + rewrite Ho. exact Hmax.
    + rewrite Ho, Hs'. lia.
    + intros k Hin. destruct (Hfresh k (or_intror Hin)) as [Hk' Habs'].
      split; [exact Hk' |]. intros Hin'.
      apply set_keys_incl in Hin'. destruct Hin' as [-> | Hin']; [| contradiction].
      apply Hnotin. exact Hin.
Qed.


(** ** Expiry *)

Lemma map_delete_absent key m :
  ~ In key (keys V m) -> map_delete V key m = m.
Proof.
  induction m as [| [k0 e0] r IH]; cbn [map_delete keys map fst In]; [reflexivity |].
  intros Hn. destruct (eqb k0 key) eqn:E.
  - apply eqb_eq in E. tauto.
  - f_equal. apply IH. tauto.
Qed.

Lemma NoDup_evict c :
  NoDup (keys V (cache V c)) -> NoDup (keys V (cache V (evictLRU V c))).
Proof.
  intros H. destruct (evictLRU_cases c) as [-> | (k & e & _ & _ & _ & _ & ->)];
    [exact H | apply NoDup_delete; exact H].
Qed.

Lemma expires_at_delete key k d c :
  expires_at V key d c ->
  expires_at V key d (with_cache V c (map_delete V k (cache V c))).
Proof.
  intros [Hnd He]. split; cbn [cache with_cache]; [apply NoDup_delete; exact Hnd |].
  intros e. destruct (jsstring_eq_dec k key) as [-> | Hne].
  - rewrite map_get_delete_same by exact Hnd. discriminate.
  - rewrite map_get_delete_other by exact Hne. apply He.
Qed.

Lemma expires_at_evict key d c :
  expires_at V key d c -> expires_at V key d (evictLRU V c).
Proof.
  intros H. destruct (evictLRU_cases c) as [-> | (k & e & _ & _ & _ & _ & ->)];
    [exact H | apply expires_at_delete; exact H].
Qed.

Lemma expires_at_get key d now1 now2 k c :
  expires_at V key d c -> expires_at V key d (snd (get V now1 now2 k c)).
Proof.
  intros H.
  destruct (get_cases now1 now2 k c)
    as [[_ ->] | [(e & He & _ & ->) | (e & He & _ & ->)]]; cbn [snd].
  - exact H.
  - apply expires_at_delete. exact H.
  - destruct H as [Hnd Hd]. split; cbn [cache with_cache].
    + apply NoDup_set. exact Hnd.
    + intros e'. destruct (jsstring_eq_dec k key) as [-> | Hne].
      * rewrite map_get_set_same. intros [= <-]. cbn [touched expiresAt].
        apply Hd. exact He.
      * rewrite map_get_set_other by exact Hne. apply Hd.
Qed.

Lemma expires_at_step key d c o :
  set_key V o <> Some key ->
  expires_at V key d c -> expires_at V key d (step c o).
Proof.
  destruct o as [n1 n2 k v | n1 n2 k | n1 n2 k | k | |]; cbn [step set_key];
    intros Hk H.
  - assert (Hne : k <> key) by congruence.
    unfold set.
    assert (H1 : expires_at V key d
                   (if map_size V (cache V c) >=? r_maxSize (options V c)
                    then evictLRU V c else c))
      by (destruct (_ >=? _); [apply expires_at_evict |]; exact H).
    destruct H1 as [Hnd Hd]. split; cbn [cache with_cache].
    + apply NoDup_set. exact Hnd.
    + intros e. rewrite map_get_set_other by exact Hne. apply Hd.
  - apply expires_at_get. exact H.
  - rewrite has_state. apply expires_at_get. exact H.
  - cbn [delete snd]. apply expires_at_delete. exact H.
  - split; cbn; [constructor | discriminate].
  - exact H.
Qed.

Lemma expires_at_run key d ops : forall c,
  Forall (fun o => set_key V o <> Some key) ops ->
  expires_at V key d c -> expires_at V key d (run ops c).
Proof.
  induction ops as [| o ops IH]; intros c Hall H; [exact H |].
  inversion Hall as [| ? ? Ho Hall']; subst. cbn [SmartCache.run fold_left].
  apply IH; [exact Hall' |]. apply expires_at_step; assumption.
Qed.

Lemma NoDup_run ops : forall c,
  NoDup (keys V (cache V c)) -> NoDup (keys V (cache V (run ops c))).
Proof.
  induction ops as [| o ops IH]; intros c H; [exact H |].
  cbn [SmartCache.run fold_left]. apply IH.
  destruct o as [n1 n2 k v | n1 n2 k | n1 n2 k | k | |]; cbn [step].
  - unfold set. cbn [cache with_cache]. apply NoDup_set.
    destruct (_ >=? _); [apply NoDup_evict |]; exact H.
  - destruct (get_cases n1 n2 k c)
      as [[_ ->] | [(e & He & _ & ->) | (e & He & _ & ->)]]; cbn [snd cache with_cache];
      [exact H | apply NoDup_delete; exact H | apply NoDup_set; exact H].
  - rewrite has_state.
    destruct (get_cases n1 n2 k c)
      as [[_ ->] | [(e & He & _ & ->) | (e & He & _ & ->)]]; cbn [snd cache with_cache];
      [exact H | apply NoDup_delete; exact H | apply NoDup_set; exact H].
  - cbn [delete snd cache with_cache]. apply NoDup_delete. exact H.
  - cbn. constructor.
  - exact H.
Qed.

Lemma expires_at_set now1 now2 key v c :
  NoDup (keys V (cache V c)) ->
  expires_at V key (now1 + r_ttlMs (options V c)) (set V now1 now2 key v c).
Proof.
  intros Hnd. unfold set. split; cbn [cache with_cache].
  - apply NoDup_set. destruct (_ >=? _); [apply NoDup_evict |]; exact Hnd.
  - intros e. rewrite map_get_set_same. intros [= <-]. reflexivity.
Qed.

(** A read after the deadline finds nothing and leaves nothing. *)
Lemma expired_read key d t1 t2 c :
  expires_at V key d c -> t1 > d ->
  fst (get V t1 t2 key c) = None
  /\ fst (has V is_undefined t1 t2 key c) = false
  /\ cache V (snd (get V t1 t2 key c)) = map_delete V key (cache V c)
  /\ map_get V key (cache V (snd (get V t1 t2 key c))) = None.
Proof.
  intros [Hnd Hd] Ht.
  assert (G : fst (get V t1 t2 key c) = None
              /\ cache V (snd (get V t1 t2 key c)) = map_delete V key (cache V c)).
  { destruct (get_cases t1 t2 key c)
      as [[Hg ->] | [(e & He & _ & ->) | (e & He & Hle & _)]]; cbn [fst snd].
    - split; [reflexivity |]. symmetry. apply map_delete_absent.
      apply map_get_None. exact Hg.
    - split; reflexivity.
    - specialize (Hd e He). lia. }
  destruct G as [G1 G2].
  split; [exact G1 |]. split.
  - unfold has. destruct (get V t1 t2 key c) as [r c']. cbn [fst] in *.
    rewrite G1. reflexivity.
  - split; [exact G2 |]. rewrite G2. apply map_get_delete_same. exact Hnd.
Qed.

Lemma get_keys_incl now1 now2 key c x :
  In x (keys V (cache V (snd (get V now1 now2 key c)))) ->
  In x (keys V (cache V c)).
Proof.
  destruct (get_cases now1 now2 key c)
    as [[_ ->] | [(e & He & _ & ->) | (e & He & _ & ->)]]; cbn [snd cache with_cache].
  - auto.
  - apply keys_delete_incl.
  - rewrite keys_set_present; [auto |].
    eapply In_keys. apply map_get_In. exact He.
Qed.

Lemma get_options now1 now2 key c :
  options V (snd (get V now1 now2 key c)) = options V c.
Proof. exact (proj1 (step_constant c (Get V now1 now2 key))). Qed.

Lemma has_absent now1 now2 key c :
  map_get V key (cache V c) = None ->
  has V is_undefined now1 now2 key c = (false, c).
Proof. intros H. unfold has, get. rewrite H. reflexivity. Qed.

Lemma get_live now1 now2 key c e :
  map_get V key (cache V c) = Some e -> now1 <= expiresAt V e ->
  get V now1 now2 key c
  = (Some (value V e),
     with_cache V c (map_set V key (touched V now2 e) (cache V c))).
Proof.
  intros H Ht. unfold get. rewrite H.
  rewrite Z.gtb_ltb, (proj2 (Z.ltb_ge _ _)) by lia. reflexivity.
Qed.

Lemma has_live now1 now2 key c e :
  map_get V key (cache V c) = Some e -> now1 <= expiresAt V e ->
  is_undefined (value V e) = false ->
  has V is_undefined now1 now2 key c
  = (true, with_cache V c (map_set V key (touched V now2 e) (cache V c))).
Proof.
  intros H Ht Hu. unfold has. rewrite (get_live now1 now2 key c e H Ht).
  rewrite Hu. reflexivity.
Qed.

Lemma has_options now1 now2 key c :
  options V (snd (has V is_undefined now1 now2 key c)) = options V c.
Proof. rewrite has_state. apply get_options. Qed.

End Facts.

(** The eviction test of the suite: capacity 3, four keys stored, none
    read; the first key is the one that goes. *)
Example four_keys_in_three_slots :
  keys Z (cache Z (run Z Samples.never_undefined
                     (map (insert_call Z) Samples.four_insertions)
                     (new Z (Samples.capacity 3))))
  = [Samples.k2; Samples.k3; Samples.k4].
Proof. reflexivity. Qed.

(** C2, as the claim states it, fails in two ways: a cache of capacity
    [0] holds one entry after one [set], and a cache of capacity [1]
    whose stored key is the empty string holds two after a second
    [set], since the falsy key is never deleted. *)
Lemma capacity_counterexample :
  map_size Z (cache Z (run Z Samples.never_undefined
                         [Set_ Z 0 0 Samples.k1 1] (new Z (Samples.capacity 0))))
    > r_maxSize (options Z (new Z (Samples.capacity 0)))
  /\ map_size Z (cache Z (run Z Samples.never_undefined
                            [Set_ Z 0 0 [] 1; Set_ Z 1 1 Samples.k1 2]
                            (new Z (Samples.capacity 1))))
     > r_maxSize (options Z (new Z (Samples.capacity 1))).
Proof. split; reflexivity. Qed.

(** C2 (amended): in a cache of capacity [maxSize >= 1] that is only
    ever given non-empty keys, the size never exceeds [maxSize] along any
    sequence of calls; a [set] performed while the cache holds [maxSize]
    entries deletes exactly one stored entry and then stores the new
    one; and inserting [n+1] distinct keys into a fresh cache of capacity
    [n] leaves [n] entries. *)
Theorem size_never_exceeds_capacity (V : Type) (is_undefined : V -> bool) :
  (forall o ops,
      1 <= r_maxSize (options V (new V o)) ->
      Forall (fun c => set_key V c <> Some []) ops ->
      map_size V (cache V (run V is_undefined ops (new V o)))
      <= r_maxSize (options V (new V o)))
  /\ (forall o ops now1 now2 key v,
      1 <= r_maxSize (options V (new V o)) ->
      Forall (fun c => set_key V c <> Some []) ops ->
      map_size V (cache V (run V is_undefined ops (new V o)))
      = r_maxSize (options V (new V o)) ->
      exists k e,
        In (k, e) (cache V (run V is_undefined ops (new V o)))
        /\ cache V (set V now1 now2 key v (run V is_undefined ops (new V o)))
           = map_set V key
               (fresh V (r_ttlMs (options V (new V o))) now1 now2 v)
               (map_delete V k (cache V (run V is_undefined ops (new V o))))
        /\ map_size V (map_delete V k
                         (cache V (run V is_undefined ops (new V o))))
           = r_maxSize (options V (new V o)) - 1)
  /\ (forall n ttl pre (ins : list (insertion V)),
      1 <= n ->
      Z.of_nat (length ins) = n + 1 ->
      NoDup (map (inserted_key V) ins) ->
      Forall (fun i => inserted_key V i <> []) ins ->
      map_size V (cache V (run V is_undefined (map (insert_call V) ins)
                             (new V {| maxSize := Some n; ttlMs := ttl;
                                       prefix := pre |})))
      = n).
Proof.
  split; [| split].
  - intros o ops Hmax Hall.
    destruct (new_well_keyed V o) as [Hw Hb].
    destruct (run_within V is_undefined ops _ Hall Hw Hb) as [_ H].
    unfold within in H.
    rewrite (proj1 (run_constant V is_undefined ops _)) in H. lia.
  - intros o ops now1 now2 key v Hmax Hall Hsz.
    destruct (new_well_keyed V o) as [Hw Hb].
    destruct (run_within V is_undefined ops _ Hall Hw Hb) as [Hw' _].
    pose proof (proj1 (run_constant V is_undefined ops (new V o))) as Ho.
    set (c := run V is_undefined ops (new V o)) in *.
    assert (Hc : cache V c <> []).
    { intros E. rewrite E in Hsz. cbn [map_size length Z.of_nat] in Hsz. lia. }
    destruct (set_when_full V now1 now2 key v c Hw' Hc) as (k & e & Hin & _ & Hs & Hl).
    { rewrite Ho. lia. }
    exists k, e. rewrite <- Ho. rewrite Hs, Hl, Hsz, Ho. auto.
  - intros n ttl pre ins Hn Hlen Hnd Hne.
    set (o := {| maxSize := Some n; ttlMs := ttl; prefix := pre |}).
    destruct (new_well_keyed V o) as [Hw _].
    rewrite (insert_distinct V is_undefined ins (new V o) Hw).
    + cbn. lia.
    + cbn. lia.
    + cbn. lia.
    + exact Hnd.
    + intros k Hin. split; [| intros []].
      apply in_map_iff in Hin. destruct Hin as (i & <- & Hi).
      rewrite Forall_forall in Hne. apply Hne. exact Hi.
Qed.


Lemma size_never_exceeds_capacity_witness :
  1 <= 3
  /\ Z.of_nat (length Samples.four_insertions) = 3 + 1
  /\ NoDup (map (inserted_key Z) Samples.four_insertions)
  /\ Forall (fun i => inserted_key Z i <> []) Samples.four_insertions
  /\ map_size Z (cache Z (run Z Samples.never_undefined
                            (map (insert_call Z) Samples.four_insertions)
                            (new Z (Samples.capacity 3)))) = 3.
Proof.
  assert (Hnd : NoDup (map (inserted_key Z) Samples.four_insertions)).
  { repeat constructor; cbn; intuition discriminate. }
  assert (Hne : Forall (fun i => inserted_key Z i <> []) Samples.four_insertions).
  { repeat constructor; discriminate. }
  split; [lia |]. split; [reflexivity |]. split; [exact Hnd |].
  split; [exact Hne |].
  apply (proj2 (proj2 (size_never_exceeds_capacity Z Samples.never_undefined))
           3 (Some 1000) None Samples.four_insertions);
    [lia | reflexivity | exact Hnd | exact Hne].
Defined.

(** ** Eviction order *)

(** C3: whatever entry [evictLRU] removes has the smallest [accessCount]
    of all entries and, among those with that count, the oldest
    [lastAccessed]; an entry is removed whenever the cache is non-empty
    and its keys are non-empty strings; and with [maxSize = 3], after
    [set k1], [set k2], [set k3] in that order and two successful
    [get k1], [set k4] evicts [k2]. *)
Theorem eviction_prefers_rare_then_old (V : Type) (is_undefined : V -> bool) :
  (forall (c : SmartCache.t V) key e,
      NoDup (keys V (cache V c)) ->
      In (key, e) (cache V c) ->
      ~ In key (keys V (cache V (evictLRU V c))) ->
      forall k' e', In (k', e') (cache V c) ->
        accessCount V e <= accessCount V e'
        /\ (accessCount V e = accessCount V e' ->
            lastAccessed V e <= lastAccessed V e'))
  /\ (forall c : SmartCache.t V,
      cache V c <> [] ->
      (forall k, In k (keys V (cache V c)) -> k <> []) ->
      exists k e,
        In (k, e) (cache V c)
        /\ (forall k' e', In (k', e') (cache V c) -> precedes V e e')
        /\ cache V (evictLRU V c) = map_delete V k (cache V c)
        /\ length (cache V c) = S (length (cache V (evictLRU V c))))
  /\ (forall ttl pre v1 v2 v3 v4 a1 b1 a2 b2 a3 b3 g1 h1 g2 h2 a4 b4,
      b2 <= b3 ->
      g1 <= a1 + default Z (5 * 60 * 1000) ttl ->
      g2 <= a1 + default Z (5 * 60 * 1000) ttl ->
      let c := run V is_undefined
                 [Set_ V a1 b1 Samples.k1 v1; Set_ V a2 b2 Samples.k2 v2;
                  Set_ V a3 b3 Samples.k3 v3;
                  Get V g1 h1 Samples.k1; Get V g2 h2 Samples.k1;
                  Set_ V a4 b4 Samples.k4 v4]
                 (new V {| maxSize := Some 3; ttlMs := ttl; prefix := pre |}) in
      keys V (cache V c) = [Samples.k1; Samples.k3; Samples.k4]
      /\ map_get V Samples.k2 (cache V c) = None).
Proof.
  split; [| split].
  - intros c key e Hnd Hin Hgone k' e' Hin'.
    destruct (evictLRU_cases V c) as [E | (k & ek & _ & _ & Hk & Hmin & E)].
    + rewrite E in Hgone. exfalso. apply Hgone. eapply In_keys. exact Hin.
    + rewrite E in Hgone. cbn [cache with_cache] in Hgone.
      destruct (jsstring_eq_dec k key) as [-> | Hne].
      * assert (ek = e).
        { pose proof (In_map_get V key e _ Hnd Hin) as G1.
          pose proof (In_map_get V key ek _ Hnd Hk) as G2. congruence. }
        subst ek. exact (Hmin _ _ Hin').
      * exfalso. apply Hgone. apply keys_delete_other; [exact Hne |].
        eapply In_keys. exact Hin.
  - intros c Hc Hne.
    destruct (evictLRU_removes_one V c Hc Hne) as (k & e & Hin & Hmin & Hev & Hl).
    exists k, e. rewrite Hev. cbn [cache with_cache]. auto.
  - intros ttl pre v1 v2 v3 v4 a1 b1 a2 b2 a3 b3 g1 h1 g2 h2 a4 b4 Hb Hg1 Hg2.
    set (T := default Z (5 * 60 * 1000) ttl) in *.
    change (new V {| maxSize := Some 3; ttlMs := ttl; prefix := pre |})
      with {| cache := @nil (jsstring * CacheEntry V);
              options := {| r_maxSize := 3; r_ttlMs := T;
                            r_prefix := default jsstring [] pre |};
              hitCount := 0; missCount := 0 |}.
    clearbody T.
    assert (E1 : (g1 >? a1 + T) = false)
      by (rewrite Z.gtb_ltb; apply Z.ltb_ge; lia).
    assert (E2 : (g2 >? a1 + T) = false)
      by (rewrite Z.gtb_ltb; apply Z.ltb_ge; lia).
    assert (E3 : (b3 <? b2) = false) by (apply Z.ltb_ge; lia).
    cbv zeta. unfold run. cbn. rewrite E1. cbn. rewrite E2. cbn.
    unfold evictLRU, lruKey, scan, with_cache. cbn. rewrite E3.
    cbn. split; reflexivity.
Qed.


Lemma eviction_prefers_rare_then_old_witness :
  1 <= 2
  /\ 5 <= 0 + default Z (5 * 60 * 1000) (Some 1000)
  /\ 6 <= 0 + default Z (5 * 60 * 1000) (Some 1000)
  /\ keys Z (cache Z (run Z Samples.never_undefined
                        [Set_ Z 0 0 Samples.k1 1; Set_ Z 1 1 Samples.k2 2;
                         Set_ Z 2 2 Samples.k3 3;
                         Get Z 5 5 Samples.k1; Get Z 6 6 Samples.k1;
                         Set_ Z 7 7 Samples.k4 4]
                        (new Z (Samples.capacity 3))))
     = [Samples.k1; Samples.k3; Samples.k4].
Proof.
  split; [lia |]. split; [cbn; lia |]. split; [cbn; lia |].
  apply (proj2 (proj2 (eviction_prefers_rare_then_old Z Samples.never_undefined))
           (Some 1000) None 1 2 3 4 0 0 1 1 2 2 5 5 6 6 7 7);
    cbn; lia.
Defined.

(** ** Time to live *)

(** C5: once [key] is stored with time to live [t] at [insertTime], every
    [get] or [has] on it at a time later than [insertTime + t] finds
    nothing, whatever calls came in between (short of storing [key]
    again) and whether or not the capacity was ever reached, and the
    entry is gone afterwards; a [get] that is not late returns the stored
    value, adds one to [accessCount] and sets [lastAccessed] to the time
    of the read. *)
Theorem expired_entries_are_absent (V : Type) (is_undefined : V -> bool) :
  (forall o ops0 ops insertTime now2 key v t1 t2,
      Forall (fun c => set_key V c <> Some key) ops ->
      t1 > insertTime + r_ttlMs (options V (new V o)) ->
      let c := run V is_undefined ops
                 (set V insertTime now2 key v
                    (run V is_undefined ops0 (new V o))) in
      fst (get V t1 t2 key c) = None
      /\ fst (has V is_undefined t1 t2 key c) = false
      /\ cache V (snd (get V t1 t2 key c)) = map_delete V key (cache V c)
      /\ map_get V key (cache V (snd (get V t1 t2 key c))) = None
      /\ map_get V key (cache V (snd (has V is_undefined t1 t2 key c))) = None)
  /\ (forall (c : SmartCache.t V) key e t1 t2,
      map_get V key (cache V c) = Some e ->
      t1 <= expiresAt V e ->
      fst (get V t1 t2 key c) = Some (value V e)
      /\ map_get V key (cache V (snd (get V t1 t2 key c)))
         = Some {| value := value V e;
                   expiresAt := expiresAt V e;
                   accessCount := accessCount V e + 1;
                   lastAccessed := t2 |}).
Proof.
  split.
  - intros o ops0 ops insertTime now2 key v t1 t2 Hall Ht. cbv zeta.
    set (c0 := run V is_undefined ops0 (new V o)).
    assert (Hnd : NoDup (keys V (cache V c0))).
    { apply NoDup_run. cbn. constructor. }
    assert (Ho : options V c0 = options V (new V o))
      by apply (run_constant V is_undefined).
    pose proof (expires_at_set V insertTime now2 key v c0 Hnd) as Hs.
    rewrite Ho in Hs.
    pose proof (expires_at_run V is_undefined key _ ops _ Hall Hs) as Hr.
    destruct (expired_read V is_undefined key _ t1 t2 _ Hr Ht)
      as (G1 & G2 & G3 & G4).
    rewrite has_state. auto.
  - intros c key e t1 t2 Hg Ht. unfold get. rewrite Hg.
    rewrite Z.gtb_ltb, (proj2 (Z.ltb_ge _ _)) by lia.
    cbn [fst snd cache with_cache]. split; [reflexivity |].
    apply map_get_set_same.
Qed.

Lemma expired_entries_are_absent_witness :
  Forall (fun c => set_key Z c <> Some Samples.k1)
         [Get Z 500 500 Samples.k1; Set_ Z 600 600 Samples.k2 2]
  /\ 1001 > 0 + r_ttlMs (options Z (new Z (Samples.capacity 3)))
  /\ fst (get Z 1001 1001 Samples.k1
            (run Z Samples.never_undefined
               [Get Z 500 500 Samples.k1; Set_ Z 600 600 Samples.k2 2]
               (set Z 0 0 Samples.k1 1
                  (run Z Samples.never_undefined [] (new Z (Samples.capacity 3))))))
     = None.
Proof.
  assert (H : Forall (fun c => set_key Z c <> Some Samples.k1)
                [Get Z 500 500 Samples.k1; Set_ Z 600 600 Samples.k2 2]).
  { repeat constructor; cbn; discriminate. }
  split; [exact H |]. split; [cbn; lia |].
  apply (proj1 (expired_entries_are_absent Z Samples.never_undefined)
           (Samples.capacity 3) []
           [Get Z 500 500 Samples.k1; Set_ Z 600 600 Samples.k2 2]
           0 0 Samples.k1 1 1001 1001 H).
  cbn; lia.
Defined.

(** ** Statistics *)

(** C10: along every sequence of [set], [get], [has], [delete] and
    [clear] the two counters stay at zero, so [calculateHitRate] is [0]
    and every statistics record [getStats] produces has [hitRate = 0]. *)
Theorem hit_rate_always_zero
    (V : Type) (is_undefined : V -> bool)
    (JSON_stringify : V -> option jsstring) o ops :
  hitCount V (run V is_undefined ops (new V o)) = 0
  /\ missCount V (run V is_undefined ops (new V o)) = 0
  /\ calculateHitRate V (run V is_undefined ops (new V o)) = 0%Q
  /\ getStats V JSON_stringify (run V is_undefined ops (new V o))
     = option_map
         (fun mem =>
            {| size := map_size V (cache V (run V is_undefined ops (new V o)));
               s_maxSize := r_maxSize (options V (new V o));
               hitRate := 0%Q;
               memoryUsage := mem |})
         (estimateMemoryUsage V JSON_stringify
            (run V is_undefined ops (new V o))).
Proof.
  destruct (run_constant V is_undefined ops (new V o)) as (Ho & Hh & Hm).
  cbn [new hitCount missCount] in Hh, Hm.
  assert (Hr : calculateHitRate V (run V is_undefined ops (new V o)) = 0%Q).
  { unfold calculateHitRate. rewrite Hh, Hm. reflexivity. }
  split; [exact Hh |]. split; [exact Hm |]. split; [exact Hr |].
  unfold getStats. rewrite Hr, Ho.
  destruct (estimateMemoryUsage V JSON_stringify _); reflexivity.
Qed.

End CacheFacts.

(* ================================================================== *)
(** * More on the cache: round trips, overwrites, reads, statistics    *)
(* ================================================================== *)

Module CacheMore.
Import SmartCache.

Section More.

Variable V : Type.
Variable is_undefined : V -> bool.
Variable JSON_stringify : V -> option jsstring.

(** A value just stored is read back: a [get] no later than the
    deadline returns it, whatever the cache held (also when the [set]
    had to evict), and leaves the entry with one access. *)
Theorem set_then_get (c : SmartCache.t V) now1 now2 key v t1 t2 :
  t1 <= now1 + r_ttlMs (options V c) ->
  fst (get V t1 t2 key (set V now1 now2 key v c)) = Some v
  /\ map_get V key (cache V (snd (get V t1 t2 key (set V now1 now2 key v c))))
     = Some {| value := v;
               expiresAt := now1 + r_ttlMs (options V c);
               accessCount := 1;
               lastAccessed := t2 |}
  /\ (is_undefined v = false ->
      fst (has V is_undefined t1 t2 key (set V now1 now2 key v c)) = true).
Proof.
  intros Ht.
  set (e := fresh V (r_ttlMs (options V c)) now1 now2 v).
  assert (Hg : map_get V key (cache V (set V now1 now2 key v c)) = Some e).
  { unfold set. cbn [cache with_cache]. apply CacheFacts.map_get_set_same. }
  assert (Hle : t1 <= expiresAt V e) by exact Ht.
  rewrite (CacheFacts.get_live V t1 t2 key _ e Hg Hle).
  cbn [fst snd cache with_cache].
  split; [reflexivity |]. split.
  - rewrite CacheFacts.map_get_set_same. reflexivity.
  - intros Hu.
    rewrite (CacheFacts.has_live V is_undefined t1 t2 key _ e Hg Hle Hu).
    reflexivity.
Qed.

(** A read of [key] is local: [get] and [has] leave the entry of
    every other key as it was, never add an entry, and keep the
    options. *)
Theorem reads_are_local (c : SmartCache.t V) t1 t2 key k' :
  k' <> key ->
  map_get V k' (cache V (snd (get V t1 t2 key c))) = map_get V k' (cache V c)
  /\ map_get V k' (cache V (snd (has V is_undefined t1 t2 key c)))
     = map_get V k' (cache V c)
  /\ map_size V (cache V (snd (get V t1 t2 key c))) <= map_size V (cache V c)
  /\ options V (snd (get V t1 t2 key c)) = options V c.
Proof.
  intros Hne. rewrite CacheFacts.has_state.
  assert (H : map_get V k' (cache V (snd (get V t1 t2 key c)))
              = map_get V k' (cache V c)
              /\ map_size V (cache V (snd (get V t1 t2 key c)))
                 <= map_size V (cache V c)).
  { destruct (CacheFacts.get_cases V t1 t2 key c)
      as [[_ ->] | [(e & He & _ & ->) | (e & He & _ & ->)]];
      cbn [snd cache with_cache].
    - split; [reflexivity | lia].
    - split; [apply CacheFacts.map_get_delete_other; congruence |].
      unfold map_size. pose proof (CacheFacts.length_delete_le V key (cache V c)).
      lia.
    - split; [apply CacheFacts.map_get_set_other; congruence |].
      unfold map_size. rewrite CacheFacts.length_set.
      destruct (in_dec _ _ _) as [_ | Hn]; [lia |].
      exfalso. apply Hn. eapply CacheFacts.In_keys. apply CacheFacts.map_get_In.
      exact He. }
  destruct H as [H1 H2].
  split; [exact H1 |]. split; [exact H1 |]. split; [exact H2 |].
  apply (CacheFacts.get_options V is_undefined).
Qed.


(** [delete] reports whether the key was stored (expired or not),
    removes it, and touches nothing else: afterwards [get] and [has]
    find nothing under the key, the size is one less exactly when the
    key was there, and every other key keeps its entry. *)
Theorem delete_removes o ops key t1 t2 :
  let c := run V is_undefined ops (new V o) in
  let c' := snd (delete V key c) in
  (fst (delete V key c) = true <-> In key (keys V (cache V c)))
  /\ fst (get V t1 t2 key c') = None
  /\ fst (has V is_undefined t1 t2 key c') = false
  /\ map_size V (cache V c')
     = map_size V (cache V c) - (if fst (delete V key c) then 1 else 0)
  /\ (forall k', k' <> key ->
                 map_get V k' (cache V c') = map_get V k' (cache V c)).
Proof.
  cbv zeta. set (c := run V is_undefined ops (new V o)).
  assert (Hnd : NoDup (keys V (cache V c))).
  { apply CacheFacts.NoDup_run. cbn. constructor. }
  cbn [delete fst snd].
  assert (Hgone : map_get V key (cache V (with_cache V c (map_delete V key (cache V c))))
                  = None).
  { cbn [cache with_cache]. apply CacheFacts.map_get_delete_same. exact Hnd. }
  split; [| split; [| split; [| split]]].
  - unfold map_has. destruct (map_get V key (cache V c)) as [e |] eqn:E.
    + split; [intros _ | reflexivity].
      eapply CacheFacts.In_keys. apply CacheFacts.map_get_In. exact E.
    + apply CacheFacts.map_get_None in E. split; [discriminate | contradiction].
  - unfold get. rewrite Hgone. reflexivity.
  - rewrite (CacheFacts.has_absent V is_undefined t1 t2 key _ Hgone). reflexivity.
  - cbn [cache with_cache]. unfold map_has, map_size.
    destruct (map_get V key (cache V c)) as [e |] eqn:E.
    + rewrite (CacheFacts.length_delete_present V key (cache V c)); [lia |].
      eapply CacheFacts.In_keys. apply CacheFacts.map_get_In. exact E.
    + apply CacheFacts.map_get_None in E.
      rewrite CacheFacts.map_delete_absent by exact E. lia.
  - intros k' Hne. cbn [cache with_cache].
    apply CacheFacts.map_get_delete_other. congruence.
Qed.

(** Storing under a key the cache already holds, below capacity,
    keeps the keys and their order and the size, and replaces the entry
    by a new one: new value, new deadline, [accessCount] back to 0. *)
Theorem overwrite_below_capacity (c : SmartCache.t V) now1 now2 key v :
  In key (keys V (cache V c)) ->
  map_size V (cache V c) < r_maxSize (options V c) ->
  keys V (cache V (set V now1 now2 key v c)) = keys V (cache V c)
  /\ map_size V (cache V (set V now1 now2 key v c)) = map_size V (cache V c)
  /\ map_get V key (cache V (set V now1 now2 key v c))
     = Some {| value := v;
               expiresAt := now1 + r_ttlMs (options V c);
               accessCount := 0;
               lastAccessed := now2 |}.
Proof.
  intros Hin Hlt. unfold set.
  rewrite Z.geb_leb, (proj2 (Z.leb_gt _ _)) by lia.
  cbn [cache with_cache].
  assert (Hk : keys V (map_set V key
                         {| value := v;
                            expiresAt := now1 + r_ttlMs (options V c);
                            accessCount := 0; lastAccessed := now2 |}
                         (cache V c)) = keys V (cache V c))
    by (apply CacheFacts.keys_set_present; exact Hin).
  split; [exact Hk |]. split.
  - unfold map_size, keys in *. rewrite <- (length_map fst), Hk, length_map.
    reflexivity.
  - apply CacheFacts.map_get_set_same.
Qed.

(** Storing under a key the cache already holds, at capacity,
    still evicts: the least entry goes first.  If that entry is another
    key's, the cache ends one entry short of [maxSize] with that key
    gone; if it is the key's own, the key moves to the end of the
    iteration order. *)
Theorem overwrite_at_capacity o ops now1 now2 key v :
  let c := run V is_undefined ops (new V o) in
  1 <= r_maxSize (options V c) ->
  Forall (fun x => set_key V x <> Some []) ops ->
  map_size V (cache V c) = r_maxSize (options V c) ->
  In key (keys V (cache V c)) ->
  exists k e,
    In (k, e) (cache V c)
    /\ (forall k' e', In (k', e') (cache V c) -> precedes V e e')
    /\ (k <> key ->
        map_size V (cache V (set V now1 now2 key v c))
        = r_maxSize (options V c) - 1
        /\ ~ In k (keys V (cache V (set V now1 now2 key v c))))
    /\ (k = key ->
        map_size V (cache V (set V now1 now2 key v c)) = r_maxSize (options V c)
        /\ keys V (cache V (set V now1 now2 key v c))
           = keys V (map_delete V key (cache V c)) ++ [key]).
Proof.
  cbv zeta. set (c := run V is_undefined ops (new V o)).
  intros Hmax Hall Hsz Hin.
  destruct (CacheFacts.new_well_keyed V o) as [Hw Hb].
  destruct (CacheFacts.run_within V is_undefined ops _ Hall Hw Hb) as [Hw' _].
  fold c in Hw'.
  assert (Hc : cache V c <> []).
  { intros E. rewrite E in Hsz. cbn [map_size length Z.of_nat] in Hsz. lia. }
  destruct (CacheFacts.set_when_full V now1 now2 key v c Hw' Hc)
    as (k & e & Hke & Hmin & Hs & Hl); [lia |].
  exists k, e. split; [exact Hke |]. split; [exact Hmin |].
  rewrite Hs. destruct Hw' as [Hnd _].
  assert (Hnd' : NoDup (keys V (map_delete V k (cache V c))))
    by (apply CacheFacts.NoDup_delete; exact Hnd).
  split.
  - intros Hne.
    assert (Hstill : In key (keys V (map_delete V k (cache V c))))
      by (apply CacheFacts.keys_delete_other; assumption).
    split.
    + unfold map_size in *. rewrite CacheFacts.length_set.
      destruct (in_dec _ _ _); [lia | contradiction].
    + rewrite CacheFacts.keys_set_present by exact Hstill.
      intros Hk. apply (proj1 (CacheFacts.map_get_None V k _)
                          (CacheFacts.map_get_delete_same V k _ Hnd)).
      exact Hk.
  - intros ->.
    assert (Habs : ~ In key (keys V (map_delete V key (cache V c)))).
    { apply CacheFacts.map_get_None. apply CacheFacts.map_get_delete_same.
      exact Hnd. }
    split.
    + unfold map_size in *. rewrite CacheFacts.length_set.
      destruct (in_dec _ _ _); [contradiction | lia].
    + apply CacheFacts.keys_set_absent. exact Habs.
Qed.

(** When the scan selects an entry stored under the empty string,
    [evictLRU] deletes nothing (the key is falsy), so a [set] of a new
    key on a full cache makes it one entry larger. *)
Theorem empty_key_blocks_eviction (c : SmartCache.t V) now1 now2 key v :
  lruKey V (cache V c) = Some [] ->
  ~ In key (keys V (cache V c)) ->
  evictLRU V c = c
  /\ map_size V (cache V (set V now1 now2 key v c)) = map_size V (cache V c) + 1.
Proof.
  intros Hk Habs.
  assert (He : evictLRU V c = c) by (unfold evictLRU; rewrite Hk; reflexivity).
  split; [exact He |].
  unfold set. rewrite He.
  destruct (_ >=? _); cbn [cache with_cache]; unfold map_size;
    rewrite CacheFacts.length_set;
    (destruct (in_dec _ _ _); [contradiction | lia]).
Qed.


(** ** Statistics *)

Lemma estimate_from_defined (m : entries V) : forall bytes,
  estimate_from V JSON_stringify bytes m <> None
  <-> Forall (CacheViews.serialisable V JSON_stringify) m.
Proof.
  induction m as [| [k e] m IH]; intros bytes; cbn [estimate_from].
  - split; [constructor | discriminate].
  - destruct (JSON_stringify (value V e)) as [js |] eqn:E.
    + rewrite IH. split.
      * intros H. constructor; [| exact H].
        unfold CacheViews.serialisable. cbn [snd]. congruence.
      * intros H. inversion H. assumption.
    + split; [congruence |]. intros H. inversion H as [| ? ? H1 _]; subst.
      unfold CacheViews.serialisable in H1. cbn [snd] in H1. contradiction.
Qed.

(** [getStats] produces statistics exactly when every stored value
    serialises (otherwise reading [.length] of the serialisation
    throws); the statistics then report the number of stored entries,
    expired ones included, and the configured capacity. *)
Theorem getStats_defined (c : SmartCache.t V) :
  (getStats V JSON_stringify c <> None
   <-> Forall (CacheViews.serialisable V JSON_stringify) (cache V c))
  /\ (forall st, getStats V JSON_stringify c = Some st ->
                 SmartCache.size st = Z.of_nat (length (cache V c))
                 /\ s_maxSize st = r_maxSize (options V c)).
Proof.
  unfold getStats, estimateMemoryUsage. split.
  - rewrite <- (estimate_from_defined (cache V c) 0).
    destruct (estimate_from V JSON_stringify 0 (cache V c));
      split; congruence.
  - intros st. destruct (estimate_from V JSON_stringify 0 (cache V c));
      [| discriminate].
    intros [= <-]. split; reflexivity.
Qed.

(** ** Eviction and deadlines *)

Lemma scan_reschedule f (m : entries V) : forall acc,
  fold_left (scan_step V) (CacheViews.reschedule V f m) acc
  = fold_left (scan_step V) m acc.
Proof.
  induction m as [| [k e] m IH]; intros acc; [reflexivity |].
  cbn [CacheViews.reschedule map fold_left]. fold (CacheViews.reschedule V f m).
  rewrite IH. f_equal.
Qed.

Lemma keys_reschedule f (m : entries V) :
  keys V (CacheViews.reschedule V f m) = keys V m.
Proof.
  unfold keys, CacheViews.reschedule. rewrite map_map. reflexivity.
Qed.

Lemma keys_delete_reschedule f k (m : entries V) :
  keys V (map_delete V k (CacheViews.reschedule V f m))
  = keys V (map_delete V k m).
Proof.
  induction m as [| [k0 e0] m IH]; [reflexivity |].
  cbn [CacheViews.reschedule map map_delete fst].
  fold (CacheViews.reschedule V f m).
  destruct (eqb k0 k); [apply keys_reschedule |].
  cbn [keys map fst]. unfold keys in IH. rewrite IH. reflexivity.
Qed.

Lemma keys_set_same_keys key e1 e2 (m1 m2 : entries V) :
  keys V m1 = keys V m2 ->
  keys V (map_set V key e1 m1) = keys V (map_set V key e2 m2).
Proof.
  intros H. destruct (in_dec jsstring_eq_dec key (keys V m1)) as [Hin | Hn].
  - rewrite !CacheFacts.keys_set_present; [exact H | rewrite <- H; exact Hin | exact Hin].
  - rewrite !CacheFacts.keys_set_absent; [rewrite H; reflexivity
                                         | rewrite <- H; exact Hn | exact Hn].
Qed.

(** The eviction scan never looks at deadlines: with any other
    [expiresAt] on the entries it selects the same key, and a [set]
    leaves the same keys.  An expired entry that nobody has read again
    is evicted no sooner than a live one. *)
Theorem eviction_ignores_expiry f (c : SmartCache.t V) now1 now2 key v :
  lruKey V (CacheViews.reschedule V f (cache V c)) = lruKey V (cache V c)
  /\ keys V (cache V (set V now1 now2 key v
                        (with_cache V c (CacheViews.reschedule V f (cache V c)))))
     = keys V (cache V (set V now1 now2 key v c)).
Proof.
  assert (Hl : lruKey V (CacheViews.reschedule V f (cache V c))
               = lruKey V (cache V c)).
  { unfold lruKey, scan. rewrite scan_reschedule. reflexivity. }
  split; [exact Hl |].
  unfold set. cbn [cache with_cache options].
  unfold map_size, CacheViews.reschedule at 1. rewrite length_map.
  destruct (Z.of_nat (length (cache V c)) >=? r_maxSize (options V c));
    cbn [cache with_cache].
  - unfold evictLRU. cbn [cache with_cache]. rewrite Hl.
    destruct (lruKey V (cache V c)) as [k |]; cbn [cache with_cache].
    + destruct (truthy k); cbn [cache with_cache]; apply keys_set_same_keys;
        [apply keys_delete_reschedule | apply keys_reschedule].
    + apply keys_set_same_keys. apply keys_reschedule.
  - apply keys_set_same_keys. apply keys_reschedule.
Qed.

End More.
Lemma set_then_get_witness :
  5 <= 0 + r_ttlMs (options Z (new Z (Samples.capacity 3)))
  /\ fst (get Z 5 5 Samples.k1 (set Z 0 0 Samples.k1 7 (new Z (Samples.capacity 3))))
     = Some 7.
Proof.
  split; [cbn; lia |].
  apply (set_then_get Z Samples.never_undefined (new Z (Samples.capacity 3))
           0 0 Samples.k1 7 5 5).
  cbn; lia.
Defined.

Lemma reads_are_local_witness :
  Samples.k2 <> Samples.k1
  /\ map_get Z Samples.k2
       (cache Z (snd (get Z 5 5 Samples.k1
                        (run Z Samples.never_undefined Samples.two_sets
                           (new Z (Samples.capacity 3))))))
     = map_get Z Samples.k2
         (cache Z (run Z Samples.never_undefined Samples.two_sets
                     (new Z (Samples.capacity 3)))).
Proof.
  assert (H : Samples.k2 <> Samples.k1) by discriminate.
  split; [exact H |].
  apply (reads_are_local Z Samples.never_undefined _ 5 5 Samples.k1 Samples.k2 H).
Defined.

Lemma delete_removes_witness :
  fst (get Z 5 5 Samples.k1
         (snd (delete Z Samples.k1
                 (run Z Samples.never_undefined Samples.two_sets
                    (new Z (Samples.capacity 3)))))) = None.
Proof.
  apply (delete_removes Z Samples.never_undefined (Samples.capacity 3)
           Samples.two_sets Samples.k1 5 5).
Defined.

Lemma overwrite_below_capacity_witness :
  let c := run Z Samples.never_undefined Samples.two_sets
             (new Z (Samples.capacity 3)) in
  In Samples.k1 (keys Z (cache Z c))
  /\ map_size Z (cache Z c) < r_maxSize (options Z c)
  /\ keys Z (cache Z (set Z 9 9 Samples.k1 5 c)) = keys Z (cache Z c).
Proof.
  cbv zeta.
  assert (H1 : In Samples.k1
                 (keys Z (cache Z (run Z Samples.never_undefined Samples.two_sets
                                     (new Z (Samples.capacity 3))))))
    by (left; reflexivity).
  assert (H2 : map_size Z (cache Z (run Z Samples.never_undefined Samples.two_sets
                                      (new Z (Samples.capacity 3))))
               < r_maxSize (options Z (run Z Samples.never_undefined
                                         Samples.two_sets
                                         (new Z (Samples.capacity 3)))))
    by (cbn; lia).
  split; [exact H1 |]. split; [exact H2 |].
  apply (overwrite_below_capacity Z _ 9 9 Samples.k1 5 H1 H2).
Defined.

Lemma overwrite_at_capacity_witness :
  let c := run Z Samples.never_undefined Samples.three_sets
             (new Z (Samples.capacity 3)) in
  1 <= r_maxSize (options Z c)
  /\ Forall (fun x => set_key Z x <> Some []) Samples.three_sets
  /\ map_size Z (cache Z c) = r_maxSize (options Z c)
  /\ In Samples.k2 (keys Z (cache Z c))
  /\ exists k e, In (k, e) (cache Z c)
       /\ (k <> Samples.k2 ->
           map_size Z (cache Z (set Z 9 9 Samples.k2 5 c))
           = r_maxSize (options Z c) - 1).
Proof.
  cbv zeta.
  assert (H1 : 1 <= r_maxSize (options Z (run Z Samples.never_undefined
                                            Samples.three_sets
                                            (new Z (Samples.capacity 3)))))
    by (cbn; lia).
  assert (H2 : Forall (fun x => set_key Z x <> Some []) Samples.three_sets)
    by (repeat constructor; discriminate).
  assert (H3 : map_size Z (cache Z (run Z Samples.never_undefined
                                      Samples.three_sets
                                      (new Z (Samples.capacity 3))))
               = r_maxSize (options Z (run Z Samples.never_undefined
                                         Samples.three_sets
                                         (new Z (Samples.capacity 3)))))
    by reflexivity.
  assert (H4 : In Samples.k2
                 (keys Z (cache Z (run Z Samples.never_undefined
                                     Samples.three_sets
                                     (new Z (Samples.capacity 3))))))
    by (right; left; reflexivity).
  split; [exact H1 |]. split; [exact H2 |]. split; [exact H3 |].
  split; [exact H4 |].
  destruct (overwrite_at_capacity Z Samples.never_undefined
              (Samples.capacity 3) Samples.three_sets 9 9 Samples.k2 5
              H1 H2 H3 H4) as (k & e & Hin & _ & Hother & _).
  exists k, e. split; [exact Hin |]. intros Hne. apply (Hother Hne).
Defined.

Lemma empty_key_blocks_eviction_witness :
  let c := set Z 0 0 [] 1 (new Z (Samples.capacity 1)) in
  lruKey Z (cache Z c) = Some []
  /\ ~ In Samples.k1 (keys Z (cache Z c))
  /\ map_size Z (cache Z (set Z 1 1 Samples.k1 2 c)) = 1 + 1.
Proof.
  cbv zeta.
  assert (H1 : lruKey Z (cache Z (set Z 0 0 [] 1 (new Z (Samples.capacity 1))))
               = Some []) by reflexivity.
  assert (H2 : ~ In Samples.k1
                 (keys Z (cache Z (set Z 0 0 [] 1 (new Z (Samples.capacity 1))))))
    by (cbn; intuition discriminate).
  split; [exact H1 |]. split; [exact H2 |].
  apply (empty_key_blocks_eviction Z _ 1 1 Samples.k1 2 H1 H2).
Defined.

Lemma getStats_defined_witness :
  let c := run Z Samples.never_undefined Samples.three_sets
             (new Z (Samples.capacity 3)) in
  Forall (CacheViews.serialisable Z Samples.show) (cache Z c)
  /\ getStats Z Samples.show c <> None.
Proof.
  cbv zeta.
  assert (H : Forall (CacheViews.serialisable Z Samples.show)
                (cache Z (run Z Samples.never_undefined Samples.three_sets
                            (new Z (Samples.capacity 3)))))
    by (repeat constructor; discriminate).
  split; [exact H |].
  apply (proj1 (getStats_defined Z Samples.show _)). exact H.
Defined.


End CacheMore.

(* ================================================================== *)
(** * Properties of the history                                        *)
(* ================================================================== *)

Module HistoryFacts.
Import StateManager.

Lemma slice_tail {A} (n : Z) (l : list A) :
  0 < n -> slice (- n) None l = skipn (length l - Z.to_nat n) l.
Proof.
  intros Hn. unfold slice, clamp.
  assert (E : (- n <? 0) = true) by (apply Z.ltb_lt; lia).
  rewrite E.
  replace (Z.to_nat (Z.max (Z.of_nat (length l) + - n) 0))
    with (length l - Z.to_nat n)%nat by lia.
  apply firstn_all2. rewrite length_skipn. lia.
Qed.

Lemma slice_prefix {A} (e : Z) (l : list A) :
  0 <= e -> slice 0 (Some e) l = firstn (Z.to_nat e) l.
Proof.
  intros He. unfold slice.
  assert (C0 : clamp (Z.of_nat (length l)) 0 = 0)
    by (unfold clamp; cbn [Z.ltb Z.compare]; lia).
  assert (Ce : clamp (Z.of_nat (length l)) e = Z.min e (Z.of_nat (length l))).
  { unfold clamp. rewrite (proj2 (Z.ltb_ge e 0)) by lia. reflexivity. }
  rewrite C0, Ce, Z.sub_0_r. cbn [Z.to_nat skipn].
  destruct (Z.min_spec e (Z.of_nat (length l))) as [[H1 H2] | [H1 H2]];
    rewrite H2; [reflexivity |].
  rewrite Nat2Z.id, firstn_all.
  symmetry. apply firstn_all2. lia.
Qed.

(** The entry [record] returns does not depend on the state. *)
Lemma record_entry id now e s : fst (record id now e s) = entry_of (id, now, e).
Proof.
  unfold entry_of, record. cbn [fst snd].
  destruct (len _ >? maxHistorySize s); destruct (len _ >? maxHistorySize new);
    reflexivity.
Qed.

(** What the manager holds after recording [es] at the tail. *)
Definition tail_of (es : list StateEntry) (s : t) : Prop :=
  history s = skipn (length es - 100) es
  /\ currentIndex s = len (history s) - 1
  /\ maxHistorySize s = 100.

Lemma tail_of_new : tail_of [] new.
Proof. repeat split. Qed.

Lemma record_at_tail es r s :
  tail_of es s ->
  tail_of (es ++ [entry_of r])
          (snd (record (fst (fst r)) (snd (fst r)) (snd r) s)).
Proof.
  destruct r as [[id now] e]. intros (Hh & Hc & Hm).
  pose proof (record_entry id now e s) as He.
  unfold record in *. cbn [fst snd] in *.
  assert (Hlt : (currentIndex s <? len (history s) - 1) = false)
    by (apply Z.ltb_ge; lia).
  rewrite Hlt in *. rewrite Hm in *.
  set (ne := {| id := id; intent := i_intent e; result := i_result e;
                timestamp := match i_timestamp e with
                             | Some d => d | None => now end;
                duration := i_duration e; metadata := i_metadata e |}) in *.
  assert (Hne : ne = entry_of (id, now, e)).
  { destruct (len (history s ++ [ne]) >? 100); exact He. }
  rewrite <- Hne. clear He Hne.
  assert (Hlen : length (history s) = (length es - (length es - 100))%nat).
  { rewrite Hh at 1. apply length_skipn. }
  unfold tail_of, len.
  destruct (Z.of_nat (length (history s ++ [ne])) >? 100) eqn:Hover;
    rewrite length_app in Hover; cbn [length] in Hover;
    cbn [snd history currentIndex maxHistorySize].
  - apply Z.gtb_lt in Hover.
    assert (Hl : length (history s) = 100%nat) by lia.
    rewrite slice_tail by lia. rewrite length_app, Hl. cbn [length].
    replace (100 + 1 - Z.to_nat 100)%nat with 1%nat by lia.
    split; [| split; reflexivity].
    rewrite !skipn_app, Hl, length_app. cbn [length].
    rewrite Hh, skipn_skipn.
    replace (1 + (length es - 100))%nat with (length es + 1 - 100)%nat by lia.
    replace (length es + 1 - 100 - length es)%nat with 0%nat by lia.
    reflexivity.
  - rewrite Z.gtb_ltb in Hover. apply Z.ltb_ge in Hover.
    split; [| split; reflexivity].
    rewrite skipn_app, length_app. cbn [length].
    replace (length es + 1 - 100)%nat with 0%nat by lia.
    rewrite Hh.
    replace (length es - 100)%nat with 0%nat by lia. reflexivity.
Qed.

Lemma record_all_tail rs : forall es s,
  tail_of es s -> tail_of (es ++ map entry_of rs) (record_all rs s).
Proof.
  induction rs as [| r rs IH]; intros es s H; cbn [map record_all fold_left].
  - rewrite app_nil_r. exact H.
  - replace (es ++ entry_of r :: map entry_of rs)
      with ((es ++ [entry_of r]) ++ map entry_of rs)
      by (rewrite <- app_assoc; reflexivity).
    apply IH. apply record_at_tail. exact H.
Qed.

(** [undo] moves the cursor only, and stops at [-1]. *)
Lemma undo_state s :
  snd (undo s) =
  if currentIndex s <? 0 then s
  else {| history := history s; currentIndex := currentIndex s - 1;
          maxHistorySize := maxHistorySize s |}.
Proof. unfold undo. destruct (currentIndex s <? 0); reflexivity. Qed.

Lemma undo_n_cursor m : forall s,
  -1 <= currentIndex s ->
  history (undo_n m s) = history s
  /\ maxHistorySize (undo_n m s) = maxHistorySize s
  /\ currentIndex (undo_n m s) = Z.max (currentIndex s - Z.of_nat m) (-1).
Proof.
  induction m as [| m IH]; intros s Hs.
  - cbn [undo_n]. repeat split. lia.
  - cbn [undo_n]. rewrite undo_state.
    destruct (currentIndex s <? 0) eqn:E.
    + apply Z.ltb_lt in E. destruct (IH s Hs) as (H1 & H2 & H3).
      repeat split; try assumption. rewrite H3. lia.
    + apply Z.ltb_ge in E.
      match goal with |- context [undo_n m ?s1] =>
        destruct (IH s1) as (H1 & H2 & H3) end.
      { cbn [currentIndex]. lia. }
      cbn [history currentIndex maxHistorySize] in *.
      repeat split; try assumption. rewrite H3. lia.
Qed.

Lemma undo_at_floor s : currentIndex s = -1 -> undo s = (None, s).
Proof. intros H. unfold undo. rewrite H. reflexivity. Qed.

Lemma redo_at_tail s :
  currentIndex s = len (history s) - 1 -> redo s = (None, s).
Proof.
  intros H. unfold redo. rewrite H.
  rewrite (proj2 (Z.geb_le _ _)) by lia. reflexivity.
Qed.


Lemma getCurrent_at s i :
  currentIndex s = Z.of_nat i -> (i < length (history s))%nat ->
  getCurrent s = nth_error (history s) i.
Proof.
  intros Hc Hi. unfold getCurrent, len. rewrite Hc.
  rewrite (proj2 (Z.ltb_ge _ _)) by lia.
  assert (E : (Z.of_nat i >=? Z.of_nat (length (history s))) = false)
    by (rewrite Z.geb_leb; apply Z.leb_gt; lia).
  rewrite E, Nat2Z.id. reflexivity.
Qed.

Lemma getCurrent_before_first s : currentIndex s = -1 -> getCurrent s = None.
Proof. intros H. unfold getCurrent. rewrite H. reflexivity. Qed.

(** ** What the non-recording operations can hand back *)

Lemma slice_incl {A} a b (l : list A) x : In x (slice a b l) -> In x l.
Proof.
  unfold slice. intros H.
  set (k := Z.to_nat (clamp (Z.of_nat (length l)) a)) in *.
  rewrite <- (firstn_skipn k l). apply in_or_app. right.
  match type of H with In _ (firstn ?n ?r) =>
    rewrite <- (firstn_skipn n r); apply in_or_app; left; exact H end.
Qed.

Lemma getCurrent_In s e : getCurrent s = Some e -> In e (history s).
Proof.
  unfold getCurrent. destruct (_ || _); [discriminate |].
  apply nth_error_In.
Qed.

Lemma answer_from_history q s :
  history (snd (answer q s)) = history s
  /\ forall x, In x (fst (answer q s)) -> In x (history s).
Proof.
  destruct q; cbn [answer].
  - unfold undo. destruct (currentIndex s <? 0); cbn [fst snd history].
    + split; [reflexivity | intros x []].
    + split; [reflexivity |].
      match goal with |- context [getCurrent ?s1] =>
        destruct (getCurrent s1) eqn:E; cbn [In]; intros x Hx;
        [destruct Hx as [<- | []]; apply (getCurrent_In s1 _ E) | destruct Hx]
      end.
  - unfold redo. destruct (currentIndex s >=? _); cbn [fst snd history].
    + split; [reflexivity | intros x []].
    + split; [reflexivity |].
      match goal with |- context [getCurrent ?s1] =>
        destruct (getCurrent s1) eqn:E; cbn [In]; intros x Hx;
        [destruct Hx as [<- | []]; apply (getCurrent_In s1 _ E) | destruct Hx]
      end.
  - cbn [fst snd]. split; [reflexivity |].
    destruct (getCurrent s) eqn:E; cbn [In]; intros x Hx;
      [destruct Hx as [<- | []]; apply (getCurrent_In s _ E) | destruct Hx].
  - cbn [fst snd getSnapshot entries]. split; [reflexivity | auto].
  - cbn [fst snd]. split; [reflexivity |].
    intros x Hx. apply filter_In in Hx. apply Hx.
  - cbn [fst snd]. split; [reflexivity |]. intros x. apply slice_incl.
Qed.

Lemma answers_from_history qs : forall s x,
  In x (answers qs s) -> In x (history s).
Proof.
  induction qs as [| q qs IH]; intros s x; cbn [answers]; [intros [] |].
  destruct (answer_from_history q s) as [Hh Hin].
  destruct (answer q s) as [es s']. cbn [fst snd] in *.
  intros H. apply in_app_or in H. destruct H as [H | H]; [auto |].
  rewrite <- Hh. apply IH. exact H.
Qed.

(** ** Recording in the middle of the history *)

Lemma record_in_middle id now e s :
  -1 <= currentIndex s < len (history s) - 1 ->
  len (history s) <= maxHistorySize s ->
  snd (record id now e s) =
  {| history := firstn (Z.to_nat (currentIndex s + 1)) (history s)
                  ++ [entry_of (id, now, e)];
     currentIndex := currentIndex s + 1;
     maxHistorySize := maxHistorySize s |}.
Proof.
  intros Hc Hcap. pose proof (record_entry id now e s) as He.
  unfold record in *.
  rewrite (proj2 (Z.ltb_lt _ _)) in * by lia.
  rewrite slice_prefix in * by lia.
  set (h2 := firstn _ _ ++ [_]) in *.
  assert (Hl : len h2 = currentIndex s + 2).
  { unfold h2, len. rewrite length_app, length_firstn. cbn [length].
    unfold len in *. lia. }
  assert (E : (len h2 >? maxHistorySize s) = false)
    by (rewrite Z.gtb_ltb; apply Z.ltb_ge; lia).
  rewrite E in *. cbn [fst snd] in *. unfold h2 at 1. rewrite He.
  f_equal. lia.
Qed.


(** ** The undo algebra *)

(** Two entries recorded, one undone: both are still there, and the
    cursor is on the first. *)
Example undo_keeps_entries :
  size (snd (undo (record_all [Samples.rec1; Samples.rec2] new))) = 2
  /\ getCurrent (snd (undo (record_all [Samples.rec1; Samples.rec2] new)))
     = Some (entry_of Samples.rec1).
Proof. split; reflexivity. Qed.

(** C6, as the claim states it, fails beyond the cap: after 101 calls
    of [record] on a fresh manager (and no [undo]) [size()] is 100. *)
Lemma size_capped_counterexample :
  let rs := repeat Samples.rec1 101 in
  size (undo_n 0 (record_all rs new)) <> Z.of_nat (length rs)
  /\ size (undo_n 0 (record_all rs new)) = 100.
Proof. vm_compute. split; [discriminate | reflexivity]. Qed.

(** C6 (amended): after [k] calls of [record] on a fresh manager and
    [m <= k] calls of [undo], [size()] is [min k 100] (undo removes
    nothing, record keeps the newest [maxHistorySize = 100] entries) and
    [getCurrent()] is the entry recorded by call number [k-1-m] when
    [m < min k 100], and null otherwise; so for [k <= 100] the size is
    [k] and the current entry is the one at index [k-1-m], null when
    [m = k].  [undo] at cursor [-1] and [redo] at cursor [length-1]
    return null and leave the manager as it is. *)
Theorem record_undo_algebra (rs : list recording) (m : nat) :
  (m <= length rs)%nat ->
  size (undo_n m (record_all rs new))
    = Z.min (Z.of_nat (length rs)) 100
  /\ getCurrent (undo_n m (record_all rs new))
     = (if Z.of_nat m <? Z.min (Z.of_nat (length rs)) 100
        then nth_error (map entry_of rs) (length rs - 1 - m)
        else None)
  /\ (forall s, currentIndex s = -1 -> undo s = (None, s))
  /\ (forall s, currentIndex s = len (history s) - 1 -> redo s = (None, s)).
Proof.
  intros Hm.
  destruct (record_all_tail rs [] new tail_of_new) as (Hh & Hc & _).
  cbn [app] in Hh.
  set (es := map entry_of rs) in *.
  assert (Hk : length es = length rs) by apply length_map.
  set (s0 := record_all rs new) in *.
  assert (Hlen : length (history s0) = (length rs - (length rs - 100))%nat).
  { rewrite Hh, length_skipn, Hk. reflexivity. }
  destruct (undo_n_cursor m s0) as (Uh & _ & Uc).
  { rewrite Hc. unfold len. lia. }
  rewrite Hc in Uc. unfold len in Uc.
  split; [| split; [| split]].
  - unfold size, len. rewrite Uh. lia.
  - destruct (Z.of_nat m <? Z.min (Z.of_nat (length rs)) 100) eqn:E.
    + apply Z.ltb_lt in E.
      rewrite (getCurrent_at _ (length (history s0) - 1 - m)%nat).
      * rewrite Hlen, Uh, Hh, nth_error_skipn, Hk. f_equal. lia.
      * rewrite Uc. lia.
      * rewrite Uh. lia.
    + apply Z.ltb_ge in E. apply getCurrent_before_first.
      rewrite Uc. lia.
  - exact undo_at_floor.
  - exact redo_at_tail.
Qed.

Lemma record_undo_algebra_witness :
  (1 <= length [Samples.rec1; Samples.rec2; Samples.rec3])%nat
  /\ size (undo_n 1 (record_all [Samples.rec1; Samples.rec2; Samples.rec3] new)) = 3
  /\ getCurrent (undo_n 1 (record_all [Samples.rec1; Samples.rec2; Samples.rec3] new))
     = Some (entry_of Samples.rec2).
Proof.
  split; [cbn; lia |].
  destruct (record_undo_algebra [Samples.rec1; Samples.rec2; Samples.rec3] 1)
    as (H1 & H2 & _); [cbn; lia |].
  split; [exact H1 | exact H2].
Defined.

(** ** Truncation on write *)

(** C7: recording while the cursor is before the tail drops every
    entry after the cursor and appends the new one; after
    [record(e1); record(e2); undo(); record(e3)] on a fresh manager
    [size()] is 2, [recent(2)] is [[e1; e3]], and no sequence of
    history operations hands [e2] back. *)
Theorem record_discards_redo_branch :
  (forall id now e s,
      -1 <= currentIndex s < len (history s) - 1 ->
      len (history s) <= maxHistorySize s ->
      history (snd (record id now e s))
      = firstn (Z.to_nat (currentIndex s + 1)) (history s)
          ++ [entry_of (id, now, e)]
      /\ currentIndex (snd (record id now e s))
         = len (history (snd (record id now e s))) - 1)
  /\ (forall r1 r2 r3 : recording,
      let s := snd (record (fst (fst r3)) (snd (fst r3)) (snd r3)
                      (snd (undo (record_all [r1; r2] new)))) in
      size s = 2
      /\ recent 2 s = [entry_of r1; entry_of r3]
      /\ (forall qs x, In x (answers qs s) ->
                       x = entry_of r1 \/ x = entry_of r3)
      /\ (fst (fst r2) <> fst (fst r1) -> fst (fst r2) <> fst (fst r3) ->
          forall qs, ~ In (entry_of r2) (answers qs s))).
Proof.
  split.
  - intros id now e s Hc Hcap.
    rewrite (record_in_middle id now e s Hc Hcap).
    cbn [history currentIndex]. split; [reflexivity |].
    unfold len in *. rewrite length_app, length_firstn. cbn [length]. lia.
  - intros [[id1 n1] e1] [[id2 n2] e2] [[id3 n3] e3]. cbn [fst snd].
    assert (Hs : history
              (snd (record id3 n3 e3
                 (snd (undo (record_all [(id1, n1, e1); (id2, n2, e2)] new)))))
            = [entry_of (id1, n1, e1); entry_of (id3, n3, e3)])
      by reflexivity.
    cbv zeta.
    set (s := snd (record id3 n3 e3 _)) in *.
    assert (Hreach : forall qs x, In x (answers qs s) ->
               x = entry_of (id1, n1, e1) \/ x = entry_of (id3, n3, e3)).
    { intros qs x Hx. apply answers_from_history in Hx. rewrite Hs in Hx.
      destruct Hx as [<- | [<- | []]]; auto. }
    split; [| split; [| split]].
    + unfold size. rewrite Hs. reflexivity.
    + unfold recent. rewrite Hs. reflexivity.
    + exact Hreach.
    + intros H21 H23 qs Hin.
      destruct (Hreach qs _ Hin) as [E | E];
        apply (f_equal id) in E; cbn in E; congruence.
Qed.

Lemma record_discards_redo_branch_witness :
  let s := snd (undo (record_all [Samples.rec1; Samples.rec2] new)) in
  (-1 <= currentIndex s < len (history s) - 1)
  /\ len (history s) <= maxHistorySize s
  /\ history (snd (record (lit "id-3") 3 (Samples.entry_input pricing 100) s))
     = [entry_of Samples.rec1; entry_of Samples.rec3]
  /\ ~ In (entry_of Samples.rec2)
         (answers [Undo; Redo; Recent 5; GetSnapshot]
            (snd (record (lit "id-3") 3 (Samples.entry_input pricing 100) s))).
Proof.
  cbv zeta.
  split; [cbn; lia |].
  split; [cbn; lia |].
  split.
  - apply (proj1 record_discards_redo_branch (lit "id-3") 3
             (Samples.entry_input pricing 100)).
    + cbn; lia.
    + cbn; lia.
  - apply (proj2 record_discards_redo_branch
             Samples.rec1 Samples.rec2 Samples.rec3).
    + vm_compute. discriminate.
    + vm_compute. discriminate.
Defined.

End HistoryFacts.

(* ================================================================== *)
(** * More on the history: cursor range, undo and redo, snapshots      *)
(* ================================================================== *)

Module HistoryMore.
Import StateManager.

Lemma state_eq (s : StateManager.t) h i :
  history s = h -> currentIndex s = i ->
  {| history := h; currentIndex := i; maxHistorySize := maxHistorySize s |} = s.
Proof. destruct s. cbn. intros -> ->. reflexivity. Qed.

Lemma record_in_range id now e s :
  HistoryRuns.in_range s ->
  HistoryRuns.in_range (snd (record id now e s))
  /\ currentIndex (snd (record id now e s))
     = len (history (snd (record id now e s))) - 1
  /\ getCurrent (snd (record id now e s)) = Some (fst (record id now e s)).
Proof.
  intros (Hc & Hl & Hm). unfold HistoryRuns.in_range, len in *.
  destruct (currentIndex s <? Z.of_nat (length (history s)) - 1) eqn:Hmid.
  - apply Z.ltb_lt in Hmid.
    assert (Hr := HistoryFacts.record_in_middle id now e s).
    unfold len in Hr. rewrite Hr by lia.
    rewrite HistoryFacts.record_entry.
    cbn [history currentIndex maxHistorySize].
    assert (Hlen : length (firstn (Z.to_nat (currentIndex s + 1)) (history s)
                           ++ [entry_of (id, now, e)])
                   = Z.to_nat (currentIndex s + 2)).
    { rewrite length_app, length_firstn. cbn [length]. lia. }
    rewrite Hlen. repeat split; try lia.
    rewrite (HistoryFacts.getCurrent_at _ (Z.to_nat (currentIndex s + 1))).
    + cbn [history]. rewrite nth_error_app2 by (rewrite length_firstn; lia).
      rewrite length_firstn.
      replace (_ - _)%nat with 0%nat by lia. reflexivity.
    + cbn [currentIndex]. lia.
    + cbn [history]. rewrite Hlen. lia.
  - apply Z.ltb_ge in Hmid.
    assert (Ht : HistoryFacts.tail_of (history s) s).
    { unfold HistoryFacts.tail_of, len.
      replace (length (history s) - 100)%nat with 0%nat by lia.
      repeat split; [lia | exact Hm]. }
    destruct (HistoryFacts.record_at_tail (history s) (id, now, e) s Ht)
      as (Hh & Hcur & Hmax).
    cbn [fst snd] in *. unfold len in *.
    rewrite HistoryFacts.record_entry.
    set (s' := snd (record id now e s)) in *.
    assert (Hlen : length (history s')
                   = (length (history s) + 1
                      - (length (history s) + 1 - 100))%nat).
    { rewrite Hh, length_skipn, length_app. cbn [length]. reflexivity. }
    repeat split; try lia.
    rewrite (HistoryFacts.getCurrent_at _ (length (history s') - 1)%nat);
      [| lia | lia].
    rewrite Hlen, Hh, nth_error_skipn, length_app. cbn [length].
    rewrite nth_error_app2 by lia.
    replace (_ - length (history s))%nat with 0%nat by lia. reflexivity.
Qed.

Lemma step_in_range s c :
  HistoryRuns.restores c = false ->
  HistoryRuns.in_range s -> HistoryRuns.in_range (HistoryRuns.step s c).
Proof.
  intros Hc H. destruct c as [id now e | | | |]; cbn [HistoryRuns.step];
    try discriminate.
  - apply record_in_range. exact H.
  - rewrite HistoryFacts.undo_state. destruct (currentIndex s <? 0) eqn:E;
      [exact H |].
    apply Z.ltb_ge in E. destruct H as (H1 & H2 & H3).
    unfold HistoryRuns.in_range. cbn [history currentIndex maxHistorySize]. lia.
  - unfold redo. destruct (currentIndex s >=? len (history s) - 1) eqn:E;
      [exact H |].
    rewrite Z.geb_leb in E. apply Z.leb_gt in E. destruct H as (H1 & H2 & H3).
    unfold HistoryRuns.in_range. cbn [snd history currentIndex maxHistorySize]. lia.
  - destruct H as (H1 & H2 & H3). unfold HistoryRuns.in_range, clear, len.
    cbn [history currentIndex maxHistorySize length Z.of_nat]. lia.
Qed.

Lemma run_in_range cs : forall s,
  Forall (fun c => HistoryRuns.restores c = false) cs ->
  HistoryRuns.in_range s -> HistoryRuns.in_range (HistoryRuns.run cs s).
Proof.
  induction cs as [| c cs IH]; intros s Hall H; [exact H |].
  inversion Hall; subst. cbn [HistoryRuns.run fold_left].
  apply IH; [assumption | apply step_in_range; assumption].
Qed.

Lemma new_in_range : HistoryRuns.in_range new.
Proof. unfold HistoryRuns.in_range, len. cbn. lia. Qed.

(** Whatever sequence of [record], [undo], [redo] and [clear] a fresh
    manager goes through, the cursor stays between [-1] and
    [length - 1] and the history holds at most 100 entries. *)
Theorem cursor_stays_in_range (cs : list HistoryRuns.call) :
  Forall (fun c => HistoryRuns.restores c = false) cs ->
  -1 <= currentIndex (HistoryRuns.run cs new)
     <= size (HistoryRuns.run cs new) - 1
  /\ size (HistoryRuns.run cs new) <= 100.
Proof.
  intros Hall.
  destruct (run_in_range cs new Hall new_in_range) as (H1 & H2 & _).
  unfold size. split; assumption.
Qed.

(** In any such state, [record] returns the entry that [getCurrent]
    then returns, leaves the cursor on the last entry, and leaves
    nothing to [redo]. *)
Theorem record_becomes_current (cs : list HistoryRuns.call) id now e :
  Forall (fun c => HistoryRuns.restores c = false) cs ->
  getCurrent (snd (record id now e (HistoryRuns.run cs new)))
    = Some (fst (record id now e (HistoryRuns.run cs new)))
  /\ StateManager.id (fst (record id now e (HistoryRuns.run cs new))) = id
  /\ redo (snd (record id now e (HistoryRuns.run cs new)))
     = (None, snd (record id now e (HistoryRuns.run cs new))).
Proof.
  intros Hall.
  pose proof (run_in_range cs new Hall new_in_range) as Hin.
  destruct (record_in_range id now e _ Hin) as (_ & Hcur & Hget).
  split; [exact Hget |]. split.
  - rewrite HistoryFacts.record_entry. reflexivity.
  - apply HistoryFacts.redo_at_tail. exact Hcur.
Qed.

Lemma undo_then_redo (s : StateManager.t) :
  0 <= currentIndex s <= len (history s) - 1 ->
  redo (snd (undo s)) = (getCurrent s, s).
Proof.
  intros H. rewrite HistoryFacts.undo_state.
  rewrite (proj2 (Z.ltb_ge _ _)) by lia.
  unfold redo. cbn [history currentIndex maxHistorySize].
  assert (E : (currentIndex s - 1 >=? len (history s) - 1) = false)
    by (rewrite Z.geb_leb; apply Z.leb_gt; lia).
  rewrite E.
  rewrite (state_eq s (history s) (currentIndex s - 1 + 1)) by (auto; lia).
  reflexivity.
Qed.

(** [redo] undoes [undo] and [undo] undoes [redo]: when the cursor is
    on an entry, [undo] then [redo] gives back the same state and
    returns that entry; when there is something to redo, [redo] then
    [undo] gives back the same state. *)
Theorem undo_redo_inverse (s : StateManager.t) :
  (0 <= currentIndex s <= len (history s) - 1 ->
   redo (snd (undo s)) = (getCurrent s, s))
  /\ (-1 <= currentIndex s < len (history s) - 1 ->
      undo (snd (redo s)) = (getCurrent s, s)).
Proof.
  split; intros H.
  - rewrite HistoryFacts.undo_state.
    rewrite (proj2 (Z.ltb_ge _ _)) by lia.
    unfold redo. cbn [history currentIndex maxHistorySize].
    assert (E : (currentIndex s - 1 >=? len (history s) - 1) = false)
      by (rewrite Z.geb_leb; apply Z.leb_gt; lia).
    rewrite E.
    rewrite (state_eq s (history s) (currentIndex s - 1 + 1)) by (auto; lia).
    reflexivity.
  - unfold redo.
    assert (E : (currentIndex s >=? len (history s) - 1) = false)
      by (rewrite Z.geb_leb; apply Z.leb_gt; lia).
    rewrite E. cbn [snd]. unfold undo. cbn [history currentIndex maxHistorySize].
    rewrite (proj2 (Z.ltb_ge _ _)) by lia.
    rewrite (state_eq s (history s) (currentIndex s + 1 - 1)) by (auto; lia).
    reflexivity.
Qed.


(** What [undo] and [redo] return is the entry the cursor lands on:
    undoing the first entry returns null although the cursor moves to
    [-1], and from there [redo] returns the first entry. *)
Theorem undo_returns_previous (s : StateManager.t) :
  0 <= currentIndex s <= len (history s) - 1 ->
  fst (undo s)
    = (if currentIndex s =? 0 then None
       else nth_error (history s) (Z.to_nat (currentIndex s - 1)))
  /\ currentIndex (snd (undo s)) = currentIndex s - 1
  /\ history (snd (undo s)) = history s
  /\ fst (redo (snd (undo s))) = nth_error (history s) (Z.to_nat (currentIndex s)).
Proof.
  intros H.
  assert (Hr := undo_then_redo s H).
  unfold undo in *. rewrite (proj2 (Z.ltb_ge _ _)) in * by lia.
  cbn [fst snd history currentIndex] in *. rewrite Hr. cbn [fst].
  split; [| split; [reflexivity | split; [reflexivity |]]].
  - destruct (currentIndex s =? 0) eqn:E.
    + apply Z.eqb_eq in E. apply HistoryFacts.getCurrent_before_first.
      cbn [currentIndex]. lia.
    + apply Z.eqb_neq in E.
      rewrite (HistoryFacts.getCurrent_at
                 {| history := history s; currentIndex := currentIndex s - 1;
                    maxHistorySize := maxHistorySize s |}
                 (Z.to_nat (currentIndex s - 1)));
        cbn [history currentIndex]; unfold len in *; [reflexivity | lia | lia].
  - apply (HistoryFacts.getCurrent_at s (Z.to_nat (currentIndex s)));
      unfold len in *; lia.
Qed.

(** ** Snapshots *)

Lemma step_cap s c :
  maxHistorySize (HistoryRuns.step s c) = maxHistorySize s.
Proof.
  destruct c as [id now e | | | | snap]; cbn [HistoryRuns.step].
  - unfold record. destruct (currentIndex s <? _); destruct (len _ >? _);
      reflexivity.
  - rewrite HistoryFacts.undo_state. destruct (currentIndex s <? 0); reflexivity.
  - unfold redo. destruct (currentIndex s >=? _); reflexivity.
  - reflexivity.
  - reflexivity.
Qed.

Lemma run_cap cs : forall s,
  maxHistorySize (HistoryRuns.run cs s) = maxHistorySize s.
Proof.
  induction cs as [| c cs IH]; intros s; [reflexivity |].
  cbn [HistoryRuns.run fold_left]. unfold HistoryRuns.run in IH.
  rewrite IH. apply step_cap.
Qed.

(** A snapshot brings the manager back: whatever calls were made after
    [getSnapshot()], [restoreSnapshot] of that snapshot restores the
    state it was taken in. *)
Theorem snapshot_round_trip (s : StateManager.t) (cs : list HistoryRuns.call) :
  restoreSnapshot (getSnapshot s) (HistoryRuns.run cs s) = s.
Proof.
  unfold restoreSnapshot, getSnapshot. cbn [entries s_currentIndex].
  rewrite run_cap. destruct s. reflexivity.
Qed.

(** ** recent and searchByIntentType *)

(** [recent(n)] is the last [n] entries for [n >= 1] (all of them when
    there are fewer); [recent(0)] is the whole history, since
    [slice(-0)] is [slice(0)]; a negative [n] drops the first [-n]
    entries instead. *)
Theorem recent_lengths (s : StateManager.t) (n : Z) :
  (1 <= n ->
   recent n s = skipn (length (history s) - Z.to_nat n) (history s)
   /\ Z.of_nat (length (recent n s)) = Z.min n (size s))
  /\ recent 0 s = history s
  /\ (n < 0 -> recent n s = skipn (Z.to_nat (- n)) (history s)).
Proof.
  unfold recent, size, len. split; [| split].
  - intros Hn. rewrite HistoryFacts.slice_tail by lia.
    split; [reflexivity |]. rewrite length_skipn. lia.
  - unfold slice, clamp. cbn [Z.opp Z.ltb Z.compare].
    rewrite Z.min_l by lia. cbn [Z.to_nat skipn]. rewrite Z.sub_0_r, Nat2Z.id.
    apply firstn_all.
  - intros Hn. unfold slice, clamp.
    rewrite (proj2 (Z.ltb_ge (- n) 0)) by lia.
    destruct (Z.min_spec (- n) (Z.of_nat (length (history s))))
      as [[H1 H2] | [H1 H2]]; rewrite H2.
    + apply firstn_all2. rewrite length_skipn. lia.
    + rewrite Nat2Z.id, skipn_all, Z.sub_diag. cbn [Z.to_nat firstn].
      symmetry. apply skipn_all2. lia.
Qed.

Lemma cursor_moves_keep_history cs : forall s,
  forallb HistoryRuns.moves_cursor_only cs = true ->
  history (HistoryRuns.run cs s) = history s.
Proof.
  induction cs as [| c cs IH]; intros s H; [reflexivity |].
  cbn [forallb] in H. apply andb_true_iff in H. destruct H as [Hc H].
  cbn [HistoryRuns.run fold_left]. unfold HistoryRuns.run in IH.
  rewrite IH by exact H.
  destruct c; try discriminate; cbn [HistoryRuns.step].
  - rewrite HistoryFacts.undo_state. destruct (currentIndex s <? 0); reflexivity.
  - unfold redo. destruct (currentIndex s >=? _); reflexivity.
Qed.

(** The queries read the whole log, not the part up to the cursor:
    after any number of [undo] and [redo], [size], [recent] and
    [searchByIntentType] answer as before, and [searchByIntentType]
    returns exactly the entries of that type, undone ones included. *)
Theorem queries_ignore_cursor (s : StateManager.t) (cs : list HistoryRuns.call)
    (ty : jsstring) (n : Z) :
  forallb HistoryRuns.moves_cursor_only cs = true ->
  size (HistoryRuns.run cs s) = size s
  /\ recent n (HistoryRuns.run cs s) = recent n s
  /\ searchByIntentType ty (HistoryRuns.run cs s) = searchByIntentType ty s
  /\ (forall e, In e (searchByIntentType ty (HistoryRuns.run cs s))
                <-> In e (history s) /\ type_name (type (intent e)) = ty).
Proof.
  intros H. pose proof (cursor_moves_keep_history cs s H) as Hh.
  unfold size, recent, searchByIntentType. rewrite Hh.
  split; [reflexivity |]. split; [reflexivity |]. split; [reflexivity |].
  intros e. rewrite filter_In. split.
  - intros [H1 H2]. split; [exact H1 |]. apply CacheFacts.eqb_eq. exact H2.
  - intros [H1 H2]. split; [exact H1 |]. apply CacheFacts.eqb_eq. exact H2.
Qed.

Lemma cursor_stays_in_range_witness :
  Forall (fun c => HistoryRuns.restores c = false) Samples.three_records
  /\ size (HistoryRuns.run Samples.three_records new) <= 100.
Proof.
  assert (H : Forall (fun c => HistoryRuns.restores c = false)
                Samples.three_records) by (repeat constructor).
  split; [exact H |].
  apply (cursor_stays_in_range Samples.three_records H).
Defined.

Lemma record_becomes_current_witness :
  Forall (fun c => HistoryRuns.restores c = false) Samples.three_records
  /\ getCurrent (snd (record (lit "id-4") 4 (Samples.entry_input export 5)
                        (HistoryRuns.run Samples.three_records new)))
     = Some (fst (record (lit "id-4") 4 (Samples.entry_input export 5)
                    (HistoryRuns.run Samples.three_records new))).
Proof.
  assert (H : Forall (fun c => HistoryRuns.restores c = false)
                Samples.three_records) by (repeat constructor).
  split; [exact H |].
  apply (record_becomes_current Samples.three_records (lit "id-4") 4
           (Samples.entry_input export 5) H).
Defined.

Lemma undo_redo_inverse_witness :
  let s := HistoryRuns.run Samples.three_records new in
  0 <= currentIndex s <= len (history s) - 1
  /\ redo (snd (undo s)) = (getCurrent s, s).
Proof.
  cbv zeta.
  assert (H : 0 <= currentIndex (HistoryRuns.run Samples.three_records new)
              <= len (history (HistoryRuns.run Samples.three_records new)) - 1)
    by (vm_compute; split; discriminate).
  split; [exact H |].
  apply (proj1 (undo_redo_inverse _) H).
Defined.

Lemma undo_returns_previous_witness :
  let s := HistoryRuns.run Samples.three_records new in
  0 <= currentIndex s <= len (history s) - 1
  /\ currentIndex (snd (undo s)) = currentIndex s - 1.
Proof.
  cbv zeta.
  assert (H : 0 <= currentIndex (HistoryRuns.run Samples.three_records new)
              <= len (history (HistoryRuns.run Samples.three_records new)) - 1)
    by (vm_compute; split; discriminate).
  split; [exact H |].
  apply (undo_returns_previous _ H).
Defined.

Lemma recent_lengths_witness :
  1 <= 5
  /\ Z.of_nat (length (recent 5 (HistoryRuns.run Samples.three_records new)))
     = Z.min 5 (size (HistoryRuns.run Samples.three_records new)).
Proof.
  split; [lia |].
  apply (proj1 (recent_lengths (HistoryRuns.run Samples.three_records new) 5)).
  lia.
Defined.

Lemma queries_ignore_cursor_witness :
  forallb HistoryRuns.moves_cursor_only [HistoryRuns.Undo; HistoryRuns.Undo] = true
  /\ size (HistoryRuns.run [HistoryRuns.Undo; HistoryRuns.Undo]
             (HistoryRuns.run Samples.three_records new))
     = size (HistoryRuns.run Samples.three_records new).
Proof.
  split; [reflexivity |].
  apply (queries_ignore_cursor _ [HistoryRuns.Undo; HistoryRuns.Undo]
           (lit "analyze") 2).
  reflexivity.
Defined.

End HistoryMore.

(* ================================================================== *)
(** * Properties of the recognizer                                     *)
(* ================================================================== *)

Module RecognizerFacts.
Import RegExp IntentRecognizer.

(** The four messages of the test suite, and the fallback. *)
Example recognize_analyze :
  let intent := recognize ascii_toLowerCase 0 (lit "/analyze 企业报告内容") in
  type intent = analyze /\ params intent = [].
Proof. split; reflexivity. Qed.

Example recognize_review :
  let intent := recognize ascii_toLowerCase 0 (lit "/review report-123") in
  type intent = review /\ params intent = [].
Proof. split; reflexivity. Qed.

Example recognize_pricing :
  let intent := recognize ascii_toLowerCase 0 (lit "/price saas 100 5000 10") in
  type intent = pricing /\ params intent = [(lit "amount", VNumber 100)].
Proof. split; reflexivity. Qed.

Example recognize_export :
  let intent := recognize ascii_toLowerCase 0 (lit "/export pdf") in
  type intent = export /\ params intent = [(lit "format", VString (lit "pdf"))].
Proof. split; reflexivity. Qed.

Example recognize_unknown :
  recognize ascii_toLowerCase 0 (lit "hello")
  = {| type := unknown;
       params := [(lit "raw", VString (lit "hello"))];
       confidence := 1 # 2 |}.
Proof. reflexivity. Qed.

(** A message matching patterns of two types goes to the earlier one. *)
Example recognize_earlier_type_wins :
  type (recognize ascii_toLowerCase 0 (lit "导出 合规 报告")) = analyze.
Proof. reflexivity. Qed.

Lemma first_match_skips before : forall rest trimmed,
  Forall (silent trimmed) before ->
  first_match (before ++ rest) trimmed = first_match rest trimmed.
Proof.
  induction before as [| [ty pats] before IH]; intros rest trimmed H;
    cbn [app first_match]; [reflexivity |].
  inversion H as [| ? ? Hrow H']; subst. unfold silent in Hrow. cbn [snd] in Hrow.
  rewrite Hrow. destruct ty; apply IH; exact H'.
Qed.

Lemma first_match_none table trimmed :
  Forall (silent trimmed) table -> first_match table trimmed = None.
Proof.
  intros H. rewrite <- (app_nil_r table). rewrite first_match_skips by exact H.
  reflexivity.
Qed.

Lemma first_match_here ty pats rest trimmed :
  ty <> unknown -> matches_any pats trimmed = true ->
  first_match ((ty, pats) :: rest) trimmed = Some ty.
Proof.
  intros Hty Hm. cbn [first_match]. rewrite Hm.
  destruct ty; try reflexivity. contradiction.
Qed.

(** The only row of ['unknown'] has no pattern. *)
Lemma unknown_row before pats after trimmed :
  patterns = before ++ (unknown, pats) :: after ->
  matches_any pats trimmed = false.
Proof.
  intros H.
  assert (Hin : In (unknown, pats) patterns)
    by (rewrite H; apply in_or_app; right; left; reflexivity).
  unfold patterns in Hin. cbn [In] in Hin.
  repeat (destruct Hin as [Hin | Hin]; [try discriminate |]).
  - injection Hin as <-. reflexivity.
  - destruct Hin.
Qed.

(** C9: [recognize] returns the type of the first row of the pattern
    table, in declaration order (analyze, review, pricing, export, help),
    that has a pattern matching the trimmed, lower-cased message; when no
    row has one, it returns type ['unknown'], params [{ raw: message }]
    and confidence [0.5]. *)
Theorem recognize_first_matching_row
    (toLowerCase : jsstring -> jsstring) (random : Q) (message : jsstring) :
  map fst patterns = [analyze; review; pricing; export; help; unknown]
  /\ (forall before ty pats after,
        patterns = before ++ (ty, pats) :: after ->
        Forall (silent (toLowerCase (trim message))) before ->
        matches_any pats (toLowerCase (trim message)) = true ->
        type (recognize toLowerCase random message) = ty)
  /\ (Forall (silent (toLowerCase (trim message))) patterns ->
      recognize toLowerCase random message
      = {| type := unknown;
           params := [(lit "raw", VString message)];
           confidence := 1 # 2 |}).
Proof.
  split; [reflexivity |]. split.
  - intros before ty pats after Htable Hbefore Hm. unfold recognize.
    rewrite Htable, first_match_skips by exact Hbefore.
    rewrite first_match_here; [reflexivity | | exact Hm].
    intros ->. rewrite (unknown_row _ _ _ _ Htable) in Hm. discriminate.
  - intros Hnone. unfold recognize.
    rewrite first_match_none by exact Hnone. reflexivity.
Qed.

Lemma recognize_first_matching_row_witness :
  Forall (silent (ascii_toLowerCase (trim Samples.review_message)))
         (firstn 1 patterns)
  /\ matches_any (snd (nth 1 patterns (unknown, [])))
                 (ascii_toLowerCase (trim Samples.review_message)) = true
  /\ type (recognize ascii_toLowerCase 0 Samples.review_message) = review.
Proof.
  assert (H1 : Forall (silent (ascii_toLowerCase (trim Samples.review_message)))
                 (firstn 1 patterns)).
  { repeat constructor. }
  assert (H2 : matches_any (snd (nth 1 patterns (unknown, [])))
                 (ascii_toLowerCase (trim Samples.review_message)) = true)
    by reflexivity.
  split; [exact H1 |]. split; [exact H2 |].
  apply (proj1 (proj2 (recognize_first_matching_row
                         ascii_toLowerCase 0 Samples.review_message))
           (firstn 1 patterns) review
           (snd (nth 1 patterns (unknown, []))) (skipn 2 patterns));
    [reflexivity | exact H1 | exact H2].
Defined.

End RecognizerFacts.

(* ================================================================== *)
(** * Further properties of the recognizer                             *)
(* ================================================================== *)

Module RecognizerMore.
Import RegExp IntentRecognizer.

(** ** The pattern of the pricing amount *)

Lemma star_run (R : Type) (p : N -> bool) (ds : jsstring) :
  forall post pos cap (k : continuation R) r,
    forallb p ds = true ->
    match post with [] => true | c :: _ => negb (p c) end = true ->
    k (pos + length ds)%nat post cap = Some r ->
    star R p pos (ds ++ post) cap k = Some r.
Proof.
  induction ds as [| d ds IH]; intros post pos cap k r Hds Hpost Hk.
  - cbn [app length] in *. rewrite Nat.add_0_r in Hk.
    destruct post as [| c post]; cbn [star]; [exact Hk |].
    apply negb_true_iff in Hpost. rewrite Hpost. exact Hk.
  - cbn [forallb] in Hds. apply andb_prop in Hds. destruct Hds as [Hd Hds].
    cbn [app star]. rewrite Hd.
    rewrite (IH post (S pos) cap k r Hds Hpost); [reflexivity |].
    cbn [length] in Hk. rewrite Nat.add_succ_r in Hk. exact Hk.
Qed.

Lemma firstn_length_app {A} (l r : list A) : firstn (length l) (l ++ r) = l.
Proof.
  induction l as [| x l IH]; cbn; [reflexivity | rewrite IH; reflexivity].
Qed.

Lemma search_number_here (ds post : jsstring) (pos : nat) :
  ds <> [] -> forallb digit ds = true ->
  match post with [] => true | c :: _ => negb (digit c) end = true ->
  search number_re pos (ds ++ post) = Some (Some ds).
Proof.
  intros Hne Hds Hpost. destruct ds as [| d ds]; [contradiction |].
  cbn [forallb] in Hds. apply andb_prop in Hds. destruct Hds as [Hd Hds].
  cbn [app]. unfold search; fold search.
  cbn [number_re re source ignoreCase run]. rewrite Hd.
  rewrite (star_run _ digit ds post (S pos) None _
             (Some (d :: ds)) Hds Hpost); [reflexivity |].
  cbv beta. do 2 f_equal.
  replace (S pos + length ds - pos)%nat with (S (length ds)) by lia.
  cbn [firstn]. rewrite firstn_length_app. reflexivity.
Qed.

Lemma search_number_skips (pre : jsstring) : forall s pos,
  forallb (non digit) pre = true ->
  search number_re pos (pre ++ s) = search number_re (pos + length pre) s.
Proof.
  induction pre as [| c pre IH]; intros s pos Hpre.
  - cbn [app length]. rewrite Nat.add_0_r. reflexivity.
  - cbn [forallb] in Hpre. apply andb_prop in Hpre. destruct Hpre as [Hc Hpre].
    unfold non in Hc. apply negb_true_iff in Hc.
    cbn [app]. unfold search at 1; fold search.
    cbn [number_re re source ignoreCase run]. rewrite Hc.
    rewrite (IH s (S pos) Hpre). cbn [length]. rewrite Nat.add_succ_r.
    reflexivity.
Qed.

Lemma search_number_none (s : jsstring) : forall pos,
  forallb (non digit) s = true -> search number_re pos s = None.
Proof.
  induction s as [| c s IH]; intros pos Hs.
  - reflexivity.
  - cbn [forallb] in Hs. apply andb_prop in Hs. destruct Hs as [Hc Hs].
    unfold non in Hc. apply negb_true_iff in Hc.
    unfold search; fold search.
    cbn [number_re re source ignoreCase run]. rewrite Hc. apply IH. exact Hs.
Qed.

(** The [amount] of a pricing request is [parseInt] of the first run
    of decimal digits of the message: whatever stands before it (no
    digit) and after it (not starting with a digit), a message
    [pre ++ digits ++ post] gives [{amount: parseInt(digits)}], which is
    the number the digits denote when that is below [2^53] (beyond, it
    is the nearest double); a message without a digit gives no params
    at all.  Later numbers of the message are ignored. *)
Theorem pricing_amount_is_first_number (pre ds post : jsstring) :
  (forallb (non digit) pre = true -> ds <> [] -> forallb digit ds = true ->
   match post with [] => true | c :: _ => negb (digit c) end = true ->
   extractParams (pre ++ ds ++ post) pricing
   = [(lit "amount", number (parseInt ds))]
   /\ (decimal ds < 2 ^ 53 ->
       extractParams (pre ++ ds ++ post) pricing
       = [(lit "amount", VNumber (decimal ds))]))
  /\ (forallb (non digit) pre = true -> extractParams pre pricing = []).
Proof.
  split.
  - intros Hpre Hne Hds Hpost.
    assert (E : extractParams (pre ++ ds ++ post) pricing
                = [(lit "amount", number (parseInt ds))]).
    { unfold extractParams, match1.
      rewrite (search_number_skips pre (ds ++ post) 0 Hpre).
      rewrite (search_number_here ds post _ Hne Hds Hpost). reflexivity. }
    split; [exact E |].
    intros Hsmall. rewrite E. unfold parseInt, double_of_Z.
    rewrite (proj2 (Z.ltb_lt _ _) Hsmall). reflexivity.
  - intros Hpre. unfold extractParams, match1.
    rewrite (search_number_none pre 0 Hpre). reflexivity.
Qed.

Lemma pricing_amount_is_first_number_witness :
  forallb (non digit) (lit "/price saas ") = true
  /\ lit "100" <> []
  /\ forallb digit (lit "100") = true
  /\ match lit " 5000 10" with [] => true | c :: _ => negb (digit c) end = true
  /\ decimal (lit "100") < 2 ^ 53
  /\ extractParams (lit "/price saas " ++ lit "100" ++ lit " 5000 10") pricing
     = [(lit "amount", VNumber (decimal (lit "100")))].
Proof.
  assert (H1 : forallb (non digit) (lit "/price saas ") = true) by reflexivity.
  assert (H2 : lit "100" <> []) by discriminate.
  assert (H3 : forallb digit (lit "100") = true) by reflexivity.
  assert (H4 : match lit " 5000 10" with
               | [] => true
               | c :: _ => negb (digit c)
               end = true) by reflexivity.
  assert (H5 : decimal (lit "100") < 2 ^ 53) by reflexivity.
  split; [exact H1 |]. split; [exact H2 |]. split; [exact H3 |].
  split; [exact H4 |]. split; [exact H5 |].
  apply (proj2 (proj1 (pricing_amount_is_first_number
                         (lit "/price saas ") (lit "100") (lit " 5000 10"))
                  H1 H2 H3 H4) H5).
Defined.

(** ** Commands *)

Lemma strip_prefix ic (l rest : jsstring) : strip ic l (l ++ rest) = Some rest.
Proof.
  induction l as [| x l IH]; cbn [app strip]; [reflexivity |].
  rewrite N.eqb_refl. exact IH.
Qed.

(** A message that, trimmed and lowercased, begins with [/analyze] is
    always an analyze request, whatever follows: its row is the first
    of the table.  The later commands have no such guarantee: a message
    beginning with [/review] that mentions a keyword of the analyze row
    is an analyze request. *)
Theorem analyze_command_always_wins (toLowerCase : jsstring -> jsstring)
    (random : Q) (message rest : jsstring) :
  toLowerCase (trim message) = lit "/analyze" ++ rest ->
  type (recognize toLowerCase random message) = analyze
  /\ type (recognize ascii_toLowerCase random (lit "/review 合规报告")) = analyze.
Proof.
  intros H. split; [| reflexivity].
  unfold recognize. rewrite H.
  assert (E : first_match patterns (lit "/analyze" ++ rest) = Some analyze).
  { unfold patterns. cbn [first_match].
    unfold matches_any. cbn [existsb].
    assert (T : test (re_i (Seq Start (Lit (lit "/analyze"))))
                  (lit "/analyze" ++ rest) = true).
    { unfold test.
      destruct (lit "/analyze" ++ rest) as [| c s] eqn:Es;
        [vm_compute in Es; discriminate |].
      rewrite <- Es. clear Es.
      assert (S0 : search (re_i (Seq Start (Lit (lit "/analyze")))) 0
                     (lit "/analyze" ++ rest) = Some None).
      { destruct (lit "/analyze" ++ rest) as [| c' s'] eqn:Es';
          unfold search; fold search;
          cbn [re_i source ignoreCase run Nat.eqb];
          rewrite <- ?Es'; rewrite strip_prefix; reflexivity. }
      rewrite S0. reflexivity. }
    rewrite T. reflexivity. }
  rewrite E. reflexivity.
Qed.

Lemma analyze_command_always_wins_witness :
  ascii_toLowerCase (trim (lit "  /Analyze 报告 "))
  = lit "/analyze" ++ lit " 报告"
  /\ type (recognize ascii_toLowerCase 0 (lit "  /Analyze 报告 ")) = analyze.
Proof.
  assert (H : ascii_toLowerCase (trim (lit "  /Analyze 报告 "))
              = lit "/analyze" ++ lit " 报告") by reflexivity.
  split; [exact H |].
  apply (analyze_command_always_wins ascii_toLowerCase 0
           (lit "  /Analyze 报告 ") (lit " 报告") H).
Defined.

(** ** Confidence *)

Lemma first_match_known table trimmed ty :
  first_match table trimmed = Some ty -> ty <> unknown.
Proof.
  induction table as [| [ty0 pats] table IH]; cbn [first_match];
    [discriminate |].
  destruct ty0; try exact IH;
    (destruct (matches_any pats trimmed); [intros [= <-]; discriminate | exact IH]).
Qed.

(** The confidence tells a match from the fallback: for a random number
    in [0, 1), an intent of type ['unknown'] has confidence 0.5, and
    every other intent a confidence between the doubles 0.85 and 0.95,
    both of which are reached: 0.85 for the random number 0, and 0.95
    for the double next below 1, where the sum rounds up. *)
Theorem confidence_range (toLowerCase : jsstring -> jsstring) (random : Q)
    (message : jsstring) :
  (0 <= random)%Q -> (random < 1)%Q ->
  let intent := recognize toLowerCase random message in
  ((type intent = unknown /\ confidence intent = 1 # 2)
   \/ (type intent <> unknown
       /\ (literal (85 # 100) <= confidence intent)%Q
       /\ (confidence intent <= literal (95 # 100))%Q))
  /\ (type intent <> unknown ->
      (confidence (recognize toLowerCase 0 message) == literal (85 # 100))%Q
      /\ (confidence
            (recognize toLowerCase
               (9007199254740991 # 9007199254740992) message)
          == literal (95 # 100))%Q).
Proof.
  intros H0 H1. cbv zeta. unfold recognize.
  destruct (first_match patterns (toLowerCase (trim message))) as [ty |] eqn:E;
    cbn [type confidence].
  - split; [right; split; [exact (first_match_known _ _ _ E) |]
           | intros _; split; vm_compute; reflexivity].
    assert (Hc : (0 < literal (1 # 10))%Q) by reflexivity.
    assert (Ht0 : (0 <= fmul random (literal (1 # 10)))%Q).
    { apply (DoubleFacts.round_double_mono 0); [apply Qle_refl |].
      apply Qmult_le_0_compat; [exact H0 | apply Qlt_le_weak; exact Hc]. }
    assert (Ht1 : (fmul random (literal (1 # 10)) <= literal (1 # 10))%Q).
    { apply Qle_trans with (round_double (literal (1 # 10)));
        [| vm_compute; discriminate].
      apply DoubleFacts.round_double_mono.
      - apply Qmult_le_0_compat; [exact H0 | apply Qlt_le_weak; exact Hc].
      - rewrite <- (Qmult_1_l (literal (1 # 10))) at 2.
        apply Qmult_le_compat_r;
          [apply Qlt_le_weak; exact H1 | apply Qlt_le_weak; exact Hc]. }
    assert (H85 : (0 <= literal (85 # 100))%Q) by (vm_compute; discriminate).
    split.
    + apply Qle_trans with (round_double (literal (85 # 100)));
        [vm_compute; discriminate |].
      apply DoubleFacts.round_double_mono; [exact H85 |].
      rewrite <- (Qplus_0_r (literal (85 # 100))) at 1.
      apply Qplus_le_r. exact Ht0.
    + apply Qle_trans
        with (round_double (literal (85 # 100) + literal (1 # 10)));
        [| vm_compute; discriminate].
      apply DoubleFacts.round_double_mono.
      * apply Qle_trans with (literal (85 # 100) + 0)%Q;
          [rewrite Qplus_0_r; exact H85 | apply Qplus_le_r; exact Ht0].
      * apply Qplus_le_r. exact Ht1.
  - split; [left; split; reflexivity | intros H; contradiction H; reflexivity].
Qed.

Lemma confidence_range_witness :
  (0 <= 1 # 2)%Q /\ (1 # 2 < 1)%Q
  /\ type (recognize ascii_toLowerCase (1 # 2) (lit "/price 42")) <> unknown
  /\ (confidence
        (recognize ascii_toLowerCase
           (9007199254740991 # 9007199254740992) (lit "/price 42"))
      == literal (95 # 100))%Q.
Proof.
  assert (H0 : (0 <= 1 # 2)%Q) by (vm_compute; discriminate).
  assert (H1 : (1 # 2 < 1)%Q) by reflexivity.
  assert (Hty : type (recognize ascii_toLowerCase (1 # 2) (lit "/price 42"))
                <> unknown) by (vm_compute; discriminate).
  split; [exact H0 |]. split; [exact H1 |]. split; [exact Hty |].
  exact (proj2 (proj2 (confidence_range ascii_toLowerCase (1 # 2)
                         (lit "/price 42") H0 H1) Hty)).
Defined.

End RecognizerMore.

(* ================================================================== *)
(** * Properties of the processor registry                             *)
(* ================================================================== *)

Module RegistryFacts.
Import ProcessorRegistry.

Lemma registry_get_set_same k p m : map_get k (map_set k p m) = Some p.
Proof.
  induction m as [| [k0 p0] r IH]; cbn [map_set map_get].
  - rewrite CacheFacts.eqb_refl. reflexivity.
  - destruct (eqb k0 k) eqn:E; cbn [map_get]; rewrite E; auto.
Qed.

Lemma registry_get_set_other k k' p m :
  k' <> k -> map_get k (map_set k' p m) = map_get k m.
Proof.
  intros Hne. induction m as [| [k0 p0] r IH]; cbn [map_set map_get].
  - rewrite (proj2 (CacheFacts.eqb_neq k' k) Hne). reflexivity.
  - destruct (eqb k0 k') eqn:E; cbn [map_get].
    + apply CacheFacts.eqb_eq in E. subst k0.
      rewrite (proj2 (CacheFacts.eqb_neq k' k) Hne). reflexivity.
    + rewrite IH. reflexivity.
Qed.

Lemma registry_length_set k p m :
  length (map_set k p m)
  = match map_get k m with Some _ => length m | None => S (length m) end.
Proof.
  induction m as [| [k0 p0] r IH]; cbn [map_set map_get length]; [reflexivity |].
  destruct (eqb k0 k); cbn [length]; [reflexivity |].
  rewrite IH. destruct (map_get k r); reflexivity.
Qed.

Lemma split_at_sign (a : jsstring) : forall a' r r',
  existsb (N.eqb 64) a = false -> existsb (N.eqb 64) a' = false ->
  a ++ 64%N :: r = a' ++ 64%N :: r' -> a = a' /\ r = r'.
Proof.
  induction a as [| x a IH]; intros [| y a'] r r' Ha Ha' E; cbn in *.
  - injection E as ->. auto.
  - injection E as <- _. rewrite orb_true_l in Ha'. discriminate.
  - injection E as -> _. rewrite orb_true_l in Ha. discriminate.
  - injection E as -> E. apply orb_false_elim in Ha, Ha'.
    destruct (IH a' r r' (proj2 Ha) (proj2 Ha') E) as [-> ->]. auto.
Qed.

Lemma key_inj ty ver ty' ver' :
  plain ty -> plain ty' -> key ty ver = key ty' ver' ->
  ty = ty' /\ or_latest ver = or_latest ver'.
Proof.
  unfold key, plain. change (lit "@") with [64%N]. cbn [app].
  intros H H'. apply split_at_sign; assumption.
Qed.

(** A processor is found again under its own type and version; one
    registered without a version, with the empty version or with
    ['latest'] is also the one [get(type)] returns. *)
Theorem register_then_get (m : ProcessorRegistry.t) (p : Agent.Processor) :
  get (Agent.p_type p) (Agent.version p) (register p m) = Some p
  /\ has (Agent.p_type p) (Agent.version p) (register p m) = true
  /\ (or_latest (Agent.version p) = lit "latest" ->
      get (Agent.p_type p) None (register p m) = Some p)
  /\ In p (getAll (register p m)).
Proof.
  unfold get, has, register.
  assert (H : map_get (key (Agent.p_type p) (Agent.version p))
                (map_set (key (Agent.p_type p) (Agent.version p)) p m) = Some p)
    by apply registry_get_set_same.
  rewrite H. split; [reflexivity |]. split; [reflexivity |]. split.
  - intros Hl. unfold key in *. cbn [or_latest]. rewrite <- Hl. exact H.
  - unfold getAll. apply in_map_iff.
    exists (key (Agent.p_type p) (Agent.version p), p). split; [reflexivity |].
    clear H. induction m as [| [k0 p0] r IH]; cbn [map_set].
    + left. reflexivity.
    + destruct (eqb k0 _) eqn:E.
      * apply CacheFacts.eqb_eq in E. subst. left. reflexivity.
      * right. exact IH.
Qed.

(** Registration is keyed by type and effective version: for type names
    without [@], registering a processor changes what [get] returns
    only under its own type and effective version, and the registry
    grows by one exactly when nothing was registered there before. *)
Theorem register_is_keyed (m : ProcessorRegistry.t) (p : Agent.Processor)
    (ty : jsstring) (ver : option jsstring) :
  plain ty -> plain (Agent.p_type p) ->
  (ty <> Agent.p_type p \/ or_latest ver <> or_latest (Agent.version p)) ->
  get ty ver (register p m) = get ty ver m
  /\ length (getAll (register p m))
     = (if has (Agent.p_type p) (Agent.version p) m
        then length (getAll m) else S (length (getAll m))).
Proof.
  intros Hty Hp Hne. unfold get, register, getAll, has. split.
  - apply registry_get_set_other. intros E. apply key_inj in E; try assumption.
    destruct E as [E1 E2]. destruct Hne as [Hne | Hne]; congruence.
  - rewrite !length_map, registry_length_set.
    destruct (map_get _ m); reflexivity.
Qed.

Lemma register_then_get_witness :
  or_latest (Agent.version Agent.createReviewProcessor) = lit "latest"
  /\ get (lit "review") None (register Agent.createReviewProcessor new)
     = Some Agent.createReviewProcessor.
Proof.
  split; [reflexivity |].
  apply (register_then_get new Agent.createReviewProcessor). reflexivity.
Defined.

Lemma register_is_keyed_witness :
  let m := register Agent.createComplianceProcessor new in
  plain (lit "compliance")
  /\ plain (Agent.p_type Agent.createReviewProcessor)
  /\ (lit "compliance" <> Agent.p_type Agent.createReviewProcessor
      \/ or_latest None <> or_latest (Agent.version Agent.createReviewProcessor))
  /\ get (lit "compliance") None (register Agent.createReviewProcessor m)
     = get (lit "compliance") None m.
Proof.
  cbv zeta.
  assert (H1 : plain (lit "compliance")) by reflexivity.
  assert (H2 : plain (Agent.p_type Agent.createReviewProcessor)) by reflexivity.
  assert (H3 : lit "compliance" <> Agent.p_type Agent.createReviewProcessor
               \/ or_latest None
                  <> or_latest (Agent.version Agent.createReviewProcessor))
    by (left; intros E; vm_compute in E; discriminate).
  split; [exact H1 |]. split; [exact H2 |]. split; [exact H3 |].
  apply (register_is_keyed _ Agent.createReviewProcessor (lit "compliance")
           None H1 H2 H3).
Defined.

End RegistryFacts.

(* ================================================================== *)
(** * Properties of the dispatcher                                     *)
(* ================================================================== *)

Module AgentFacts.
Import Agent.

(** ** The recorded entry follows its objects *)

Lemma map_last_app {A} (f : A -> A) (l : list A) (x : A) :
  map_last f (l ++ [x]) = l ++ [f x].
Proof.
  induction l as [| y l IH]; [reflexivity |].
  cbn [app]. change (map_last f (y :: l ++ [x]))
    with (match l ++ [x] with
          | [] => [f y]
          | _ :: _ => y :: map_last f (l ++ [x])
          end).
  rewrite IH. destruct l; reflexivity.
Qed.

Lemma slice_to_end {A} (start : Z) (l : list A) :
  slice start None l
  = skipn (Z.to_nat (clamp (Z.of_nat (length l)) start)) l.
Proof.
  unfold slice. apply firstn_all2. rewrite length_skipn.
  unfold clamp. destruct (start <? 0); lia.
Qed.

Lemma slice_last {A} (f : A -> A) (start : Z) (l : list A) (x : A) :
  map_last f (slice start None (l ++ [x])) = slice start None (l ++ [f x]).
Proof.
  rewrite !slice_to_end, !length_app. cbn [length].
  set (k := Z.to_nat _). rewrite !skipn_app.
  destruct (Nat.le_gt_cases k (length l)) as [Hk | Hk].
  - replace (k - length l)%nat with 0%nat by lia. cbn [skipn].
    apply map_last_app.
  - rewrite (skipn_all2 l) by lia.
    destruct (k - length l)%nat as [| n] eqn:E; [lia |].
    cbn [app skipn]. destruct n; reflexivity.
Qed.

(** Recording an entry and then changing the objects it refers to
    leaves what recording the changed objects would have left. *)
Lemma sync_record (h : Handled) id now input s :
  sync_last h (snd (StateManager.record id now input s))
  = snd (StateManager.record id now
           {| StateManager.i_intent :=
                recorded_intent (StateManager.i_intent input) h;
              StateManager.i_result := h_result h;
              StateManager.i_timestamp := StateManager.i_timestamp input;
              StateManager.i_duration := StateManager.i_duration input;
              StateManager.i_metadata := StateManager.i_metadata input |} s).
Proof.
  unfold StateManager.record, sync_last.
  cbn [StateManager.i_intent StateManager.i_result StateManager.i_timestamp
       StateManager.i_duration StateManager.i_metadata].
  set (h1 := if _ <? _ then _ else _).
  set (e := {| StateManager.id := id; StateManager.intent := StateManager.i_intent input |}).
  set (e' := {| StateManager.id := id;
                StateManager.intent := recorded_intent (StateManager.i_intent input) h |}).
  assert (Hl : StateManager.len (h1 ++ [e]) = StateManager.len (h1 ++ [e']))
    by (unfold StateManager.len; rewrite !length_app; reflexivity).
  assert (He : shared h e = e') by reflexivity.
  rewrite <- Hl.
  destruct (StateManager.len (h1 ++ [e]) >? StateManager.maxHistorySize s);
    cbn [snd StateManager.history StateManager.currentIndex
         StateManager.maxHistorySize].
  - rewrite slice_last, He. f_equal.
    unfold StateManager.len. rewrite !slice_to_end, !length_skipn, !length_app.
    reflexivity.
  - rewrite map_last_app, He. f_equal.
Qed.

Section Facts.

Variable clock : nat -> Z.
Variable random : nat -> Q.
Variable toLowerCase : jsstring -> jsstring.
Variable JSON_stringify : Params -> jsstring.
Variable base36 : Q -> jsstring.

Abbreviation handle := (handle clock random toLowerCase JSON_stringify base36).
Abbreviation dispatch := (dispatch clock random toLowerCase JSON_stringify base36).
Abbreviation process := (process clock random base36).
Abbreviation generateCacheKey := (generateCacheKey JSON_stringify).
Abbreviation perform := (perform clock random toLowerCase JSON_stringify base36).
Abbreviation perform_all := (perform_all clock random toLowerCase JSON_stringify base36).
Abbreviation recognized := (IntentRecognizer.recognize toLowerCase).

Ltac run_monad :=
  cbv [bind ret gets modify lift throw try_catch Date_now Math_random
       log_execution Agent.recognize generateId state_record cache_has
       cache_get cache_set call_execute run_before run_after history_on];
  cbn [self time_reads random_reads executions
       processors cache cache_sized stateManager options plugins
       with_cache with_stateManager fst snd].

Abbreviation at_ := (at_ clock).
Abbreviation intent_of := (intent_of random toLowerCase).
Abbreviation key_of := (key_of random toLowerCase JSON_stringify).
Abbreviation lookup := (lookup clock random toLowerCase JSON_stringify).
Abbreviation handler_outcome := (handler_outcome clock random toLowerCase).
Abbreviation history_step := (history_step clock random toLowerCase base36).
Abbreviation store := (store clock random toLowerCase JSON_stringify).
Abbreviation caught := (caught clock).

Ltac paths :=
  unfold Agent.handle, Agent.dispatch, Agent.process;
  run_monad;
  unfold Agent.store, Agent.history_step, Agent.history_input,
    Agent.reads_after_history, Agent.draws_after_history,
    Agent.history_enabled, Agent.handler_outcome, Agent.lookup,
    Agent.key_of, Agent.intent_of, Agent.at_, world in *;
  cbn [Nat.add fst snd] in *.

(** ** The six ways through [handle] *)

Lemma handle_before_threw ctx w e :
  before (plugins (self w)) ctx = Threw e ->
  handle ctx w = caught w (self w) 1 0 [] e.
Proof.
  intros H. paths. rewrite H. unfold Agent.caught, world.
  destruct (message_of e); run_monad; unfold Agent.at_; cbn [Nat.add];
    rewrite app_nil_r; reflexivity.
Qed.

Lemma handle_hit ctx w ctx1 :
  before (plugins (self w)) ctx = Returned ctx1 ->
  fst (lookup w ctx1) = true ->
  handle ctx w
  = (Returned
       {| pr_success := true;
          pr_artifact :=
            fst (SmartCache.get Artifact (at_ w 3) (at_ w 4) (key_of w ctx1)
                   (snd (lookup w ctx1)));
          fromCache := Some true;
          duration := at_ w 5 - at_ w 0;
          pr_error := None |},
     world (Agent.with_cache
              (snd (SmartCache.get Artifact (at_ w 3) (at_ w 4) (key_of w ctx1)
                      (snd (lookup w ctx1))))
              (self w))
           6 1 [] w).
Proof.
  intros H Hhit. paths. rewrite H.
  destruct (SmartCache.has _ _ _ _ _ _) as [hit c1]. cbn [fst snd] in *.
  subst hit. run_monad.
  destruct (SmartCache.get _ _ _ _ _) as [cached c2]. run_monad.
  rewrite app_nil_r. reflexivity.
Qed.

Lemma handle_not_found ctx w ctx1 :
  before (plugins (self w)) ctx = Returned ctx1 ->
  fst (lookup w ctx1) = false ->
  processors (self w) (type (intent_of w ctx1)) = None ->
  handle ctx w
  = (Returned (failure (at_ w 3 - at_ w 0)
                 (not_found_message (type (intent_of w ctx1)))),
     world (Agent.with_cache (snd (lookup w ctx1)) (self w)) 4 1 [] w).
Proof.
  intros H Hhit Hp. paths. rewrite H.
  destruct (SmartCache.has _ _ _ _ _ _) as [hit c1]. cbn [fst snd] in *.
  subst hit. run_monad. rewrite Hp. rewrite app_nil_r. reflexivity.
Qed.

Lemma handle_execute_threw ctx w ctx1 p e :
  before (plugins (self w)) ctx = Returned ctx1 ->
  fst (lookup w ctx1) = false ->
  processors (self w) (type (intent_of w ctx1)) = Some p ->
  handler_outcome w p ctx1 = Threw e ->
  handle ctx w
  = caught w (Agent.with_cache (snd (lookup w ctx1)) (self w)) 4 1
      [(type (intent_of w ctx1), params (intent_of w ctx1), Threw e)] e.
Proof.
  intros H Hhit Hp He. paths. rewrite H.
  destruct (SmartCache.has _ _ _ _ _ _) as [hit c1]. cbn [fst snd] in *.
  subst hit. run_monad. rewrite Hp. run_monad. rewrite He.
  unfold Agent.caught, world.
  destruct (message_of e); run_monad; unfold Agent.at_; cbn [Nat.add];
    reflexivity.
Qed.

Lemma handle_after_threw ctx w ctx1 p h h' e :
  before (plugins (self w)) ctx = Returned ctx1 ->
  fst (lookup w ctx1) = false ->
  processors (self w) (type (intent_of w ctx1)) = Some p ->
  handler_outcome w p ctx1 = Returned h ->
  after (plugins (self w)) h = (Threw e, h') ->
  handle ctx w
  = caught w
      (with_stateManager (history_step w ctx1 h h')
         (Agent.with_cache (snd (lookup w ctx1)) (self w)))
      (reads_after_history w) (draws_after_history w)
      [(type (intent_of w ctx1), params (intent_of w ctx1), Returned h)] e.
Proof.
  intros H Hhit Hp He Ha. paths. rewrite H.
  destruct (SmartCache.has _ _ _ _ _ _) as [hit c1]. cbn [fst snd] in *.
  subst hit. run_monad. rewrite Hp. run_monad. rewrite He.
  unfold Agent.caught, world in *.
  destruct (is_true (read (enableHistory (options (self w))))); run_monad.
  - destruct (StateManager.record _ _ _ _) as [e0 s']. run_monad.
    rewrite Ha. run_monad.
    destruct (message_of e); run_monad; unfold Agent.at_; cbn [Nat.add];
      reflexivity.
  - rewrite Ha. run_monad.
    destruct (message_of e); run_monad; unfold Agent.at_; cbn [Nat.add];
      reflexivity.
Qed.

Lemma handle_success ctx w ctx1 p h h' :
  before (plugins (self w)) ctx = Returned ctx1 ->
  fst (lookup w ctx1) = false ->
  processors (self w) (type (intent_of w ctx1)) = Some p ->
  handler_outcome w p ctx1 = Returned h ->
  after (plugins (self w)) h = (Returned tt, h') ->
  handle ctx w
  = (Returned
       {| pr_success := true;
          pr_artifact := artifact (h_result h');
          fromCache := Some false;
          duration := at_ w (snd (store w ctx1 h')) - at_ w 0;
          pr_error := None |},
     world (with_stateManager (history_step w ctx1 h h')
              (Agent.with_cache (fst (store w ctx1 h')) (self w)))
           (S (snd (store w ctx1 h'))) (draws_after_history w)
           [(type (intent_of w ctx1), params (intent_of w ctx1), Returned h)]
           w).
Proof.
  intros H Hhit Hp He Ha. paths. rewrite H.
  destruct (SmartCache.has _ _ _ _ _ _) as [hit c1]. cbn [fst snd] in *.
  subst hit. run_monad. rewrite Hp. run_monad. rewrite He.
  destruct (is_true (read (enableHistory (options (self w))))); run_monad.
  - destruct (StateManager.record _ _ _ _) as [e0 s']. run_monad.
    rewrite Ha. run_monad. destruct (artifact (h_result h')); reflexivity.
  - rewrite Ha. run_monad. destruct (artifact (h_result h')); reflexivity.
Qed.

(** Case analysis on the way a call of [handle] goes: rewrites
    [handle ctx w] into its result and final world on each path. *)
Ltac by_paths ctx w :=
  let ctx1 := fresh "ctx1" in
  let p := fresh "p" in
  let h := fresh "h" in
  let h' := fresh "h'" in
  let e := fresh "e" in
  let Hb := fresh "Hb" in
  let Hl := fresh "Hl" in
  let Hp := fresh "Hp" in
  let He := fresh "He" in
  let Ha := fresh "Ha" in
  destruct (before (plugins (self w)) ctx) as [ctx1 | e] eqn:Hb;
  [ destruct (fst (lookup w ctx1)) eqn:Hl;
    [ rewrite (handle_hit ctx w ctx1 Hb Hl) in *
    | destruct (processors (self w) (type (intent_of w ctx1))) as [p |] eqn:Hp;
      [ destruct (handler_outcome w p ctx1) as [h | e] eqn:He;
        [ destruct (after (plugins (self w)) h) as [[[] | e] h'] eqn:Ha;
          [ rewrite (handle_success ctx w ctx1 p h h' Hb Hl Hp He Ha) in *
          | rewrite (handle_after_threw ctx w ctx1 p h h' e Hb Hl Hp He Ha) in * ]
        | rewrite (handle_execute_threw ctx w ctx1 p e Hb Hl Hp He) in * ]
      | rewrite (handle_not_found ctx w ctx1 Hb Hl Hp) in * ] ]
  | rewrite (handle_before_threw ctx w e Hb) in * ].

Lemma caught_world w a n draws xs e :
  self (snd (caught w a n draws xs e)) = a
  /\ executions (snd (caught w a n draws xs e)) = executions w ++ xs.
Proof. unfold Agent.caught. destruct (message_of e); split; reflexivity. Qed.

(** [handle] leaves the processors, the plugins and the options alone. *)
Lemma handle_frame ctx w :
  processors (self (snd (handle ctx w))) = processors (self w)
  /\ plugins (self (snd (handle ctx w))) = plugins (self w)
  /\ options (self (snd (handle ctx w))) = options (self w).
Proof.
  by_paths ctx w; rewrite ?(proj1 (caught_world _ _ _ _ _ _)); repeat split.
Qed.


(** ** Cache keys *)

Lemma split_at_colon (a : jsstring) : forall a' r r',
  existsb (N.eqb 58) a = false -> existsb (N.eqb 58) a' = false ->
  a ++ 58%N :: r = a' ++ 58%N :: r' -> a = a' /\ r = r'.
Proof.
  induction a as [| x a IH]; intros [| y a'] r r' Ha Ha' E; cbn in *.
  - injection E as ->. auto.
  - injection E as <- _. rewrite orb_true_l in Ha'. discriminate.
  - injection E as -> _. rewrite orb_true_l in Ha. discriminate.
  - injection E as -> E. apply orb_false_elim in Ha, Ha'.
    destruct (IH a' r r' (proj2 Ha) (proj2 Ha') E) as [-> ->]. auto.
Qed.

Lemma channel_name_plain ch : existsb (N.eqb 58) (channel_name ch) = false.
Proof. destruct ch; reflexivity. Qed.

Lemma type_name_plain ty : existsb (N.eqb 58) (type_name ty) = false.
Proof. destruct ty; reflexivity. Qed.

Lemma type_name_inj ty ty' : type_name ty = type_name ty' -> ty = ty'.
Proof. destruct ty, ty'; intros H; try reflexivity; vm_compute in H; discriminate. Qed.

Lemma cache_key_type ch ty js ch' ty' js' :
  channel_name ch ++ lit ":" ++ type_name ty ++ lit ":" ++ js
  = channel_name ch' ++ lit ":" ++ type_name ty' ++ lit ":" ++ js' ->
  ty = ty'.
Proof.
  change (lit ":") with [58%N]. cbn [app]. intros E.
  apply split_at_colon in E; try apply channel_name_plain.
  destruct E as [_ E].
  apply split_at_colon in E; try apply type_name_plain.
  apply type_name_inj. apply E.
Qed.

Lemma unregistered_key_absent a ctx1 intent :
  keyed_by_registered a -> processors a (type intent) = None ->
  SmartCache.map_get Artifact (generateCacheKey intent ctx1)
    (SmartCache.cache Artifact (cache a)) = None.
Proof.
  intros Hinv Hp. apply CacheFacts.map_get_None. intros Hin.
  destruct (Hinv _ Hin) as (ch & ty & js & E & Hreg).
  unfold Agent.generateCacheKey in E. apply cache_key_type in E.
  subst ty. contradiction.
Qed.

Lemma lookup_keys_incl w ctx1 x :
  In x (SmartCache.keys Artifact (SmartCache.cache Artifact (snd (lookup w ctx1)))) ->
  In x (SmartCache.keys Artifact (SmartCache.cache Artifact (cache (self w)))).
Proof.
  unfold Agent.lookup. rewrite CacheFacts.has_state. apply CacheFacts.get_keys_incl.
Qed.

Lemma store_keys_incl sized now1 now2 key a c x :
  In x (SmartCache.keys Artifact
          (SmartCache.cache Artifact (cache_store sized now1 now2 key a c))) ->
  x = key \/ In x (SmartCache.keys Artifact (SmartCache.cache Artifact c)).
Proof.
  destruct sized; cbn [cache_store].
  - apply CacheFacts.set_keys_incl.
  - unfold set_unsized. cbn [SmartCache.cache SmartCache.with_cache].
    intros H. apply CacheFacts.keys_set in H. exact H.
Qed.

Lemma store_get sized now1 now2 key a c :
  SmartCache.map_get Artifact key
    (SmartCache.cache Artifact (cache_store sized now1 now2 key a c))
  = Some (SmartCache.fresh Artifact
            (SmartCache.r_ttlMs (SmartCache.options Artifact c)) now1 now2 a).
Proof.
  destruct sized; cbn [cache_store]; unfold SmartCache.set, set_unsized;
    cbn [SmartCache.cache SmartCache.with_cache];
    apply CacheFacts.map_get_set_same.
Qed.

Lemma handle_keyed ctx w :
  keyed_by_registered (self w) -> keyed_by_registered (self (snd (handle ctx w))).
Proof.
  intros Hinv.
  by_paths ctx w; rewrite ?(proj1 (caught_world _ _ _ _ _ _));
    cbn [snd self world]; intros k Hk;
    cbn [cache processors Agent.with_cache with_stateManager] in *.
  - apply CacheFacts.get_keys_incl in Hk. apply lookup_keys_incl in Hk. auto.
  - unfold Agent.store in Hk.
    destruct (artifact (h_result h')) as [a |]; cbn [fst] in Hk.
    + apply store_keys_incl in Hk. destruct Hk as [-> | Hk].
      * exists (channel ctx1), (type (intent_of w ctx1)),
          (JSON_stringify (params (intent_of w ctx1))).
        split; [reflexivity | congruence].
      * apply lookup_keys_incl in Hk. auto.
    + apply lookup_keys_incl in Hk. auto.
  - apply lookup_keys_incl in Hk. auto.
  - apply lookup_keys_incl in Hk. auto.
  - apply lookup_keys_incl in Hk. auto.
  - auto.
Qed.

Lemma registrations_keep (rs : list (IntentType * Processor)) : forall m ty,
  m ty <> None ->
  fold_left (fun m tp => processors_set (fst tp) (snd tp) m) rs m ty <> None.
Proof.
  induction rs as [| [ty0 p0] rs IH]; intros m ty H; cbn [fold_left fst snd];
    [exact H |].
  apply IH. unfold processors_set.
  destruct (IntentType_eq_dec ty ty0); [discriminate | exact H].
Qed.

Lemma use_keyed plugin w :
  keyed_by_registered (self w) ->
  keyed_by_registered (self (snd (use plugin w))).
Proof.
  intros Hinv k Hk.
  assert (Hc : cache (self (snd (use plugin w))) = cache (self w)).
  { unfold use, bind, modify. destruct (i_ending (install plugin)); reflexivity. }
  rewrite Hc in Hk. destruct (Hinv k Hk) as (ch & ty0 & js & E & Hreg).
  exists ch, ty0, js. split; [exact E |].
  assert (Hp : processors (self (snd (use plugin w)))
               = fold_left (fun m tp => processors_set (fst tp) (snd tp) m)
                           (i_registered (install plugin)) (processors (self w))).
  { unfold use, bind, modify. destruct (i_ending (install plugin)); reflexivity. }
  rewrite Hp. apply registrations_keep. exact Hreg.
Qed.

Lemma perform_keyed w c :
  keyed_by_registered (self w) -> keyed_by_registered (self (perform w c)).
Proof.
  intros Hinv.
  assert (Hb : forall m, keyed_by_registered
             (self (snd (builder_execute clock random toLowerCase
                           JSON_stringify base36 m w)))).
  { intros m. unfold builder_execute, bind, Date_now.
    apply handle_keyed. exact Hinv. }
  destruct c; cbn [Agent.perform]; try apply Hb.
  - apply handle_keyed. exact Hinv.
  - intros k Hk. cbn in Hk. destruct (Hinv k Hk) as (ch & ty0 & js & E & Hreg).
    exists ch, ty0, js. split; [exact E |]. cbn. unfold processors_set.
    destruct (IntentType_eq_dec ty0 ty); [discriminate | exact Hreg].
  - apply use_keyed. exact Hinv.
  - exact Hinv.
Qed.

Lemma reachable_keyed o cs :
  keyed_by_registered (self (perform_all cs (boot o))).
Proof.
  unfold Agent.perform_all.
  assert (H : keyed_by_registered (self (boot o))) by (intros k []).
  revert H. generalize (boot o).
  induction cs as [| c cs IH]; intros w H; cbn [fold_left]; [exact H |].
  apply IH. apply perform_keyed. exact H.
Qed.


Lemma lookup_unregistered w ctx1 :
  keyed_by_registered (self w) ->
  processors (self w) (type (intent_of w ctx1)) = None ->
  lookup w ctx1 = (false, cache (self w)).
Proof.
  intros Hinv Hp. unfold Agent.lookup. apply CacheFacts.has_absent.
  apply unregistered_key_absent; assumption.
Qed.


(** ** What a call appends to the log of handler invocations *)

Lemma app_only_head {A} (l xs : list A) : l ++ xs = l -> xs = [].
Proof.
  intros H. apply (app_inv_head l). rewrite app_nil_r. exact H.
Qed.

Lemma at_shift a reads draws xs w i :
  at_ (world a reads draws xs w) i = at_ w (i + reads).
Proof.
  unfold Agent.at_, world. cbn [time_reads]. f_equal. lia.
Qed.

(** ** History *)

Lemma history_step_recorded w ctx1 h h' :
  Agent.history_enabled w = true ->
  history_step w ctx1 h h'
  = snd (StateManager.record
           (of_Z (at_ w 6) ++ lit "-" ++ base36 (random (S (random_reads w))))
           (at_ w 7)
           {| StateManager.i_intent := recorded_intent (intent_of w ctx1) h';
              StateManager.i_result := h_result h';
              StateManager.i_timestamp := Some (at_ w 4);
              StateManager.i_duration := at_ w 5 - at_ w 0;
              StateManager.i_metadata := None |}
           (stateManager (self w))).
Proof.
  intros Hen. unfold Agent.history_step. rewrite Hen.
  rewrite sync_record. reflexivity.
Qed.

(** C4 (amended): when history is enabled, a call of [handle] records
    exactly one history entry when and only when the handler was invoked
    and returned; a cache hit, a missing handler, a throwing pre-hook
    and a thrown or rejected handler error record nothing.  The entry
    holds the intent, the handler's result object and the time elapsed
    since the call began; it refers to the intent's params and to the
    result object themselves, so it shows them in the state the
    post-hooks leave them in (the handler's own, when the hooks change
    nothing).  (The log [executions] tells the cases apart: it grows by
    one invocation, with its outcome, exactly when the handler runs.) *)
Theorem history_records_handler_results_only (ctx : AgentContext) (w : World) :
  let out := handle ctx w in
  let sm := stateManager (self w) in
  let sm' := stateManager (self (snd out)) in
  Agent.history_enabled w = true ->
  (executions (snd out) = executions w
   \/ exists x, executions (snd out) = executions w ++ [x])
  /\ (forall ty ps h,
        executions (snd out) = executions w ++ [(ty, ps, Returned h)] ->
        exists ctx1 p,
          before (plugins (self w)) ctx = Returned ctx1
          /\ type (intent_of w ctx1) = ty /\ params (intent_of w ctx1) = ps
          /\ processors (self w) ty = Some p
          /\ handler_outcome w p ctx1 = Returned h
          /\ sm' = snd (StateManager.record
                          (of_Z (at_ w 6) ++ lit "-"
                             ++ base36 (random (S (random_reads w))))
                          (at_ w 7)
                          {| StateManager.i_intent :=
                               recorded_intent (intent_of w ctx1)
                                 (snd (after (plugins (self w)) h));
                             StateManager.i_result :=
                               h_result (snd (after (plugins (self w)) h));
                             StateManager.i_timestamp := Some (at_ w 4);
                             StateManager.i_duration := at_ w 5 - at_ w 0;
                             StateManager.i_metadata := None |} sm)
          /\ (snd (after (plugins (self w)) h) = h ->
              sm' = snd (StateManager.record
                           (of_Z (at_ w 6) ++ lit "-"
                              ++ base36 (random (S (random_reads w))))
                           (at_ w 7)
                           {| StateManager.i_intent :=
                                recorded_intent (intent_of w ctx1) h;
                              StateManager.i_result := h_result h;
                              StateManager.i_timestamp := Some (at_ w 4);
                              StateManager.i_duration := at_ w 5 - at_ w 0;
                              StateManager.i_metadata := None |} sm)))
  /\ (forall ty ps e,
        executions (snd out) = executions w ++ [(ty, ps, Threw e)] -> sm' = sm)
  /\ (executions (snd out) = executions w -> sm' = sm)
  /\ (forall r, fst out = Returned r -> fromCache r = Some true ->
                executions (snd out) = executions w)
  /\ (forall ctx1,
        before (plugins (self w)) ctx = Returned ctx1 ->
        processors (self w) (type (intent_of w ctx1))
          = None ->
        executions (snd out) = executions w)
  /\ (forall e, before (plugins (self w)) ctx = Threw e ->
                executions (snd out) = executions w).
Proof.
  cbv zeta. intros Hen.
  pose proof (fun ctx1 h h' => history_step_recorded w ctx1 h h' Hen) as Hrec.
  by_paths ctx w;
    try (unfold Agent.caught; destruct (message_of e));
    cbn [fst snd self world executions stateManager
         Agent.with_cache with_stateManager].
  all: split; [first [left; apply app_nil_r | right; eexists; reflexivity] |].
  all: split;
    [intros ty ps h0 Hx; apply app_inv_head in Hx;
     first [discriminate
           | injection Hx as <- <- <-; exists ctx1, p;
             split; [reflexivity |]; split; [reflexivity |];
             split; [reflexivity |];
             split; [exact Hp |]; split; [exact He |];
             rewrite Ha; cbn [snd]; split; [apply Hrec |];
             intros ->; apply Hrec] |].
  all: split;
    [intros ty ps e' Hx; apply app_inv_head in Hx;
     first [discriminate | reflexivity] |].
  all: split;
    [intros Hx; first [reflexivity | apply app_only_head in Hx; discriminate] |].
  all: split;
    [intros r Hr Hc;
     first [apply app_nil_r | injection Hr as <-; discriminate | discriminate] |].
  all: split;
    [intros c1 Hc1 Hn; first [apply app_nil_r | congruence]
    | intros e' He'; first [apply app_nil_r | congruence]].
Qed.


(** ** Cache idempotence *)

Lemma key_of_eq w w' ctx1 ctx1' :
  channel ctx1' = channel ctx1 ->
  type (intent_of w' ctx1') = type (intent_of w ctx1) ->
  params (intent_of w' ctx1') = params (intent_of w ctx1) ->
  key_of w' ctx1' = key_of w ctx1.
Proof.
  intros Hc Ht Hp. unfold Agent.key_of, Agent.generateCacheKey.
  rewrite Hc, Ht, Hp. reflexivity.
Qed.

(** C1 (amended): take two consecutive calls of [handle] on one agent
    whose messages recognize to the same channel, intent type and
    params, where the first call misses the cache, finds a registered
    handler that returns, no hook throws, and the result object holds an
    artifact once the post-hooks are through, and where every clock
    reading of the two calls lies within one TTL of the start of the
    first.  Then the first call returns [fromCache = false] with that
    artifact, the second returns [fromCache = true] with that same
    artifact, and the handler is not invoked a second time. *)
Theorem repeated_request_served_from_cache
    (w : World) (ctxA ctxA1 : AgentContext) (p : Processor)
    (h h' : Handled) (a : Artifact) (ctxB ctxB1 : AgentContext) :
  let w1 := snd (handle ctxA w) in
  before (plugins (self w)) ctxA = Returned ctxA1 ->
  fst (lookup w ctxA1) = false ->
  processors (self w) (type (intent_of w ctxA1)) = Some p ->
  handler_outcome w p ctxA1 = Returned h ->
  after (plugins (self w)) h = (Returned tt, h') ->
  artifact (h_result h') = Some a ->
  before (plugins (self w)) ctxB = Returned ctxB1 ->
  channel ctxB1 = channel ctxA1 ->
  type (intent_of w1 ctxB1) = type (intent_of w ctxA1) ->
  params (intent_of w1 ctxB1) = params (intent_of w ctxA1) ->
  within_ttl clock w
    (SmartCache.r_ttlMs (SmartCache.options Artifact (cache (self w)))) ->
  exists rA rB w2,
    handle ctxA w = (Returned rA, w1)
    /\ handle ctxB w1 = (Returned rB, w2)
    /\ pr_success rA = true /\ fromCache rA = Some false
    /\ pr_artifact rA = Some a
    /\ pr_success rB = true /\ fromCache rB = Some true
    /\ pr_artifact rB = Some a
    /\ executions w1
       = executions w
           ++ [(type (intent_of w ctxA1), params (intent_of w ctxA1),
                Returned h)]
    /\ executions w2 = executions w1.
Proof.
  cbv zeta.
  intros Hb Hl Hp He Ha Hart HbB Hch Hty Hps Hwin.
  rewrite (handle_success ctxA w ctxA1 p h h' Hb Hl Hp He Ha) in *.
  cbn [snd] in *.
  set (m := reads_after_history w) in *.
  assert (Hstore : store w ctxA1 h'
                   = (cache_store (cache_sized (self w)) (at_ w m) (at_ w (S m))
                        (key_of w ctxA1) a (snd (lookup w ctxA1)),
                      S (S m))).
  { unfold Agent.store. rewrite Hart. reflexivity. }
  rewrite Hstore in *. cbn [fst snd] in *.
  set (c1 := snd (lookup w ctxA1)) in *.
  set (cS := cache_store (cache_sized (self w)) (at_ w m) (at_ w (S m))
               (key_of w ctxA1) a c1) in *.
  set (w1 := world _ _ _ _ w) in *.
  assert (Hkey : key_of w1 ctxB1 = key_of w ctxA1) by (apply key_of_eq; assumption).
  assert (Hc1 : SmartCache.options Artifact c1
                = SmartCache.options Artifact (cache (self w)))
    by (apply CacheFacts.has_options).
  set (ttl := SmartCache.r_ttlMs (SmartCache.options Artifact (cache (self w)))) in *.
  set (e := SmartCache.fresh Artifact ttl (at_ w m) (at_ w (S m)) a).
  assert (Hget : SmartCache.map_get Artifact (key_of w ctxA1)
                   (SmartCache.cache Artifact cS) = Some e).
  { unfold cS. rewrite store_get. unfold e, ttl. rewrite Hc1. reflexivity. }
  assert (Hm : (m <= 8)%nat).
  { unfold m, reads_after_history. destruct (history_enabled w); lia. }
  assert (Hlive : forall i, (i <= 4)%nat ->
                            at_ w1 i <= SmartCache.expiresAt Artifact e).
  { intros i Hi. unfold w1. rewrite at_shift.
    cbn [SmartCache.expiresAt e SmartCache.fresh].
    pose proof (Hwin (i + S (S (S m)))%nat). pose proof (Hwin m). lia. }
  assert (HbB1 : before (plugins (self w1)) ctxB = Returned ctxB1) by exact HbB.
  assert (Hlook : lookup w1 ctxB1
                  = (true,
                     SmartCache.with_cache Artifact cS
                       (SmartCache.map_set Artifact (key_of w ctxA1)
                          (SmartCache.touched Artifact (at_ w1 2) e)
                          (SmartCache.cache Artifact cS)))).
  { unfold Agent.lookup. rewrite Hkey.
    change (cache (self w1)) with cS.
    apply CacheFacts.has_live; [exact Hget | apply Hlive; lia | reflexivity]. }
  assert (HlB : fst (lookup w1 ctxB1) = true) by (rewrite Hlook; reflexivity).
  rewrite (handle_hit ctxB w1 ctxB1 HbB1 HlB).
  rewrite Hlook, Hkey. cbn [snd].
  rewrite (CacheFacts.get_live Artifact (at_ w1 3) (at_ w1 4) (key_of w ctxA1) _
             (SmartCache.touched Artifact (at_ w1 2) e)).
  - do 3 eexists. split; [reflexivity |]. split; [reflexivity |].
    cbn [pr_success fromCache pr_artifact fst snd executions world].
    repeat split; try assumption. apply app_nil_r.
  - cbn [SmartCache.cache SmartCache.with_cache].
    apply CacheFacts.map_get_set_same.
  - cbn [SmartCache.touched SmartCache.expiresAt]. apply Hlive. lia.
Qed.

End Facts.

(** ** Failures and the [catch] *)

(** C8: what is thrown inside the [try] block of [handle] (by a hook or
    by the handler) comes back as [{success: false, error}] with its
    message when the [catch] can describe the thrown value; when the
    message, once the pre-hooks are through, recognizes to an intent
    type without a registered processor (such as ['help'] and ['unknown']
    on a default agent), the result is the failure whose error is
    "未找到处理器: " followed by that intent type, and no handler runs.
    But a thrown value the [catch] cannot describe (an object without
    [toString], for which [String(error)] throws) leaves [handle] as an
    exception: when the handler throws such a value, [handle] throws
    what the conversion throws. *)
Theorem handle_rejects_undescribable_errors
    (clock : nat -> Z) (random : nat -> Q)
    (toLowerCase : jsstring -> jsstring)
    (JSON_stringify : Params -> jsstring) (base36 : Q -> jsstring) :
  (forall ctx w e w1,
      Agent.dispatch clock random toLowerCase JSON_stringify base36
        (clock (time_reads w)) ctx (snd (Date_now clock w)) = (Threw e, w1) ->
      (forall message, message_of e = inl message ->
         Agent.handle clock random toLowerCase JSON_stringify base36 ctx w
         = (Returned (failure (clock (time_reads w1) - clock (time_reads w))
                        message),
            snd (Date_now clock w1)))
      /\ (forall inner, message_of e = inr inner ->
            Agent.handle clock random toLowerCase JSON_stringify base36 ctx w
            = (Threw inner, w1)))
  /\ (forall o cs ctx ctx1,
      let w := Agent.perform_all clock random toLowerCase JSON_stringify
                 base36 cs (boot o) in
      let ty := type (Agent.intent_of random toLowerCase w ctx1) in
      before (plugins (self w)) ctx = Returned ctx1 ->
      processors (self w) ty = None ->
      fst (Agent.handle clock random toLowerCase JSON_stringify base36 ctx w)
      = Returned
          {| pr_success := false;
             pr_artifact := None;
             fromCache := None;
             duration := Agent.at_ clock w 3 - Agent.at_ clock w 0;
             pr_error := Some (lit "未找到处理器: " ++ type_name ty) |}
      /\ executions
           (snd (Agent.handle clock random toLowerCase JSON_stringify base36
                   ctx w))
         = executions w)
  /\ (forall o,
      processors (createAgent o) help = None
      /\ processors (createAgent o) unknown = None)
  /\ (forall ctx w ctx1 p inner,
      before (plugins (self w)) ctx = Returned ctx1 ->
      fst (Agent.lookup clock random toLowerCase JSON_stringify w ctx1) = false ->
      processors (self w) (type (Agent.intent_of random toLowerCase w ctx1))
        = Some p ->
      Agent.handler_outcome clock random toLowerCase w p ctx1
        = Threw (Opaque inner) ->
      fst (Agent.handle clock random toLowerCase JSON_stringify base36 ctx w)
      = Threw inner).
Proof.
  split; [| split; [| split]].
  - intros ctx w e w1 H. unfold Agent.handle.
    cbv [bind ret try_catch throw Date_now] in *. cbn [fst snd] in *.
    rewrite H. split.
    + intros message Hm. rewrite Hm. reflexivity.
    + intros inner Hm. rewrite Hm. reflexivity.
  - intros o cs ctx ctx1 w ty Hb Hp.
    pose proof (reachable_keyed clock random toLowerCase JSON_stringify base36
                  o cs) as Hinv.
    fold w in Hinv.
    pose proof (lookup_unregistered clock random toLowerCase JSON_stringify
                  w ctx1 Hinv Hp) as Hl.
    rewrite (handle_not_found clock random toLowerCase JSON_stringify base36
               ctx w ctx1 Hb); [| rewrite Hl; reflexivity | exact Hp].
    cbn [fst snd world executions]. split; [reflexivity | apply app_nil_r].
  - intros o. split; reflexivity.
  - intros ctx w ctx1 p inner Hb Hl Hp He.
    rewrite (handle_execute_threw clock random toLowerCase JSON_stringify
               base36 ctx w ctx1 p (Opaque inner) Hb Hl Hp He).
    reflexivity.
Qed.

Lemma handle_rejects_undescribable_errors_witness :
  let ctx := Samples.context "/analyze x" in
  let w := snd (registerProcessor analyze Samples.opaque_processor
                  Samples.default_agent) in
  before (plugins (self w)) ctx = Returned ctx
  /\ fst (Agent.lookup Samples.clock Samples.random ascii_toLowerCase
            Samples.render w ctx) = false
  /\ processors (self w)
       (type (Agent.intent_of Samples.random ascii_toLowerCase w ctx))
     = Some Samples.opaque_processor
  /\ Agent.handler_outcome Samples.clock Samples.random ascii_toLowerCase
       w Samples.opaque_processor ctx
     = Threw (Opaque (Error_ (lit "Cannot convert object to primitive value")))
  /\ fst (Samples.handle ctx w)
     = Threw (Error_ (lit "Cannot convert object to primitive value")).
Proof.
  cbv zeta.
  split; [reflexivity |]. split; [reflexivity |]. split; [reflexivity |].
  split; [reflexivity |].
  apply (proj2 (proj2 (proj2 (handle_rejects_undescribable_errors
           Samples.clock Samples.random ascii_toLowerCase Samples.render
           Samples.base36)))
           (Samples.context "/analyze x")
           (snd (registerProcessor analyze Samples.opaque_processor
                   Samples.default_agent))
           (Samples.context "/analyze x") Samples.opaque_processor
           (Error_ (lit "Cannot convert object to primitive value"))
           eq_refl eq_refl eq_refl eq_refl).
Defined.


(** ** History *)

(** C4, as the claim states it, fails on a default agent (history
    enabled): a call for ['/help'], which has no handler, leaves the
    history empty, and the second of two identical ['/analyze'] calls is
    served from the cache and leaves the history at one entry. *)
Lemma history_skips_counterexample :
  Agent.history_enabled Samples.default_agent = true
  /\ StateManager.size
       (stateManager
          (self (snd (Samples.handle (Samples.context "/help")
                        Samples.default_agent)))) = 0
  /\ StateManager.size
       (stateManager
          (self (snd (Samples.handle (Samples.context "/analyze x")
                        Samples.default_agent)))) = 1
  /\ StateManager.size
       (stateManager
          (self (snd (Samples.handle (Samples.context "/analyze x")
                        (snd (Samples.handle (Samples.context "/analyze x")
                                Samples.default_agent)))))) = 1.
Proof. vm_compute. repeat split. Qed.


Lemma history_records_handler_results_only_witness :
  let ctx := Samples.context "/analyze x" in
  let out := Agent.handle Samples.clock Samples.random ascii_toLowerCase
               Samples.render Samples.base36 ctx Samples.default_agent in
  Agent.history_enabled Samples.default_agent = true
  /\ executions (snd out)
     = executions Samples.default_agent
         ++ [(analyze, [], Returned Samples.report_handled)]
  /\ exists ctx1 p,
       before (plugins (self Samples.default_agent)) ctx = Returned ctx1
       /\ processors (self Samples.default_agent) analyze = Some p
       /\ Agent.handler_outcome Samples.clock Samples.random ascii_toLowerCase
            Samples.default_agent p ctx1 = Returned Samples.report_handled
       /\ StateManager.history (stateManager (self (snd out)))
          = [{| StateManager.id := lit "1006-k3j9x2m1q";
                StateManager.intent :=
                  {| type := analyze; params := [];
                     confidence :=
                       fadd (literal (85 # 100))
                            (fmul (1 # 2) (literal (1 # 10))) |};
                StateManager.result := Samples.report_result;
                StateManager.timestamp := 1004;
                StateManager.duration := 5;
                StateManager.metadata := None |}].
Proof.
  cbv zeta.
  assert (Hx : executions
                 (snd (Agent.handle Samples.clock Samples.random
                         ascii_toLowerCase Samples.render Samples.base36
                         (Samples.context "/analyze x") Samples.default_agent))
               = executions Samples.default_agent
                   ++ [(analyze, [], Returned Samples.report_handled)])
    by reflexivity.
  split; [reflexivity |]. split; [exact Hx |].
  destruct (proj1 (proj2 (history_records_handler_results_only
              Samples.clock Samples.random ascii_toLowerCase Samples.render
              Samples.base36 (Samples.context "/analyze x")
              Samples.default_agent eq_refl))
              analyze [] Samples.report_handled Hx)
    as (ctx1 & p & Hb & _ & _ & Hp & He & Hsm & _).
  exists ctx1, p. split; [exact Hb |]. split; [exact Hp |].
  split; [exact He |]. rewrite Hsm.
  injection Hb as <-. reflexivity.
Defined.

(** ** Cache idempotence, on concrete calls *)

(** C1, as the claim states it, fails on a default agent: two identical
    ['/help'] calls, one clock tick apart, both come back without a
    [fromCache] flag and without an artifact (there is no handler for
    ['help']); and of three identical ['/analyze'] calls, the second and
    the third form a pair whose first member returns [fromCache = true]. *)
Lemma cache_idempotence_counterexample :
  (exists r1 r2,
      fst (Samples.handle (Samples.context "/help") Samples.default_agent)
        = Returned r1
      /\ fst (Samples.handle (Samples.context "/help")
                (snd (Samples.handle (Samples.context "/help")
                        Samples.default_agent)))
         = Returned r2
      /\ fromCache r1 <> Some false
      /\ fromCache r2 <> Some true
      /\ pr_artifact r2 = None)
  /\ (exists r2 r3,
      fst (Samples.handle (Samples.context "/analyze x")
             (snd (Samples.handle (Samples.context "/analyze x")
                     Samples.default_agent)))
        = Returned r2
      /\ fst (Samples.handle (Samples.context "/analyze x")
                (snd (Samples.handle (Samples.context "/analyze x")
                        (snd (Samples.handle (Samples.context "/analyze x")
                                Samples.default_agent)))))
         = Returned r3
      /\ fromCache r2 <> Some false
      /\ fromCache r3 = Some true).
Proof.
  split.
  - do 2 eexists. split; [vm_compute; reflexivity |].
    split; [vm_compute; reflexivity |].
    cbn. repeat split; discriminate.
  - do 2 eexists. split; [vm_compute; reflexivity |].
    split; [vm_compute; reflexivity |].
    cbn. split; [discriminate | reflexivity].
Qed.


Lemma repeated_request_served_from_cache_witness :
  let ctx := Samples.context "/analyze x" in
  let w := Samples.default_agent in
  let w1 := snd (Samples.handle ctx w) in
  before (plugins (self w)) ctx = Returned ctx
  /\ fst (Agent.lookup Samples.clock Samples.random ascii_toLowerCase
            Samples.render w ctx) = false
  /\ processors (self w)
       (type (Agent.intent_of Samples.random ascii_toLowerCase w ctx))
     = Some createComplianceProcessor
  /\ Agent.handler_outcome Samples.clock Samples.random ascii_toLowerCase
       w createComplianceProcessor ctx = Returned Samples.report_handled
  /\ after (plugins (self w)) Samples.report_handled
     = (Returned tt, Samples.report_handled)
  /\ artifact (h_result Samples.report_handled) = Some Samples.report
  /\ within_ttl Samples.clock w
       (SmartCache.r_ttlMs (SmartCache.options Artifact (cache (self w))))
  /\ exists rB w2,
       Samples.handle ctx w1 = (Returned rB, w2)
       /\ fromCache rB = Some true
       /\ pr_artifact rB = Some Samples.report
       /\ executions w2 = executions w1.
Proof.
  cbv zeta.
  assert (Hwin : within_ttl Samples.clock Samples.default_agent
            (SmartCache.r_ttlMs
               (SmartCache.options Artifact (cache (self Samples.default_agent))))).
  { intros i Hi. unfold Agent.at_, Samples.clock.
    change (time_reads Samples.default_agent) with 0%nat.
    change (SmartCache.r_ttlMs _) with 300000. lia. }
  split; [reflexivity |]. split; [reflexivity |]. split; [reflexivity |].
  split; [reflexivity |]. split; [reflexivity |]. split; [reflexivity |].
  split; [exact Hwin |].
  destruct (repeated_request_served_from_cache
              Samples.clock Samples.random ascii_toLowerCase Samples.render
              Samples.base36 Samples.default_agent
              (Samples.context "/analyze x") (Samples.context "/analyze x")
              createComplianceProcessor
              Samples.report_handled Samples.report_handled Samples.report
              (Samples.context "/analyze x") (Samples.context "/analyze x")
              eq_refl eq_refl eq_refl eq_refl eq_refl eq_refl eq_refl eq_refl
              eq_refl eq_refl Hwin)
    as (rA & rB & w2 & _ & HB & _ & _ & _ & _ & Hc & Ha & _ & Hx).
  exists rB, w2. auto.
Defined.

End AgentFacts.

(* ================================================================== *)
(** * Further properties of the dispatcher                             *)
(* ================================================================== *)

Module AgentMore.
Import Agent.

Section More.

Variable clock : nat -> Z.
Variable random : nat -> Q.
Variable toLowerCase : jsstring -> jsstring.
Variable JSON_stringify : Params -> jsstring.
Variable base36 : Q -> jsstring.

Abbreviation handle := (handle clock random toLowerCase JSON_stringify base36).
Abbreviation generateCacheKey := (generateCacheKey JSON_stringify).
Abbreviation perform := (perform clock random toLowerCase JSON_stringify base36).
Abbreviation perform_all := (perform_all clock random toLowerCase JSON_stringify base36).
Abbreviation at_ := (at_ clock).
Abbreviation intent_of := (intent_of random toLowerCase).
Abbreviation key_of := (key_of random toLowerCase JSON_stringify).
Abbreviation lookup := (lookup clock random toLowerCase JSON_stringify).
Abbreviation handler_outcome := (handler_outcome clock random toLowerCase).
Abbreviation history_step := (history_step clock random toLowerCase base36).
Abbreviation store := (store clock random toLowerCase JSON_stringify).

Abbreviation caught := (caught clock).

(** Case analysis on the way a call of [handle] goes. *)
Ltac by_paths ctx w :=
  let ctx1 := fresh "ctx1" in
  let p := fresh "p" in
  let h := fresh "h" in
  let h' := fresh "h'" in
  let e := fresh "e" in
  let Hb := fresh "Hb" in
  let Hl := fresh "Hl" in
  let Hp := fresh "Hp" in
  let He := fresh "He" in
  let Ha := fresh "Ha" in
  destruct (before (plugins (self w)) ctx) as [ctx1 | e] eqn:Hb;
  [ destruct (fst (lookup w ctx1)) eqn:Hl;
    [ rewrite (AgentFacts.handle_hit clock random toLowerCase JSON_stringify
                 base36 ctx w ctx1 Hb Hl) in *
    | destruct (processors (self w) (type (intent_of w ctx1))) as [p |] eqn:Hp;
      [ destruct (handler_outcome w p ctx1) as [h | e] eqn:He;
        [ destruct (after (plugins (self w)) h) as [[[] | e] h'] eqn:Ha;
          [ rewrite (AgentFacts.handle_success clock random toLowerCase
                       JSON_stringify base36 ctx w ctx1 p h h'
                       Hb Hl Hp He Ha) in *
          | rewrite (AgentFacts.handle_after_threw clock random toLowerCase
                       JSON_stringify base36 ctx w ctx1 p h h' e
                       Hb Hl Hp He Ha) in * ]
        | rewrite (AgentFacts.handle_execute_threw clock random toLowerCase
                     JSON_stringify base36 ctx w ctx1 p e Hb Hl Hp He) in * ]
      | rewrite (AgentFacts.handle_not_found clock random toLowerCase
                   JSON_stringify base36 ctx w ctx1 Hb Hl Hp) in * ] ]
  | rewrite (AgentFacts.handle_before_threw clock random toLowerCase
               JSON_stringify base36 ctx w e Hb) in * ];
  try (unfold Agent.caught in *; destruct (message_of e) eqn:?).

(** ** Hooks *)

(** Hooks run in registration order.  A single plugin's hook, when it
    has one, is called on the objects as they are, and what it hands
    back or throws is the outcome; the hooks of [ps ++ qs] are those of
    [ps], then, if none of them threw, those of [qs] on what they left,
    and a throw ends the run.  [use] runs [install] first: when it
    returns, the plugin is pushed last, after those [install] pushed
    itself; when it throws, [use] throws the same value and the plugin
    is not pushed.  In [handle] a pre-hook that throws ends the call:
    the failure with its message is returned and no handler runs. *)
Theorem hooks_run_in_registration_order (ps qs : list Plugin) :
  (forall plugin ctx,
      before [plugin] ctx
      = match onBeforeProcess plugin with
        | Some hook => hook ctx
        | None => Returned ctx
        end)
  /\ (forall ctx,
      before (ps ++ qs) ctx
      = match before ps ctx with
        | Returned ctx' => before qs ctx'
        | Threw e => Threw e
        end)
  /\ (forall plugin h,
      after [plugin] h
      = match onAfterProcess plugin with
        | Some hook => hook h
        | None => (Returned tt, h)
        end)
  /\ (forall h,
      after (ps ++ qs) h
      = match after ps h with
        | (Returned _, h') => after qs h'
        | (Threw e, h') => (Threw e, h')
        end)
  /\ (forall plugin w,
      i_ending (install plugin) = None ->
      fst (use plugin w) = Returned tt
      /\ plugins (self (snd (use plugin w)))
         = plugins (self w) ++ i_plugins (install plugin) ++ [plugin])
  /\ (forall plugin w e,
      i_ending (install plugin) = Some e ->
      fst (use plugin w) = Threw e
      /\ plugins (self (snd (use plugin w)))
         = plugins (self w) ++ i_plugins (install plugin))
  /\ (forall ctx w e message,
      before (plugins (self w)) ctx = Threw e ->
      message_of e = inl message ->
      fst (handle ctx w) = Returned (failure (at_ w 1 - at_ w 0) message)
      /\ executions (snd (handle ctx w)) = executions w).
Proof.
  split; [| split; [| split; [| split; [| split; [| split]]]]].
  - intros plugin ctx. cbn [before].
    destruct (onBeforeProcess plugin) as [hook |]; [| reflexivity].
    destruct (hook ctx); reflexivity.
  - induction ps as [| p ps IH]; intros ctx; cbn [app before]; [reflexivity |].
    destruct (onBeforeProcess p) as [hook |]; [| apply IH].
    destruct (hook ctx) as [ctx' | e]; [apply IH | reflexivity].
  - intros plugin h. cbn [after].
    destruct (onAfterProcess plugin) as [hook |]; [| reflexivity].
    destruct (hook h) as [[[] | e] h']; reflexivity.
  - induction ps as [| p ps IH]; intros h; cbn [app after]; [reflexivity |].
    destruct (onAfterProcess p) as [hook |]; [| apply IH].
    destruct (hook h) as [[u | e] h']; [apply IH | reflexivity].
  - intros plugin w H. unfold use, bind, modify. rewrite H.
    cbn [fst snd self plugins]. rewrite <- app_assoc. split; reflexivity.
  - intros plugin w e H. unfold use, bind, modify, throw. rewrite H.
    cbn [fst snd self plugins]. split; reflexivity.
  - intros ctx w e message Hb Hm.
    rewrite (AgentFacts.handle_before_threw clock random toLowerCase
               JSON_stringify base36 ctx w e Hb).
    unfold Agent.caught. rewrite Hm. cbn [fst snd world executions].
    split; [reflexivity | apply app_nil_r].
Qed.

(** ** Cache hits *)

(** A live cache entry is what [handle] answers with, whatever is
    registered for the intent type (no processor, or another one than
    the one that produced the entry): the result is the stored artifact
    with [fromCache = true], no handler runs and nothing is recorded.
    The hit counts as two accesses of the entry, one for [has] and one
    for [get]. *)
Theorem live_entry_is_served (ctx : AgentContext) (w : World)
    (ctx1 : AgentContext) (e : SmartCache.CacheEntry Artifact) :
  before (plugins (self w)) ctx = Returned ctx1 ->
  SmartCache.map_get Artifact (key_of w ctx1)
    (SmartCache.cache Artifact (cache (self w))) = Some e ->
  at_ w 1 <= SmartCache.expiresAt Artifact e ->
  at_ w 3 <= SmartCache.expiresAt Artifact e ->
  fst (handle ctx w)
  = Returned {| pr_success := true;
                pr_artifact := Some (SmartCache.value Artifact e);
                fromCache := Some true;
                duration := at_ w 5 - at_ w 0;
                pr_error := None |}
  /\ executions (snd (handle ctx w)) = executions w
  /\ stateManager (self (snd (handle ctx w))) = stateManager (self w)
  /\ SmartCache.map_get Artifact (key_of w ctx1)
       (SmartCache.cache Artifact (cache (self (snd (handle ctx w)))))
     = Some {| SmartCache.value := SmartCache.value Artifact e;
               SmartCache.expiresAt := SmartCache.expiresAt Artifact e;
               SmartCache.accessCount := SmartCache.accessCount Artifact e + 2;
               SmartCache.lastAccessed := at_ w 4 |}.
Proof.
  intros Hb Hg H1 H3.
  assert (Hlook : lookup w ctx1
                  = (true,
                     SmartCache.with_cache Artifact (cache (self w))
                       (SmartCache.map_set Artifact (key_of w ctx1)
                          (SmartCache.touched Artifact (at_ w 2) e)
                          (SmartCache.cache Artifact (cache (self w)))))).
  { unfold Agent.lookup.
    apply CacheFacts.has_live; [exact Hg | exact H1 | reflexivity]. }
  assert (Hl : fst (lookup w ctx1) = true) by (rewrite Hlook; reflexivity).
  rewrite (AgentFacts.handle_hit clock random toLowerCase JSON_stringify base36
             ctx w ctx1 Hb Hl).
  rewrite Hlook. cbn [snd].
  rewrite (CacheFacts.get_live Artifact (at_ w 3) (at_ w 4) (key_of w ctx1) _
             (SmartCache.touched Artifact (at_ w 2) e));
    [| cbn [SmartCache.cache SmartCache.with_cache];
       apply CacheFacts.map_get_set_same
     | exact H3 ].
  cbn [fst snd self world executions stateManager cache Agent.with_cache
       SmartCache.cache SmartCache.with_cache SmartCache.touched
       SmartCache.value].
  split; [reflexivity |]. split; [apply app_nil_r |]. split; [reflexivity |].
  rewrite CacheFacts.map_get_set_same.
  unfold SmartCache.touched.
  cbn [SmartCache.value SmartCache.expiresAt SmartCache.accessCount].
  do 2 f_equal. lia.
Qed.

(** ** Cache keys *)

Lemma channel_name_inj ch ch' : channel_name ch = channel_name ch' -> ch = ch'.
Proof.
  destruct ch, ch'; intros H; try reflexivity; vm_compute in H; discriminate.
Qed.

(** Two requests share a cache key exactly when they agree on the
    channel, on the intent type and on the serialised params: no two
    channels and no two intent types ever share an entry. *)
Theorem cache_key_injective (i i' : Intent) (c c' : AgentContext) :
  generateCacheKey i c = generateCacheKey i' c'
  <-> channel c = channel c' /\ type i = type i'
      /\ JSON_stringify (params i) = JSON_stringify (params i').
Proof.
  unfold Agent.generateCacheKey. split.
  - change (lit ":") with [58%N]. cbn [app]. intros E.
    apply AgentFacts.split_at_colon in E; try apply AgentFacts.channel_name_plain.
    destruct E as [E1 E].
    apply AgentFacts.split_at_colon in E; try apply AgentFacts.type_name_plain.
    destruct E as [E2 E3].
    split; [apply channel_name_inj; exact E1 |].
    split; [apply AgentFacts.type_name_inj; exact E2 | exact E3].
  - intros (-> & -> & ->). reflexivity.
Qed.

Lemma key_nonempty i c : generateCacheKey i c <> [].
Proof.
  unfold Agent.generateCacheKey. change (lit ":") with [58%N].
  intros E. apply app_eq_nil in E. destruct E as [_ E]. discriminate.
Qed.

(** ** The shape of results *)

(** Every result [handle] returns has one of two shapes: a success,
    with no error and with [fromCache] set, or a failure, with an error
    message, no artifact and no [fromCache].  [fromCache] is [true]
    only when no handler ran, and [false] exactly when the request
    missed the cache, a handler was invoked and returned, and no
    post-hook threw; the artifact of such a result is the one the
    result object holds when the post-hooks are through. *)
Theorem result_is_well_formed (ctx : AgentContext) (w : World)
    (r : ProcessingResult) (w' : World) :
  handle ctx w = (Returned r, w') ->
  ((pr_success r = true /\ pr_error r = None
    /\ (fromCache r = Some true \/ fromCache r = Some false))
   \/ (pr_success r = false /\ pr_error r <> None
       /\ pr_artifact r = None /\ fromCache r = None))
  /\ (fromCache r = Some true -> executions w' = executions w)
  /\ (fromCache r = Some false
      <-> exists ctx1 p h h',
            before (plugins (self w)) ctx = Returned ctx1
            /\ fst (lookup w ctx1) = false
            /\ processors (self w) (type (intent_of w ctx1)) = Some p
            /\ handler_outcome w p ctx1 = Returned h
            /\ after (plugins (self w)) h = (Returned tt, h'))
  /\ (forall ctx1 p h h',
        before (plugins (self w)) ctx = Returned ctx1 ->
        fst (lookup w ctx1) = false ->
        processors (self w) (type (intent_of w ctx1)) = Some p ->
        handler_outcome w p ctx1 = Returned h ->
        after (plugins (self w)) h = (Returned tt, h') ->
        pr_artifact r = artifact (h_result h')
        /\ executions w'
           = executions w
               ++ [(type (intent_of w ctx1), params (intent_of w ctx1),
                    Returned h)]).
Proof.
  by_paths ctx w; intros [= <- <-];
    cbn [pr_success pr_error pr_artifact fromCache failure world executions].
  - split; [left; auto |]. split; [intros _; apply app_nil_r |].
    split; [split; [discriminate |] |].
    + intros (c1 & p & h & h' & Hb' & Hl' & _). congruence.
    + intros c1 p h h' Hb' Hl' _ _ _. congruence.
  - split; [left; auto |]. split; [discriminate |].
    split; [split; [intros _ |] |].
    + exists ctx1, p, h, h'. auto.
    + reflexivity.
    + intros c1 p0 h0 h0' Hb' Hl' Hp' He' Ha'.
      assert (c1 = ctx1) by congruence. subst c1.
      assert (p0 = p) by congruence. subst p0.
      assert (h0 = h) by congruence. subst h0.
      assert (h0' = h') by congruence. subst h0'.
      split; reflexivity.
  - split; [right; repeat split; discriminate |]. split; [discriminate |].
    split; [split; [discriminate |] |].
    + intros (c1 & p0 & h0 & h0' & Hb' & Hl' & Hp' & He' & Ha').
      assert (c1 = ctx1) by congruence. subst c1.
      assert (p0 = p) by congruence. subst p0.
      assert (h0 = h) by congruence. subst h0. congruence.
    + intros c1 p0 h0 h0' Hb' Hl' Hp' He' Ha'.
      assert (c1 = ctx1) by congruence. subst c1.
      assert (p0 = p) by congruence. subst p0.
      assert (h0 = h) by congruence. subst h0. congruence.
  - split; [right; repeat split; discriminate |]. split; [discriminate |].
    split; [split; [discriminate |] |].
    + intros (c1 & p0 & h0 & h0' & Hb' & Hl' & Hp' & He' & Ha').
      assert (c1 = ctx1) by congruence. subst c1.
      assert (p0 = p) by congruence. subst p0. congruence.
    + intros c1 p0 h0 h0' Hb' Hl' Hp' He' Ha'.
      assert (c1 = ctx1) by congruence. subst c1.
      assert (p0 = p) by congruence. subst p0. congruence.
  - split; [right; repeat split; discriminate |]. split; [discriminate |].
    split; [split; [discriminate |] |].
    + intros (c1 & p0 & h0 & h0' & Hb' & Hl' & Hp' & _).
      assert (c1 = ctx1) by congruence. subst c1. congruence.
    + intros c1 p0 h0 h0' Hb' Hl' Hp' _ _.
      assert (c1 = ctx1) by congruence. subst c1. congruence.
  - split; [right; repeat split; discriminate |]. split; [discriminate |].
    split; [split; [discriminate |] |].
    + intros (c1 & p0 & h0 & h0' & Hb' & _). congruence.
    + intros c1 p0 h0 h0' Hb' _ _ _ _. congruence.
Qed.

(** On every path through [handle] that returns a result, the duration
    of the result is the last clock reading of the call minus the
    first, and the call reads the clock at least twice; with a clock
    that never runs backwards the duration is not negative. *)
Theorem duration_is_elapsed_time (ctx : AgentContext) (w : World)
    (r : ProcessingResult) (w' : World) :
  handle ctx w = (Returned r, w') ->
  (2 + time_reads w <= time_reads w')%nat
  /\ duration r = clock (time_reads w' - 1) - clock (time_reads w)
  /\ ((forall i j, (i <= j)%nat -> clock i <= clock j) -> 0 <= duration r).
Proof.
  assert (Hd : forall n, at_ w n - at_ w 0
                         = clock (S n + time_reads w - 1) - clock (time_reads w)).
  { intros n. unfold Agent.at_. cbn [Nat.add]. do 2 f_equal. lia. }
  assert (Hpos : forall n, (forall i j, (i <= j)%nat -> clock i <= clock j) ->
                           0 <= at_ w n - at_ w 0).
  { intros n Hmono. unfold Agent.at_. cbn [Nat.add].
    pose proof (Hmono (time_reads w) (n + time_reads w)%nat ltac:(lia)). lia. }
  assert (Hm : (4 <= reads_after_history w)%nat)
    by (unfold reads_after_history; destruct (history_enabled w); lia).
  assert (Hs : forall h', (4 <= snd (store w (h_ctx h') h'))%nat -> True)
    by auto.
  by_paths ctx w; intros [= <- <-]; cbn [duration failure world time_reads].
  - split; [lia |]. split; [apply Hd | apply Hpos].
  - assert (Hst : (4 <= snd (store w ctx1 h'))%nat).
    { unfold Agent.store. destruct (artifact (h_result h')); cbn [snd]; lia. }
    split; [lia |]. split; [apply Hd | apply Hpos].
  - split; [lia |]. split; [apply Hd | apply Hpos].
  - split; [lia |]. split; [apply Hd | apply Hpos].
  - split; [lia |]. split; [apply Hd | apply Hpos].
  - split; [lia |]. split; [apply Hd | apply Hpos].
Qed.

(** ** What a call stores *)

Lemma lookup_incl w ctx1 x :
  In x (SmartCache.keys Artifact (SmartCache.cache Artifact (snd (lookup w ctx1)))) ->
  In x (SmartCache.keys Artifact (SmartCache.cache Artifact (cache (self w)))).
Proof. apply AgentFacts.lookup_keys_incl. Qed.

(** What enters the cache is the artifact of a handled request: if a
    call of [handle] leaves a key in the cache that was not there
    before, the request missed the cache, its handler returned, no
    post-hook threw, the key is the key of the request, and the entry
    under it holds, not yet accessed, the artifact that the result
    object holds when the post-hooks are through, which is also the
    artifact returned, with [fromCache = false].  Failures and hits add
    nothing. *)
Theorem only_fresh_artifacts_are_cached (ctx : AgentContext) (w : World)
    (k : jsstring) :
  In k (SmartCache.keys Artifact
          (SmartCache.cache Artifact (cache (self (snd (handle ctx w)))))) ->
  ~ In k (SmartCache.keys Artifact (SmartCache.cache Artifact (cache (self w)))) ->
  exists r a ctx1 p h h' e,
    fst (handle ctx w) = Returned r
    /\ before (plugins (self w)) ctx = Returned ctx1
    /\ processors (self w) (type (intent_of w ctx1)) = Some p
    /\ handler_outcome w p ctx1 = Returned h
    /\ after (plugins (self w)) h = (Returned tt, h')
    /\ artifact (h_result h') = Some a
    /\ k = key_of w ctx1
    /\ pr_success r = true /\ fromCache r = Some false
    /\ pr_artifact r = Some a
    /\ SmartCache.map_get Artifact k
         (SmartCache.cache Artifact (cache (self (snd (handle ctx w))))) = Some e
    /\ SmartCache.value Artifact e = a
    /\ SmartCache.accessCount Artifact e = 0.
Proof.
  by_paths ctx w;
    cbn [fst snd self world cache Agent.with_cache with_stateManager];
    intros Hin Hout;
    try (exfalso; apply Hout; apply (lookup_incl w ctx1); exact Hin).
  - exfalso. apply Hout. apply (lookup_incl w ctx1).
    eapply CacheFacts.get_keys_incl. exact Hin.
  - unfold Agent.store in *. destruct (artifact (h_result h')) as [a |] eqn:Hart;
      cbn [fst snd] in *.
    + apply AgentFacts.store_keys_incl in Hin. destruct Hin as [-> | Hin].
      * exists {| pr_success := true; pr_artifact := Some a;
                  fromCache := Some false;
                  duration := at_ w (S (S (reads_after_history w))) - at_ w 0;
                  pr_error := None |}, a, ctx1, p, h, h'.
        eexists.
        split; [reflexivity |]. split; [reflexivity |]. split; [exact Hp |].
        split; [exact He |]. split; [exact Ha |]. split; [exact Hart |].
        split; [reflexivity |].
        cbn [pr_success fromCache pr_artifact].
        split; [reflexivity |]. split; [reflexivity |]. split; [reflexivity |].
        split; [apply AgentFacts.store_get | split; reflexivity].
      * exfalso. apply Hout. apply (lookup_incl w ctx1). exact Hin.
    + exfalso. apply Hout. apply (lookup_incl w ctx1). exact Hin.
  - contradiction.
  - contradiction.
Qed.

(** A post-hook that throws turns a handled request into a failure
    after the fact: the caller gets [{success: false, error}] with the
    hook's message, although the handler was invoked and returned; the
    artifact is not cached, so no key enters the cache. *)
Theorem post_hook_failure_discards_result (ctx : AgentContext) (w : World)
    (ctx1 : AgentContext) (p : Processor) (h h' : Handled)
    (error : thrown) (e : jsstring) :
  before (plugins (self w)) ctx = Returned ctx1 ->
  fst (lookup w ctx1) = false ->
  processors (self w) (type (intent_of w ctx1)) = Some p ->
  handler_outcome w p ctx1 = Returned h ->
  after (plugins (self w)) h = (Threw error, h') ->
  message_of error = inl e ->
  (exists r, fst (handle ctx w) = Returned r
             /\ pr_success r = false /\ pr_error r = Some e
             /\ pr_artifact r = None)
  /\ executions (snd (handle ctx w))
     = executions w
         ++ [(type (intent_of w ctx1), params (intent_of w ctx1), Returned h)]
  /\ (forall k,
        In k (SmartCache.keys Artifact
                (SmartCache.cache Artifact (cache (self (snd (handle ctx w)))))) ->
        In k (SmartCache.keys Artifact
                (SmartCache.cache Artifact (cache (self w))))).
Proof.
  intros Hb Hl Hp He Ha Hm.
  rewrite (AgentFacts.handle_after_threw clock random toLowerCase JSON_stringify
             base36 ctx w ctx1 p h h' error Hb Hl Hp He Ha).
  unfold Agent.caught. rewrite Hm.
  cbn [fst snd self world executions cache stateManager
       Agent.with_cache with_stateManager].
  split; [eexists; split; [reflexivity |]; repeat split |].
  split; [reflexivity |].
  intros k Hin. apply (lookup_incl w ctx1). exact Hin.
Qed.

(** ** The agent's cache along any sequence of calls *)

Lemma get_well_keyed now1 now2 key (c : SmartCache.t Artifact) :
  SmartCache.well_keyed Artifact c ->
  SmartCache.well_keyed Artifact (snd (SmartCache.get Artifact now1 now2 key c)).
Proof.
  intros Hw.
  destruct (CacheFacts.get_cases Artifact now1 now2 key c)
    as [[_ ->] | [(e & He & _ & ->) | (e & He & _ & ->)]]; cbn [snd].
  - exact Hw.
  - apply CacheFacts.well_keyed_delete. exact Hw.
  - eapply CacheFacts.well_keyed_touch; eauto.
Qed.

Lemma get_sized now1 now2 key (c : SmartCache.t Artifact) (sized : bool) :
  SmartCache.well_keyed Artifact c ->
  (sized = true -> SmartCache.within Artifact c) ->
  SmartCache.well_keyed Artifact (snd (SmartCache.get Artifact now1 now2 key c))
  /\ (sized = true ->
      SmartCache.within Artifact (snd (SmartCache.get Artifact now1 now2 key c)))
  /\ SmartCache.options Artifact (snd (SmartCache.get Artifact now1 now2 key c))
     = SmartCache.options Artifact c.
Proof.
  intros Hw Hb. split; [apply get_well_keyed; exact Hw |].
  split; [| apply (CacheFacts.get_options Artifact artifact_undefined)].
  intros Hs. apply CacheFacts.get_within; [exact Hw | exact (Hb Hs)].
Qed.

Lemma lookup_sized w ctx1 :
  SmartCache.well_keyed Artifact (cache (self w)) ->
  (cache_sized (self w) = true -> SmartCache.within Artifact (cache (self w))) ->
  SmartCache.well_keyed Artifact (snd (lookup w ctx1))
  /\ (cache_sized (self w) = true ->
      SmartCache.within Artifact (snd (lookup w ctx1)))
  /\ SmartCache.options Artifact (snd (lookup w ctx1))
     = SmartCache.options Artifact (cache (self w)).
Proof.
  intros Hw Hb. unfold Agent.lookup. rewrite CacheFacts.has_state.
  apply get_sized; assumption.
Qed.

Lemma store_sized sized now1 now2 key a (c : SmartCache.t Artifact) :
  key <> [] ->
  SmartCache.well_keyed Artifact c ->
  (sized = true -> SmartCache.within Artifact c) ->
  SmartCache.well_keyed Artifact (cache_store sized now1 now2 key a c)
  /\ (sized = true ->
      SmartCache.within Artifact (cache_store sized now1 now2 key a c))
  /\ SmartCache.options Artifact (cache_store sized now1 now2 key a c)
     = SmartCache.options Artifact c.
Proof.
  intros Hk Hw Hb. destruct sized; cbn [cache_store].
  - destruct (CacheFacts.set_within Artifact now1 now2 key a c Hk Hw (Hb eq_refl))
      as [Hw' Hb'].
    split; [exact Hw' |]. split; [intros _; exact Hb' |].
    apply (CacheFacts.set_options Artifact artifact_undefined).
  - split; [apply CacheFacts.well_keyed_set; assumption |].
    split; [discriminate | reflexivity].
Qed.

Lemma handle_sized ctx w :
  SmartCache.well_keyed Artifact (cache (self w)) ->
  (cache_sized (self w) = true -> SmartCache.within Artifact (cache (self w))) ->
  SmartCache.well_keyed Artifact (cache (self (snd (handle ctx w))))
  /\ (cache_sized (self w) = true ->
      SmartCache.within Artifact (cache (self (snd (handle ctx w)))))
  /\ SmartCache.options Artifact (cache (self (snd (handle ctx w))))
     = SmartCache.options Artifact (cache (self w))
  /\ cache_sized (self (snd (handle ctx w))) = cache_sized (self w).
Proof.
  intros Hw Hb.
  assert (Hfour : forall c : SmartCache.t Artifact,
             SmartCache.well_keyed Artifact c
             /\ (cache_sized (self w) = true -> SmartCache.within Artifact c)
             /\ SmartCache.options Artifact c
                = SmartCache.options Artifact (cache (self w)) ->
             SmartCache.well_keyed Artifact c
             /\ (cache_sized (self w) = true -> SmartCache.within Artifact c)
             /\ SmartCache.options Artifact c
                = SmartCache.options Artifact (cache (self w))
             /\ cache_sized (self w) = cache_sized (self w)).
  { intros c (H1 & H2 & H3). auto. }
  by_paths ctx w;
    cbn [fst snd self world cache cache_sized Agent.with_cache
         with_stateManager];
    try (apply Hfour; apply lookup_sized; assumption);
    try (apply Hfour; auto; fail).
  - destruct (lookup_sized w ctx1 Hw Hb) as (Hw1 & Hb1 & Ho1).
    apply Hfour.
    destruct (get_sized (at_ w 3) (at_ w 4) (key_of w ctx1)
                (snd (lookup w ctx1)) (cache_sized (self w)) Hw1 Hb1)
      as (Hw2 & Hb2 & Ho2).
    split; [exact Hw2 |]. split; [exact Hb2 |]. congruence.
  - destruct (lookup_sized w ctx1 Hw Hb) as (Hw1 & Hb1 & Ho1).
    apply Hfour.
    unfold Agent.store. destruct (artifact (h_result h')) as [a |]; cbn [fst];
      [| auto].
    destruct (store_sized (cache_sized (self w))
                (at_ w (reads_after_history w))
                (at_ w (S (reads_after_history w)))
                (key_of w ctx1) a (snd (lookup w ctx1))
                (key_nonempty _ _) Hw1 Hb1) as (Hw2 & Hb2 & Ho2).
    split; [exact Hw2 |]. split; [exact Hb2 |]. congruence.
Qed.

Lemma perform_sized w c :
  SmartCache.well_keyed Artifact (cache (self w)) ->
  (cache_sized (self w) = true -> SmartCache.within Artifact (cache (self w))) ->
  SmartCache.well_keyed Artifact (cache (self (perform w c)))
  /\ (cache_sized (self w) = true ->
      SmartCache.within Artifact (cache (self (perform w c))))
  /\ SmartCache.options Artifact (cache (self (perform w c)))
     = SmartCache.options Artifact (cache (self w))
  /\ cache_sized (self (perform w c)) = cache_sized (self w).
Proof.
  intros Hw Hb.
  assert (Hbuild : forall m,
             let w' := snd (builder_execute clock random toLowerCase
                              JSON_stringify base36 m w) in
             SmartCache.well_keyed Artifact (cache (self w'))
             /\ (cache_sized (self w) = true ->
                 SmartCache.within Artifact (cache (self w')))
             /\ SmartCache.options Artifact (cache (self w'))
                = SmartCache.options Artifact (cache (self w))
             /\ cache_sized (self w') = cache_sized (self w)).
  { intros m. cbv zeta. unfold builder_execute, bind, Date_now.
    apply (handle_sized _ {| self := self w; time_reads := S (time_reads w);
                             random_reads := random_reads w;
                             executions := executions w |}); assumption. }
  destruct c; cbn [Agent.perform]; try apply Hbuild.
  - apply handle_sized; assumption.
  - cbn. auto.
  - unfold use, bind, modify, throw. destruct (i_ending (install plugin));
      cbn [snd self cache cache_sized]; auto.
  - cbn. auto.
Qed.

(** The agent's cache is sized once, at construction.  Along any
    sequence of calls of the public API it keeps the capacity the
    constructor was given as [maxCacheSize] (100 when the options have
    no such key) and the default time to live of five minutes; a later
    [configure({maxCacheSize})] changes neither.  While the capacity is
    a number the cache never holds more artifacts than that (one, for
    a capacity below one).  With [maxCacheSize: undefined] the cache
    has no capacity: storing an artifact then evicts nothing.  Either
    way the cache holds no key twice. *)
Theorem agent_cache_is_sized_at_construction (o : AgentOptions)
    (cs : list api_call) :
  let a := self (perform_all cs (boot o)) in
  let c := cache a in
  (maxCacheSize o = Absent ->
   cache_sized a = true
   /\ SmartCache.r_maxSize (SmartCache.options Artifact c) = 100)
  /\ (forall n, maxCacheSize o = Present (Some n) ->
      cache_sized a = true
      /\ SmartCache.r_maxSize (SmartCache.options Artifact c) = n)
  /\ (maxCacheSize o = Present None ->
      cache_sized a = false
      /\ forall now1 now2 key v k,
           In k (SmartCache.keys Artifact (SmartCache.cache Artifact c)) ->
           In k (SmartCache.keys Artifact
                   (SmartCache.cache Artifact
                      (cache_store (cache_sized a) now1 now2 key v c))))
  /\ SmartCache.r_ttlMs (SmartCache.options Artifact c) = 300000
  /\ (cache_sized a = true ->
      SmartCache.map_size Artifact (SmartCache.cache Artifact c)
      <= Z.max 1 (SmartCache.r_maxSize (SmartCache.options Artifact c)))
  /\ NoDup (SmartCache.keys Artifact (SmartCache.cache Artifact c)).
Proof.
  cbv zeta.
  assert (H : forall w,
             SmartCache.well_keyed Artifact (cache (self w)) ->
             (cache_sized (self w) = true ->
              SmartCache.within Artifact (cache (self w))) ->
             SmartCache.well_keyed Artifact (cache (self (perform_all cs w)))
             /\ (cache_sized (self w) = true ->
                 SmartCache.within Artifact (cache (self (perform_all cs w))))
             /\ SmartCache.options Artifact (cache (self (perform_all cs w)))
                = SmartCache.options Artifact (cache (self w))
             /\ cache_sized (self (perform_all cs w)) = cache_sized (self w)).
  { unfold Agent.perform_all.
    induction cs as [| c cs' IH]; intros w Hw Hb; cbn [fold_left]; [auto |].
    destruct (perform_sized w c Hw Hb) as (Hw1 & Hb1 & Ho1 & Hs1).
    rewrite <- Hs1 in Hb1.
    destruct (IH _ Hw1 Hb1) as (Hw2 & Hb2 & Ho2 & Hs2).
    split; [exact Hw2 |]. split; [rewrite <- Hs1; exact Hb2 |].
    split; congruence. }
  destruct (CacheFacts.new_well_keyed Artifact
              {| SmartCache.maxSize := read (maxCacheSize (spread default_options o));
                 SmartCache.ttlMs := None;
                 SmartCache.prefix := None |}) as [Hw0 Hb0].
  destruct (H (boot o) Hw0 (fun _ => Hb0)) as ((Hnd & _) & Hb & Ho & Hs).
  rewrite Ho, Hs.
  split; [intros E; cbn; rewrite E; split; reflexivity |].
  split; [intros n E; cbn; rewrite E; split; reflexivity |].
  split; [intros E; cbn [boot self createAgent cache_sized spread maxCacheSize
                         default_options over read]; rewrite E;
          split; [reflexivity |] |].
  - intros now1 now2 key v k Hin. cbn [cache_store]. unfold set_unsized.
    cbn [SmartCache.cache SmartCache.with_cache].
    apply CacheFacts.keys_set. right. exact Hin.
  - split; [reflexivity |]. split; [| exact Hnd].
    intros Hsz. unfold SmartCache.within in Hb. rewrite Ho in Hb.
    apply Hb. exact Hsz.
Qed.

(** ** Registration *)

(** The processor registered last for an intent type is the one a
    request of that type is handed to when the cache has nothing for
    it; the processors of the other types stay as they were. *)
Theorem last_registration_wins (ty : IntentType) (p : Processor)
    (ctx : AgentContext) (w : World) (ctx1 : AgentContext) :
  let w' := snd (registerProcessor ty p w) in
  before (plugins (self w)) ctx = Returned ctx1 ->
  fst (lookup w' ctx1) = false ->
  type (intent_of w' ctx1) = ty ->
  executions (snd (handle ctx w'))
  = executions w
      ++ [(ty, params (intent_of w' ctx1),
           execute p (at_ w' 3) (params (intent_of w' ctx1)) ctx1)]
  /\ (forall ty', ty' <> ty ->
                  processors (self w') ty' = processors (self w) ty').
Proof.
  cbv zeta. intros Hb Hl Hty.
  set (w' := snd (registerProcessor ty p w)) in *.
  assert (Hb' : before (plugins (self w')) ctx = Returned ctx1) by exact Hb.
  assert (Hp : processors (self w') (type (intent_of w' ctx1)) = Some p).
  { rewrite Hty. unfold w', registerProcessor, modify.
    cbn [snd self processors]. unfold processors_set.
    destruct (IntentType_eq_dec ty ty); [reflexivity | contradiction]. }
  assert (Hx : executions w' = executions w) by reflexivity.
  split.
  - destruct (handler_outcome w' p ctx1) as [h | e] eqn:He.
    + destruct (after (plugins (self w')) h) as [[[] | e] h'] eqn:Ha.
      * rewrite (AgentFacts.handle_success clock random toLowerCase
                   JSON_stringify base36 ctx w' ctx1 p h h'
                   Hb' Hl Hp He Ha).
        cbn [snd world executions]. rewrite Hx, Hty.
        unfold Agent.handler_outcome in He. rewrite He. reflexivity.
      * rewrite (AgentFacts.handle_after_threw clock random toLowerCase
                   JSON_stringify base36 ctx w' ctx1 p h h' e
                   Hb' Hl Hp He Ha).
        rewrite (proj2 (AgentFacts.caught_world clock _ _ _ _ _ _)).
        rewrite Hx, Hty.
        unfold Agent.handler_outcome in He. rewrite He. reflexivity.
    + rewrite (AgentFacts.handle_execute_threw clock random toLowerCase
                 JSON_stringify base36 ctx w' ctx1 p e Hb' Hl Hp He).
      rewrite (proj2 (AgentFacts.caught_world clock _ _ _ _ _ _)).
      rewrite Hx, Hty.
      unfold Agent.handler_outcome in He. rewrite He. reflexivity.
  - intros ty' Hne. unfold w', registerProcessor, modify.
    cbn [snd self processors]. unfold processors_set.
    destruct (IntentType_eq_dec ty' ty); [contradiction | reflexivity].
Qed.

End More.

Lemma hooks_run_in_registration_order_witness :
  i_ending (install Samples.failing_plugin) = None
  /\ plugins (self (snd (use Samples.failing_plugin Samples.default_agent)))
     = plugins (self Samples.default_agent)
         ++ i_plugins (install Samples.failing_plugin)
         ++ [Samples.failing_plugin].
Proof.
  split; [reflexivity |].
  apply (proj1 (proj2 (proj2 (proj2 (proj2
           (hooks_run_in_registration_order Samples.clock Samples.random
              ascii_toLowerCase Samples.render Samples.base36 [] [])))))
           Samples.failing_plugin Samples.default_agent eq_refl).
Defined.

Lemma live_entry_is_served_witness :
  let ctx := Samples.context "/analyze x" in
  let w1 := snd (Samples.handle ctx Samples.default_agent) in
  before (plugins (self w1)) ctx = Returned ctx
  /\ SmartCache.map_get Artifact
       (Agent.key_of Samples.random ascii_toLowerCase Samples.render w1 ctx)
       (SmartCache.cache Artifact (cache (self w1))) = Some Samples.cached_report
  /\ Agent.at_ Samples.clock w1 1
     <= SmartCache.expiresAt Artifact Samples.cached_report
  /\ Agent.at_ Samples.clock w1 3
     <= SmartCache.expiresAt Artifact Samples.cached_report
  /\ executions (snd (Samples.handle ctx w1)) = executions w1.
Proof.
  cbv zeta.
  set (ctx := Samples.context "/analyze x").
  set (w1 := snd (Samples.handle ctx Samples.default_agent)).
  assert (H0 : before (plugins (self w1)) ctx = Returned ctx) by reflexivity.
  assert (Hg : SmartCache.map_get Artifact
                 (Agent.key_of Samples.random ascii_toLowerCase Samples.render
                    w1 ctx)
                 (SmartCache.cache Artifact (cache (self w1)))
               = Some Samples.cached_report) by (vm_compute; reflexivity).
  assert (H1 : Agent.at_ Samples.clock w1 1
               <= SmartCache.expiresAt Artifact Samples.cached_report)
    by (vm_compute; discriminate).
  assert (H3 : Agent.at_ Samples.clock w1 3
               <= SmartCache.expiresAt Artifact Samples.cached_report)
    by (vm_compute; discriminate).
  split; [exact H0 |]. split; [exact Hg |]. split; [exact H1 |].
  split; [exact H3 |].
  apply (live_entry_is_served Samples.clock Samples.random ascii_toLowerCase
           Samples.render Samples.base36 ctx w1 ctx Samples.cached_report
           H0 Hg H1 H3).
Defined.

Abbreviation first_call :=
  (Agent.handle Samples.clock Samples.random ascii_toLowerCase Samples.render
     Samples.base36 (Samples.context "/analyze x") Samples.default_agent).

Lemma result_is_well_formed_witness :
  first_call
  = (Returned Samples.fresh_report,
     snd first_call)
  /\ (fromCache Samples.fresh_report = Some false
      <-> exists ctx1 p h h',
            before (plugins (self Samples.default_agent))
              (Samples.context "/analyze x") = Returned ctx1
            /\ fst (Agent.lookup Samples.clock Samples.random ascii_toLowerCase
                      Samples.render Samples.default_agent ctx1) = false
            /\ processors (self Samples.default_agent)
                 (type (Agent.intent_of Samples.random ascii_toLowerCase
                          Samples.default_agent ctx1)) = Some p
            /\ Agent.handler_outcome Samples.clock Samples.random
                 ascii_toLowerCase Samples.default_agent p ctx1 = Returned h
            /\ after (plugins (self Samples.default_agent)) h = (Returned tt, h')).
Proof.
  assert (Hf : fst first_call
               = Returned Samples.fresh_report) by (vm_compute; reflexivity).
  assert (H : first_call
              = (Returned Samples.fresh_report,
                 snd first_call))
    by (rewrite <- Hf; apply surjective_pairing).
  split; [exact H |].
  exact (proj1 (proj2 (proj2
           (result_is_well_formed Samples.clock Samples.random
              ascii_toLowerCase Samples.render Samples.base36
              (Samples.context "/analyze x") Samples.default_agent
              Samples.fresh_report
              (snd first_call)
              H)))).
Defined.

Lemma duration_is_elapsed_time_witness :
  first_call
  = (Returned Samples.fresh_report,
     snd first_call)
  /\ duration Samples.fresh_report = 10
  /\ (forall i j, (i <= j)%nat -> Samples.clock i <= Samples.clock j)
  /\ 0 <= duration Samples.fresh_report.
Proof.
  assert (Hf : fst first_call
               = Returned Samples.fresh_report) by (vm_compute; reflexivity).
  assert (H : first_call
              = (Returned Samples.fresh_report,
                 snd first_call))
    by (rewrite <- Hf; apply surjective_pairing).
  assert (Hmono : forall i j, (i <= j)%nat -> Samples.clock i <= Samples.clock j)
    by (intros i j Hij; unfold Samples.clock; lia).
  split; [exact H |]. split; [reflexivity |]. split; [exact Hmono |].
  exact (proj2 (proj2
           (duration_is_elapsed_time Samples.clock Samples.random
              ascii_toLowerCase Samples.render Samples.base36
              (Samples.context "/analyze x") Samples.default_agent
              Samples.fresh_report
              (snd first_call)
              H)) Hmono).
Defined.

Lemma only_fresh_artifacts_are_cached_witness :
  let ctx := Samples.context "/analyze x" in
  let w := Samples.default_agent in
  let k := Agent.key_of Samples.random ascii_toLowerCase Samples.render w ctx in
  In k (SmartCache.keys Artifact
          (SmartCache.cache Artifact
             (cache (self (snd (Agent.handle Samples.clock Samples.random
                                  ascii_toLowerCase Samples.render
                                  Samples.base36 ctx w))))))
  /\ ~ In k (SmartCache.keys Artifact (SmartCache.cache Artifact (cache (self w))))
  /\ exists r,
       fst (Agent.handle Samples.clock Samples.random ascii_toLowerCase
              Samples.render Samples.base36 ctx w) = Returned r
       /\ fromCache r = Some false.
Proof.
  cbv zeta.
  set (k := Agent.key_of Samples.random ascii_toLowerCase Samples.render
              Samples.default_agent (Samples.context "/analyze x")).
  assert (H1 : In k (SmartCache.keys Artifact
                       (SmartCache.cache Artifact
                          (cache (self (snd (Agent.handle Samples.clock
                                               Samples.random ascii_toLowerCase
                                               Samples.render Samples.base36
                                               (Samples.context "/analyze x")
                                               Samples.default_agent)))))))
    by (vm_compute; left; reflexivity).
  assert (H2 : ~ In k (SmartCache.keys Artifact
                         (SmartCache.cache Artifact
                            (cache (self Samples.default_agent)))))
    by (intros []).
  split; [exact H1 |]. split; [exact H2 |].
  destruct (only_fresh_artifacts_are_cached Samples.clock Samples.random
              ascii_toLowerCase Samples.render Samples.base36
              (Samples.context "/analyze x") Samples.default_agent k H1 H2)
    as (r & a & ctx1 & p & h & h' & e & Hr & _ & _ & _ & _ & _ & _ & _ & Hf & _).
  exists r. split; [exact Hr | exact Hf].
Defined.

(** A post-hook that deletes [result.artifact], on a default agent: the
    request is handled and succeeds without an artifact, nothing is
    cached, the history entry shows the result as the hook left it, and
    the same request is handled again the next time. *)
Example erased_artifact_is_not_cached :
  let ctx := Samples.context "/analyze x" in
  let w := snd (use Samples.erasing_plugin Samples.default_agent) in
  let w1 := snd (Samples.handle ctx w) in
  fst (Samples.handle ctx w)
  = Returned {| pr_success := true; pr_artifact := None;
                fromCache := Some false; duration := 8; pr_error := None |}
  /\ SmartCache.keys Artifact (SmartCache.cache Artifact (cache (self w1))) = []
  /\ map StateManager.result (StateManager.history (stateManager (self w1)))
     = [{| artifact := None; success := None; error := None |}]
  /\ executions w1 = [(analyze, [], Returned Samples.report_handled)]
  /\ length (executions (snd (Samples.handle ctx w1))) = 2%nat.
Proof.
  cbv zeta.
  split; [vm_compute; reflexivity |]. split; [vm_compute; reflexivity |].
  split; [vm_compute; reflexivity |]. split; [vm_compute; reflexivity |].
  vm_compute. reflexivity.
Qed.

Lemma post_hook_failure_discards_result_witness :
  let ctx := Samples.context "/analyze x" in
  let w := Samples.guarded_agent in
  before (plugins (self w)) ctx = Returned ctx
  /\ fst (Agent.lookup Samples.clock Samples.random ascii_toLowerCase
            Samples.render w ctx) = false
  /\ processors (self w)
       (type (Agent.intent_of Samples.random ascii_toLowerCase w ctx))
     = Some createComplianceProcessor
  /\ Agent.handler_outcome Samples.clock Samples.random ascii_toLowerCase
       w createComplianceProcessor ctx = Returned Samples.report_handled
  /\ after (plugins (self w)) Samples.report_handled
     = (Threw (Error_ (lit "boom")), Samples.report_handled)
  /\ exists r, fst (Samples.handle ctx w) = Returned r
               /\ pr_success r = false /\ pr_error r = Some (lit "boom")
               /\ pr_artifact r = None.
Proof.
  cbv zeta.
  split; [reflexivity |]. split; [reflexivity |]. split; [reflexivity |].
  split; [reflexivity |]. split; [reflexivity |].
  apply (post_hook_failure_discards_result Samples.clock Samples.random
           ascii_toLowerCase Samples.render Samples.base36
           (Samples.context "/analyze x") Samples.guarded_agent
           (Samples.context "/analyze x") createComplianceProcessor
           Samples.report_handled Samples.report_handled
           (Error_ (lit "boom")) (lit "boom")
           eq_refl eq_refl eq_refl eq_refl eq_refl eq_refl).
Defined.

Lemma agent_cache_is_sized_at_construction_witness :
  maxCacheSize Samples.unsized_options = Present None
  /\ cache_sized
       (self (Agent.perform_all Samples.clock Samples.random ascii_toLowerCase
                Samples.render Samples.base36
                [Handle (Samples.context "/analyze x")]
                (boot Samples.unsized_options))) = false.
Proof.
  split; [reflexivity |].
  exact (proj1 (proj1 (proj2 (proj2
           (agent_cache_is_sized_at_construction Samples.clock Samples.random
              ascii_toLowerCase Samples.render Samples.base36
              Samples.unsized_options
              [Handle (Samples.context "/analyze x")]))) eq_refl)).
Defined.

Lemma last_registration_wins_witness :
  let ctx := Samples.context "/help" in
  let w' := snd (registerProcessor help createReviewProcessor
                   Samples.default_agent) in
  before (plugins (self Samples.default_agent)) ctx = Returned ctx
  /\ fst (Agent.lookup Samples.clock Samples.random ascii_toLowerCase
            Samples.render w' ctx) = false
  /\ type (Agent.intent_of Samples.random ascii_toLowerCase w' ctx) = help
  /\ executions (snd (Samples.handle ctx w'))
     = executions Samples.default_agent
         ++ [(help,
              params (Agent.intent_of Samples.random ascii_toLowerCase w' ctx),
              execute createReviewProcessor (Agent.at_ Samples.clock w' 3)
                (params (Agent.intent_of Samples.random ascii_toLowerCase w' ctx))
                ctx)].
Proof.
  cbv zeta.
  split; [reflexivity |]. split; [reflexivity |]. split; [reflexivity |].
  apply (last_registration_wins Samples.clock Samples.random ascii_toLowerCase
           Samples.render Samples.base36 help createReviewProcessor
           (Samples.context "/help") Samples.default_agent
           (Samples.context "/help") eq_refl eq_refl eq_refl).
Defined.

End AgentMore.
